(** * chrjson-split: a shallow embedding of the streaming router of main.go

    The program splits a JSONL file into one file per chromosome name.  The
    embedding follows main.go function by function:

    - the operating system (os.Create, os.Open, File.Write, File.Close) is a
      state [OS]: the files on disk, the table of open file handles and the
      next free handle.  Whether a path can be created or written is decided
      by an environment [Env], the same for the whole run;
    - bufio.Writer and bufio.Scanner are modelled after the Go standard
      library (package bufio), sizes as [Z] like Go's int;
    - gjson.GetBytes is a third-party JSON lookup; it is a parameter of the
      development ([GetBytes]), since nothing of it lives in this repository;
      strings.TrimSpace is a parameter ([TrimSpace]) in the same way, and
      main is modelled from the values of its flags after pflag.Parse();
    - Go maps are stdpp's [gmap]; a [*bufio.Writer] is held by exactly one map
      entry, so the map stores the writer itself; a [*os.File] is a handle
      (a key of the table of open files), shared between the writer and the
      map of files as in the source.

    Console output (fmt.Printf) is not part of the modelled state. *)

From Stdlib Require Import ZArith Lia.
From Stdlib.Strings Require Import Byte Ascii.
From stdpp Require Import base gmap strings list pretty.

#[local] Set Warnings "-clear-no-such-hyp".

(** ** Bytes and sizes *)

#[global] Instance byte_eq_dec : EqDecision byte := Byte.byte_eq_dec.

Definition bytes (s : string) : list byte := String.list_byte_of_string s.

(** '\n' and '\r'. *)
Definition newline : byte := x0a.
Definition carriage_return : byte := x0d.

(** Go's [len], an int. *)
Definition len {A : Type} (l : list A) : Z := Z.of_nat (length l).

(** ** Errors *)

(** Causes reported by the operating system and by package bufio. *)
Inductive io_error : Type :=
| ErrCreate        (* os.Create failed (permissions, missing directory, ...) *)
| ErrNotExist      (* os.Open: no such file *)
| ErrClosed        (* use of a closed file *)
| ErrWrite         (* File.Write failed (disk full, ...) *)
| ErrTooLong.      (* bufio.Scanner: token too long *)

(** The errors ProcessFile returns; each constructor is one fmt.Errorf of
    main.go, with the values it formats. *)
Inductive error : Type :=
| FailedCreateOutput (filename : string) (cause : io_error)
| FailedOpenInput (cause : io_error)
| FailedWriteLine (lineNum : Z) (cause : io_error)
| FailedWriteNewline (lineNum : Z) (cause : io_error)
| ErrorReadingInput (lineNum : Z) (cause : io_error).

#[global] Instance io_error_eq_dec : EqDecision io_error.
Proof. solve_decision. Defined.
#[global] Instance error_eq_dec : EqDecision error.
Proof. solve_decision. Defined.

(** ** The operating system *)

(** The environment of a run: which paths os.Create can create and which
    files accept writes.  It does not change during a run. *)
Record Env : Type := {
  can_create : string → bool;
  can_write : string → bool;
}.

(** An open file: its path and the offset of the next write. *)
Record OpenFile : Type := {
  of_path : string;
  of_offset : nat;
}.

Record OS : Type := {
  disk : gmap string (list byte);
  open_files : gmap nat OpenFile;
  next_handle : nat;
}.

(** A process that starts on the files [d], with no file open. *)
Definition fresh_process (d : gmap string (list byte)) : OS :=
  {| disk := d; open_files := ∅; next_handle := 0 |}.

(** Writing [p] at offset [off] of a file holding [content]; a gap past the
    end of the file reads as zero bytes. *)
Definition write_at (content : list byte) (off : nat) (p : list byte) : list byte :=
  take off content ++ replicate (off - length content) x00 ++ p
    ++ drop (off + length p) content.

(** os.Create: creates the file or truncates it, and opens it at offset 0. *)
Definition os_Create (env : Env) (os : OS) (path : string) : OS * (nat + io_error) :=
  if can_create env path then
    let h := next_handle os in
    ({| disk := <[path := []]> (disk os);
        open_files := <[h := {| of_path := path; of_offset := 0 |}]> (open_files os);
        next_handle := S h |}, inl h)
  else (os, inr ErrCreate).

(** File.Write: all of [p] is written at the handle's offset, or nothing. *)
Definition File_Write (env : Env) (os : OS) (h : nat) (p : list byte) : OS * option io_error :=
  match open_files os !! h with
  | None => (os, Some ErrClosed)
  | Some f =>
      if can_write env (of_path f) then
        let content := default [] (disk os !! of_path f) in
        ({| disk := <[of_path f := write_at content (of_offset f) p]> (disk os);
            open_files :=
              <[h := {| of_path := of_path f; of_offset := of_offset f + length p |}]>
                (open_files os);
            next_handle := next_handle os |}, None)
      else (os, Some ErrWrite)
  end.

(** File.Close. *)
Definition File_Close (os : OS) (h : nat) : OS * option io_error :=
  match open_files os !! h with
  | None => (os, Some ErrClosed)
  | Some _ =>
      ({| disk := disk os; open_files := delete h (open_files os);
          next_handle := next_handle os |}, None)
  end.

(** os.Open for reading.  The scanner reads the file while the writers
    write; the only files written are the output files, and an output file is
    empty from os.Create until the first flush, which comes after the scanner
    has met the end of an empty input.  So the bytes the scanner reads are
    the bytes on disk when the file is opened. *)
Definition os_Open (os : OS) (path : string) : OS * (nat * list byte + io_error) :=
  match disk os !! path with
  | None => (os, inr ErrNotExist)
  | Some content =>
      let h := next_handle os in
      ({| disk := disk os;
          open_files := <[h := {| of_path := path; of_offset := 0 |}]> (open_files os);
          next_handle := S h |}, inl (h, content))
  end.

(** ** bufio.Writer *)

Record Writer : Type := {
  wr : nat;               (* the underlying file *)
  buf : list byte;        (* buf[0:n], the bytes not yet written *)
  size : Z;               (* len(buf) of the Go struct *)
  werr : option io_error; (* the sticky error *)
}.

Definition NewWriterSize (file : nat) (sz : Z) : Writer :=
  {| wr := file; buf := []; size := (if bool_decide (sz ≤ 0)%Z then 4096 else sz)%Z;
     werr := None |}.

Definition Available (b : Writer) : Z := (size b - len (buf b))%Z.
Definition Buffered (b : Writer) : Z := len (buf b).

Definition set_buf (b : Writer) (l : list byte) : Writer :=
  {| wr := wr b; buf := l; size := size b; werr := werr b |}.
Definition set_werr (b : Writer) (e : option io_error) : Writer :=
  {| wr := wr b; buf := buf b; size := size b; werr := e |}.

(** Writer.Flush. *)
Definition Flush (env : Env) (os : OS) (b : Writer) : OS * Writer * option io_error :=
  match werr b with
  | Some e => (os, b, Some e)
  | None =>
      match buf b with
      | [] => (os, b, None)
      | _ :: _ =>
          match File_Write env os (wr b) (buf b) with
          | (os', Some e) => (os', set_werr b (Some e), Some e)
          | (os', None) => (os', set_buf b [], None)
          end
      end
  end.

(** Writer.Write.  Go loops while [len(p) > b.Available()] and no error is
    set; [Write_pass] is one pass of that loop: with an empty buffer it
    writes [p] to the file directly, otherwise it fills the buffer and
    flushes.  It returns what is left of [p]. *)
Definition Write_more (b : Writer) (p : list byte) : bool :=
  bool_decide (len p > Available b)%Z && bool_decide (werr b = None).

Definition Write_pass (env : Env) (os : OS) (b : Writer) (p : list byte)
  : OS * Writer * list byte :=
  if bool_decide (Buffered b = 0)%Z then
    match File_Write env os (wr b) p with
    | (os', Some e) => (os', set_werr b (Some e), p)
    | (os', None) => (os', b, [])
    end
  else
    let n := Z.to_nat (Available b) in
    let '(os', b', _) := Flush env os (set_buf b (buf b ++ take n p)) in
    (os', b', drop n p).

(** The end of Write, after the loop. *)
Definition Write_rest (os : OS) (b : Writer) (p : list byte)
  : OS * Writer * option io_error :=
  match werr b with
  | Some e => (os, b, Some e)
  | None => (os, set_buf b (buf b ++ p), None)
  end.

(** The loop runs at most twice (lemma [Write_pass_twice] below): a direct
    write leaves nothing of [p], and after a fill and flush the buffer is
    empty, so the next pass is a direct write. *)
Definition Write (env : Env) (os : OS) (b : Writer) (p : list byte)
  : OS * Writer * option io_error :=
  if Write_more b p then
    let '(os1, b1, p1) := Write_pass env os b p in
    if Write_more b1 p1 then
      let '(os2, b2, p2) := Write_pass env os1 b1 p1 in
      Write_rest os2 b2 p2
    else Write_rest os1 b1 p1
  else Write_rest os b p.

(** Writer.WriteByte. *)
Definition WriteByte (env : Env) (os : OS) (b : Writer) (c : byte)
  : OS * Writer * option io_error :=
  match werr b with
  | Some e => (os, b, Some e)
  | None =>
      if bool_decide (Available b ≤ 0)%Z then
        match Flush env os b with
        | (os', b', Some e) => (os', b', werr b')
        | (os', b', None) => (os', set_buf b' (buf b' ++ [c]), None)
        end
      else (os, set_buf b (buf b ++ [c]), None)
  end.

(** ** bufio.Scanner with the split function bufio.ScanLines *)

Record Scanner : Type := {
  unread : list byte;         (* the bytes of the file not yet consumed *)
  bufcap : Z;                 (* cap of the initial buffer *)
  maxTokenSize : Z;
  token : list byte;          (* what Bytes() returns *)
  serr : option io_error;     (* what Err() returns *)
}.

Definition NewScanner (content : list byte) : Scanner :=
  {| unread := content; bufcap := 4096; maxTokenSize := 64 * 1024; token := [];
     serr := None |}.

(** Scanner.Buffer(buf, max), with [cap] the capacity of [buf]. *)
Definition Scanner_Buffer (s : Scanner) (cap max : Z) : Scanner :=
  {| unread := unread s; bufcap := cap; maxTokenSize := max; token := token s;
     serr := serr s |}.

(** The buffer grows by doubling up to [maxTokenSize], or stays at its
    initial capacity when that is larger. *)
Definition buffer_limit (s : Scanner) : Z := Z.max (bufcap s) (maxTokenSize s).

(** bytes.IndexByte. *)
Fixpoint IndexByte (data : list byte) (c : byte) : option nat :=
  match data with
  | [] => None
  | b :: rest => if decide (b = c) then Some 0 else S <$> IndexByte rest c
  end.

(** dropCR of bufio: drops one terminal '\r'. *)
Definition dropCR (data : list byte) : list byte :=
  match last data with
  | Some c => if decide (c = carriage_return) then take (length data - 1) data else data
  | None => data
  end.

(** bufio.ScanLines: (advance, token); no token asks for more data. *)
Definition ScanLines (data : list byte) (atEOF : bool) : nat * option (list byte) :=
  if atEOF && bool_decide (data = []) then (0, None)
  else match IndexByte data newline with
       | Some i => (i + 1, Some (dropCR (take i data)))
       | None => if atEOF then (length data, Some (dropCR data)) else (0, None)
       end.

(** Scanner.Scan.  The buffer holds at most [buffer_limit] bytes of the
    unread input; the end of the file is seen only while the buffer has room
    for another read.  A full buffer without a token is ErrTooLong. *)
Definition Scan (s : Scanner) : bool * Scanner :=
  match serr s with
  | Some _ => (false, s)
  | None =>
      let atEOF := bool_decide (len (unread s) < buffer_limit s)%Z in
      let window :=
        if atEOF then unread s else take (Z.to_nat (buffer_limit s)) (unread s) in
      match ScanLines window atEOF with
      | (advance, Some tok) =>
          (true, {| unread := drop advance (unread s); bufcap := bufcap s;
                    maxTokenSize := maxTokenSize s; token := tok; serr := None |})
      | (_, None) =>
          (false, {| unread := unread s; bufcap := bufcap s;
                     maxTokenSize := maxTokenSize s; token := [];
                     serr := if atEOF then None else Some ErrTooLong |})
      end
  end.

(** The lines of a file: the byte sequences between newlines; a last line
    need not end in a newline. *)
Fixpoint lines (data : list byte) : list (list byte) :=
  match data with
  | [] => []
  | b :: rest =>
      if decide (b = newline) then [] :: lines rest
      else match lines rest with
           | [] => [[b]]
           | l :: ls => (b :: l) :: ls
           end
  end.

(** What a loop [for scanner.Scan()] sees: the tokens of the successive
    calls that return true, and Err() after the call that returns false
    (lemma [Scanner_run_Scan] below). *)
Fixpoint scan_lines (limit : Z) (ls : list (list byte))
  : list (list byte) * option io_error :=
  match ls with
  | [] => ([], None)
  | l :: rest =>
      if bool_decide (len l < limit)%Z then
        let '(toks, e) := scan_lines limit rest in (dropCR l :: toks, e)
      else ([], Some ErrTooLong)
  end.

Definition Scanner_run (s : Scanner) : list (list byte) * option io_error :=
  match serr s with
  | Some e => ([], Some e)
  | None => scan_lines (buffer_limit s) (lines (unread s))
  end.

(** ** main.go *)

Definition UnknownChr : string := "unknown_chr".

(** gjson.Result, as far as main.go looks at it. *)
Record Result : Type := {
  Exists : bool;       (* result.Exists() *)
  ResultString : string;  (* result.String() *)
}.

Record ChromosomeProcessor : Type := {
  inputFile : string;
  prefix : string;
  chrFieldName : string;
  chrNames : list string;
  chrSet : gmap string bool;
  outputWriters : gmap string Writer;
  outputFiles : gmap string nat;
}.

Definition set_outputs (cp : ChromosomeProcessor)
    (ws : gmap string Writer) (fs : gmap string nat) : ChromosomeProcessor :=
  {| inputFile := inputFile cp; prefix := prefix cp; chrFieldName := chrFieldName cp;
     chrNames := chrNames cp; chrSet := chrSet cp;
     outputWriters := ws; outputFiles := fs |}.

Definition set_outputWriters (cp : ChromosomeProcessor) (ws : gmap string Writer)
  : ChromosomeProcessor := set_outputs cp ws (outputFiles cp).

(** NewChromosomeProcessor. *)
Definition NewChromosomeProcessor (inputFile prefix chrFieldName : string)
    (chrNames : list string) : ChromosomeProcessor :=
  let chrSet := foldl (λ (m : gmap string bool) chr, <[chr := true]> m) ∅ chrNames in
  {| inputFile := inputFile; prefix := prefix; chrFieldName := chrFieldName;
     chrNames := chrNames; chrSet := chrSet;
     outputWriters := ∅; outputFiles := ∅ |}.

(** fmt.Sprintf("%s_%s.jsonl", prefix, chr). *)
Definition output_filename (prefix chr : string) : string :=
  prefix +:+ "_" +:+ chr +:+ ".jsonl".

(** The outcome of a function that returns a Go [error]: nil is [None].
    [Panic] is a nil *bufio.Writer dereferenced in ProcessFile. *)
Inductive outcome : Type :=
| Returned (err : option error)
| Panic.

#[global] Instance outcome_eq_dec : EqDecision outcome.
Proof. solve_decision. Defined.

Section Router.

(** gjson.GetBytes(json, path). *)
Variable GetBytes : list byte → string → Result.
Variable env : Env.

(** A range over a Go map visits every key once, in an order Go leaves
    open; the model visits the keys in the order of [elements (dom m)].
    Each pass of the two loops below touches its own writer and file. *)
Definition map_keys {V : Type} (m : gmap string V) : list string := elements (dom m).

Fixpoint FlushWriters (keys : list string) (os : OS) (ws : gmap string Writer)
  : OS * gmap string Writer :=
  match keys with
  | [] => (os, ws)
  | k :: keys' =>
      match ws !! k with
      | Some writer =>
          let '(os', writer', _) := Flush env os writer in
          FlushWriters keys' os' (<[k := writer']> ws)
      | None => FlushWriters keys' os ws
      end
  end.

(** FlushAllWriters. *)
Definition FlushAllWriters (os : OS) (cp : ChromosomeProcessor)
  : OS * ChromosomeProcessor :=
  let '(os', ws) := FlushWriters (map_keys (outputWriters cp)) os (outputWriters cp) in
  (os', set_outputWriters cp ws).

Fixpoint CloseFiles (keys : list string) (os : OS) (fs : gmap string nat) : OS :=
  match keys with
  | [] => os
  | k :: keys' =>
      match fs !! k with
      | Some file => CloseFiles keys' (File_Close os file).1 fs
      | None => CloseFiles keys' os fs
      end
  end.

(** CloseAllFiles. *)
Definition CloseAllFiles (os : OS) (cp : ChromosomeProcessor)
  : OS * ChromosomeProcessor :=
  let '(os', cp') := FlushAllWriters os cp in
  (CloseFiles (map_keys (outputFiles cp')) os' (outputFiles cp'), cp').

(** The loop of InitializeOutputFiles over allChrs. *)
Fixpoint InitializeOutputFiles_loop (allChrs : list string) (os : OS)
    (cp : ChromosomeProcessor) : OS * ChromosomeProcessor * option error :=
  match allChrs with
  | [] => (os, cp, None)
  | chr :: rest =>
      let filename := output_filename (prefix cp) chr in
      match os_Create env os filename with
      | (os', inr err) =>
          let '(os'', cp') := CloseAllFiles os' cp in
          (os'', cp', Some (FailedCreateOutput filename err))
      | (os', inl file) =>
          let writer := NewWriterSize file (4 * 1024 * 1024) in
          InitializeOutputFiles_loop rest os'
            (set_outputs cp (<[chr := writer]> (outputWriters cp))
                            (<[chr := file]> (outputFiles cp)))
      end
  end.

Definition InitializeOutputFiles (os : OS) (cp : ChromosomeProcessor)
  : OS * ChromosomeProcessor * option error :=
  let allChrs := chrNames cp ++ [UnknownChr] in
  InitializeOutputFiles_loop allChrs os cp.

(** GetOutputWriter: the writer of [chr], or else the writer of UnknownChr.
    The result is a pointer into the map; the model returns the key under
    which it is stored together with the writer, [None] for a nil pointer. *)
Definition GetOutputWriter (cp : ChromosomeProcessor) (chr : string)
  : option (string * Writer) :=
  match outputWriters cp !! chr with
  | Some writer => Some (chr, writer)
  | None =>
      match outputWriters cp !! UnknownChr with
      | Some writer => Some (UnknownChr, writer)
      | None => None
      end
  end.

(** ExtractChromosome. *)
Definition ExtractChromosome (cp : ChromosomeProcessor) (line : list byte)
  : string * bool :=
  let result := GetBytes line (chrFieldName cp) in
  if negb (Exists result) then ("", false)
  else (ResultString result, true).

(** The routing decision of ProcessFile (lines 115 to 120 of main.go):
    [cp.chrSet[chr]] is false for a key that is not in the map. *)
Definition routeKey (cp : ChromosomeProcessor) (chr : string) (found : bool) : string :=
  if found && default false (chrSet cp !! chr) then chr else UnknownChr.

Definition outputChr (cp : ChromosomeProcessor) (line : list byte) : string :=
  let '(chr, found) := ExtractChromosome cp line in routeKey cp chr found.

(** The body of the scan loop for one token, [lineNum] already counted. *)
Definition ProcessLine (os : OS) (cp : ChromosomeProcessor) (lineNum : Z)
    (line : list byte) : OS * ChromosomeProcessor * option outcome :=
  if bool_decide (len line = 0)%Z then (os, cp, None)
  else
    match GetOutputWriter cp (outputChr cp line) with
    | None => (os, cp, Some Panic)
    | Some (k, writer) =>
        let '(os1, writer1, err) := Write env os writer line in
        let cp1 := set_outputWriters cp (<[k := writer1]> (outputWriters cp)) in
        match err with
        | Some e => (os1, cp1, Some (Returned (Some (FailedWriteLine lineNum e))))
        | None =>
            let '(os2, writer2, err) := WriteByte env os1 writer1 newline in
            let cp2 := set_outputWriters cp (<[k := writer2]> (outputWriters cp)) in
            match err with
            | Some e => (os2, cp2, Some (Returned (Some (FailedWriteNewline lineNum e))))
            | None => (os2, cp2, None)
            end
        end
    end.

(** [for scanner.Scan() { lineNum++; ... }] over the tokens of the scanner;
    it stops at the first return (or panic) of the body. *)
Fixpoint ProcessLines (toks : list (list byte)) (os : OS) (cp : ChromosomeProcessor)
    (lineNum : Z) : OS * ChromosomeProcessor * Z * option outcome :=
  match toks with
  | [] => (os, cp, lineNum, None)
  | line :: toks' =>
      let lineNum := (lineNum + 1)%Z in
      match ProcessLine os cp lineNum line with
      | (os', cp', Some out) => (os', cp', lineNum, Some out)
      | (os', cp', None) => ProcessLines toks' os' cp' lineNum
      end
  end.

(** ProcessFile after the input file is open: the scan, and on success the
    flush before [return nil]. *)
Definition ProcessInput (os : OS) (cp : ChromosomeProcessor) (content : list byte)
  : OS * ChromosomeProcessor * outcome :=
  let scanner := Scanner_Buffer (NewScanner content) (64 * 1024) (10 * 1024 * 1024) in
  let '(toks, scan_err) := Scanner_run scanner in
  match ProcessLines toks os cp 0 with
  | (os1, cp1, _, Some out) => (os1, cp1, out)
  | (os1, cp1, lineNum, None) =>
      match scan_err with
      | Some e => (os1, cp1, Returned (Some (ErrorReadingInput lineNum e)))
      | None =>
          let '(os2, cp2) := FlushAllWriters os1 cp1 in
          (os2, cp2, Returned None)
      end
  end.

(** ProcessFile from [defer cp.CloseAllFiles()] on, that is once
    InitializeOutputFiles has returned nil.  The deferred calls run when the
    function returns or panics, last deferred first: file.Close(), then
    cp.CloseAllFiles(). *)
Definition ProcessFile_after_init (os : OS) (cp : ChromosomeProcessor)
  : OS * ChromosomeProcessor * outcome :=
  match os_Open os (inputFile cp) with
  | (os2, inr err) =>
      let '(os3, cp3) := CloseAllFiles os2 cp in
      (os3, cp3, Returned (Some (FailedOpenInput err)))
  | (os2, inl (file, content)) =>
      let '(os3, cp3, out) := ProcessInput os2 cp content in
      let os4 := (File_Close os3 file).1 in
      let '(os5, cp5) := CloseAllFiles os4 cp3 in
      (os5, cp5, out)
  end.

(** ProcessFile. *)
Definition ProcessFile (os : OS) (cp : ChromosomeProcessor)
  : OS * ChromosomeProcessor * outcome :=
  match InitializeOutputFiles os cp with
  | (os1, cp1, Some err) => (os1, cp1, Returned (Some err))
  | (os1, cp1, None) => ProcessFile_after_init os1 cp1
  end.

End Router.

(** ** The command line *)

(** getDefaultChromosomes: "chr%d" for i from 1 to 22, then the three names
    appended after the loop. *)
Definition getDefaultChromosomes : list string :=
  ((λ i : Z, "chr" +:+ pretty i) <$> seqZ 1 22) ++ ["chrX"; "chrY"; "chrM"].

(** strings.Split(s, sep) for a separator of one byte: the substrings
    between the separators.  A string without separator, the empty string
    too, gives one substring. *)
Fixpoint Split (s : string) (sep : Ascii.ascii) : list string :=
  match s with
  | EmptyString => [EmptyString]
  | String c rest =>
      if decide (c = sep) then EmptyString :: Split rest sep
      else match Split rest sep with
           | [] => [String c EmptyString]
           | part :: parts => String c part :: parts
           end
  end.

(** The values of the flags of main after pflag.Parse(): --input,
    --prefix, --chr-field-name, --chr-names and --help. *)
Record Flags : Type := {
  flag_input : string;
  flag_prefix : string;
  flag_chr_field_name : string;
  flag_chr_names : string;
  flag_help : bool;
}.

Section Cli.

(** strings.TrimSpace. *)
Variable TrimSpace : string → string.
Variable GetBytes : list byte → string → Result.
Variable env : Env.

(** The loop of parseChromosomeNames over the parts. *)
Fixpoint parseChromosomeNames_loop (parts : list string) (chrNames : list string)
  : list string :=
  match parts with
  | [] => chrNames
  | part :: parts' =>
      let name := TrimSpace part in
      if decide (name ≠ EmptyString)
      then parseChromosomeNames_loop parts' (chrNames ++ [name])
      else parseChromosomeNames_loop parts' chrNames
  end.

(** parseChromosomeNames. *)
Definition parseChromosomeNames (chrNamesStr : string) : list string :=
  if decide (chrNamesStr = EmptyString) then getDefaultChromosomes
  else parseChromosomeNames_loop (Split chrNamesStr ","%char) [].

(** main from the parsed flags on: the state of the files when the process
    ends and its exit status.  os.Exit(1) and log.Fatalf end the process with
    status 1, a return from main with status 0, a panic with status 2.
    os.Stat fails with a not-exist error when no file has the path. *)
Definition main (os : OS) (flags : Flags) : OS * Z :=
  if flag_help flags then (os, 0%Z)
  else if decide (flag_input flags = EmptyString) then (os, 1%Z)
  else
    match disk os !! flag_input flags with
    | None => (os, 1%Z)
    | Some _ =>
        let chrNames := parseChromosomeNames (flag_chr_names flags) in
        let processor :=
          NewChromosomeProcessor (flag_input flags) (flag_prefix flags)
            (flag_chr_field_name flags) chrNames in
        match ProcessFile GetBytes env os processor with
        | (os', _, Returned None) => (os', 0%Z)
        | (os', _, Returned (Some _)) => (os', 1%Z)
        | (os', _, Panic) => (os', 2%Z)
        end
    end.

End Cli.

(** * Properties *)

(** ** Lists, sizes and file contents *)

Ltac len_solve :=
  unfold len in *; simpl in *;
  rewrite ?length_app, ?length_take, ?length_drop in *; simpl in *; lia.

Lemma len_nil {A : Type} : len (@nil A) = 0%Z.
Proof. reflexivity. Qed.

Lemma len_app {A : Type} (l k : list A) : len (l ++ k) = (len l + len k)%Z.
Proof. unfold len. rewrite length_app. lia. Qed.

Lemma len_nonneg {A : Type} (l : list A) : (0 ≤ len l)%Z.
Proof. unfold len. lia. Qed.

Lemma len_zero_nil {A : Type} (l : list A) : len l = 0%Z ↔ l = [].
Proof.
  unfold len. split.
  - intros H. apply length_zero_iff_nil. lia.
  - intros ->. reflexivity.
Qed.

Lemma write_at_end (content p : list byte) :
  write_at content (length content) p = content ++ p.
Proof.
  unfold write_at.
  rewrite take_ge by lia. rewrite Nat.sub_diag. simpl.
  rewrite drop_ge by lia. by rewrite app_nil_r.
Qed.

(** The file name determines the category, for a fixed prefix. *)
Lemma string_app_inj_l (s t u : string) : s +:+ t = s +:+ u → t = u.
Proof. induction s as [|a s IH]; simpl; [done|]. intros [= H]. auto. Qed.

Lemma string_length_app (s t : string) :
  String.length (s +:+ t) = String.length s + String.length t.
Proof. induction s as [|a s IH]; simpl; [done|]. by rewrite IH. Qed.

Lemma string_app_inj_r (t u s : string) : t +:+ s = u +:+ s → t = u.
Proof.
  intros H.
  assert (Hlen : String.length t = String.length u).
  { apply (f_equal String.length) in H. rewrite !string_length_app in H. lia. }
  revert u H Hlen. induction t as [|a t IH]; intros [|b u] H Hlen; simpl in *; try done.
  injection H as -> H. f_equal. apply IH; [done|lia].
Qed.

Lemma output_filename_inj (pre c c' : string) :
  output_filename pre c = output_filename pre c' → c = c'.
Proof.
  unfold output_filename. intros H.
  apply string_app_inj_l in H. apply string_app_inj_l in H.
  by apply string_app_inj_r in H.
Qed.

(** ** The operating system and bufio.Writer when writes succeed *)

(** [os_frame os os' path h]: from [os] to [os'] only the file [path] and the
    handle [h] may have changed. *)
Definition os_frame (os os' : OS) (path : string) (h : nat) : Prop :=
  next_handle os' = next_handle os ∧
  (∀ q, q ≠ path → disk os' !! q = disk os !! q) ∧
  (∀ h', h' ≠ h → open_files os' !! h' = open_files os !! h').

Lemma os_frame_refl (os : OS) (path : string) (h : nat) : os_frame os os path h.
Proof. by repeat split. Qed.

Lemma os_frame_trans (os1 os2 os3 : OS) (path : string) (h : nat) :
  os_frame os1 os2 path h → os_frame os2 os3 path h → os_frame os1 os3 path h.
Proof.
  intros (Hn1 & Hd1 & Ho1) (Hn2 & Hd2 & Ho2). repeat split.
  - congruence.
  - intros q Hq. rewrite Hd2, Hd1; done.
  - intros h' Hh. rewrite Ho2, Ho1; done.
Qed.

(** [stream_ok os w path L]: the writer [w] is in working order over the
    file [path], open with its offset at the end of the file, and the file
    followed by the buffer is [L]. *)
Definition stream_ok (os : OS) (w : Writer) (path : string) (L : list byte) : Prop :=
  werr w = None ∧ (0 < size w)%Z ∧ (len (buf w) ≤ size w)%Z ∧
  ∃ content,
    disk os !! path = Some content ∧
    open_files os !! wr w = Some {| of_path := path; of_offset := length content |} ∧
    L = content ++ buf w.

Lemma stream_ok_intro (os : OS) (w : Writer) (path : string) (content L : list byte) :
  werr w = None → (0 < size w)%Z → (len (buf w) ≤ size w)%Z →
  disk os !! path = Some content →
  open_files os !! wr w = Some {| of_path := path; of_offset := length content |} →
  L = content ++ buf w →
  stream_ok os w path L.
Proof. intros. unfold stream_ok. split_and!; try done. by exists content. Qed.

Section WriterOk.

Variable env : Env.

Lemma File_Write_ok (os : OS) (h : nat) (path : string) (content p : list byte) :
  open_files os !! h = Some {| of_path := path; of_offset := length content |} →
  disk os !! path = Some content →
  can_write env path = true →
  ∃ os', File_Write env os h p = (os', None) ∧
    disk os' !! path = Some (content ++ p) ∧
    open_files os' !! h = Some {| of_path := path; of_offset := length (content ++ p) |} ∧
    os_frame os os' path h.
Proof.
  intros Hh Hd Hw. unfold File_Write. rewrite Hh. simpl. rewrite Hw, Hd. simpl.
  eexists. split; [reflexivity|]. simpl. rewrite write_at_end.
  split; [by rewrite lookup_insert_eq|].
  split; [by rewrite lookup_insert_eq, length_app|].
  repeat split; simpl; intros; by rewrite lookup_insert_ne.
Qed.

Lemma Flush_ok (os : OS) (w : Writer) (path : string) (L : list byte) :
  stream_ok os w path L → can_write env path = true →
  ∃ os' w', Flush env os w = (os', w', None) ∧
    stream_ok os' w' path L ∧ buf w' = [] ∧ wr w' = wr w ∧ size w' = size w ∧
    disk os' !! path = Some L ∧ os_frame os os' path (wr w).
Proof.
  intros (He & Hs & Hb & content & Hd & Ho & ->) Hw. unfold Flush. rewrite He.
  destruct (buf w) as [|c l] eqn:Hbuf.
  - exists os, w. rewrite app_nil_r.
    split_and!; try done.
    unfold stream_ok. split_and!; try done; [by rewrite Hbuf|].
    exists content. by rewrite Hbuf, app_nil_r.
  - destruct (File_Write_ok os (wr w) path content (c :: l) Ho Hd Hw)
      as (os' & -> & Hd' & Ho' & Hf).
    exists os', (set_buf w []). split_and!; try done.
    unfold stream_ok. split_and!; try done; [len_solve|].
    exists (content ++ c :: l). simpl. by rewrite app_nil_r.
Qed.

Lemma Write_ok (os : OS) (w : Writer) (path : string) (L p : list byte) :
  stream_ok os w path L → can_write env path = true →
  ∃ os' w', Write env os w p = (os', w', None) ∧
    stream_ok os' w' path (L ++ p) ∧ wr w' = wr w ∧ size w' = size w ∧
    os_frame os os' path (wr w).
Proof.
  intros Hok Hw. pose proof Hok as (He & Hs & Hb & content & Hd & Ho & ->).
  unfold Write, Write_more. rewrite He. rewrite (bool_decide_eq_true_2 (None = None)) by done.
  rewrite andb_true_r. case_bool_decide as Hbig; simpl.
  2:{ (* the bytes fit in the buffer *)
    unfold Write_rest. rewrite He. exists os, (set_buf w (buf w ++ p)).
    split_and!; try done.
    apply (stream_ok_intro _ _ _ content); simpl; try done.
    - unfold Available in Hbig. len_solve.
    - by rewrite app_assoc. }
  unfold Write_pass, Buffered. case_bool_decide as Hempty.
  - (* empty buffer: a direct write *)
    apply len_zero_nil in Hempty.
    destruct (File_Write_ok os (wr w) path content p Ho Hd Hw) as (os' & -> & Hd' & Ho' & Hf).
    rewrite He. rewrite (bool_decide_eq_false_2 (len [] > _)%Z).
    2:{ unfold Available. len_solve. }
    simpl. unfold Write_rest. rewrite He.
    exists os', (set_buf w (buf w ++ [])). split_and!; try done.
    apply (stream_ok_intro _ _ _ (content ++ p)); simpl; try done.
    + rewrite Hempty. len_solve.
    + rewrite Hempty. simpl. by rewrite !app_nil_r.
  - (* fill the buffer and flush, then the rest *)
    set (n := Z.to_nat (Available w)).
    set (w1 := set_buf w (buf w ++ take n p)).
    assert (Hok1 : stream_ok os w1 path (content ++ buf w ++ take n p)).
    { apply (stream_ok_intro _ _ _ content); simpl; try done.
      unfold n, Available in *. len_solve. }
    destruct (Flush_ok os w1 path _ Hok1 Hw)
      as (os' & w' & -> & Hok' & Hbuf' & Hwr' & Hsz' & Hd' & Hf).
    pose proof Hok' as (He' & _ & _ & content' & Hdc' & Ho' & HL').
    rewrite Hbuf', app_nil_r in HL'. subst content'. simpl in Hwr', Hsz'.
    rewrite He'. rewrite (bool_decide_eq_true_2 (None = None)) by done.
    rewrite andb_true_r. unfold Available. rewrite Hbuf', len_nil, Hsz'. simpl.
    case_bool_decide as Hbig2; simpl.
    + destruct (File_Write_ok os' (wr w') path _ (drop n p) Ho' Hdc' Hw)
        as (os'' & -> & Hd'' & Ho'' & Hf'').
      unfold Write_rest. rewrite He'. rewrite Hwr' in Hf''.
      exists os'', (set_buf w' (buf w' ++ [])). split_and!; try done.
      * eapply stream_ok_intro; simpl; try done; try lia.
        -- rewrite Hbuf'. len_solve.
        -- rewrite Hbuf'. simpl. rewrite !app_nil_r, <- !app_assoc.
           by rewrite take_drop.
      * eapply os_frame_trans; done.
    + unfold Write_rest. rewrite He'.
      exists os', (set_buf w' (buf w' ++ drop n p)). split_and!; try done.
      eapply stream_ok_intro; simpl; try done; try lia.
      * rewrite Hbuf'. simpl. lia.
      * rewrite Hbuf'. simpl. rewrite <- !app_assoc. by rewrite take_drop.
Qed.

Lemma WriteByte_ok (os : OS) (w : Writer) (path : string) (L : list byte) (c : byte) :
  stream_ok os w path L → can_write env path = true →
  ∃ os' w', WriteByte env os w c = (os', w', None) ∧
    stream_ok os' w' path (L ++ [c]) ∧ wr w' = wr w ∧ size w' = size w ∧
    os_frame os os' path (wr w).
Proof.
  intros Hok Hw. pose proof Hok as (He & Hs & Hb & content & Hd & Ho & ->).
  unfold WriteByte. rewrite He. case_bool_decide as Hfull.
  - destruct (Flush_ok os w path _ Hok Hw)
      as (os' & w' & -> & Hok' & Hbuf' & Hwr' & Hsz' & Hd' & Hf).
    pose proof Hok' as (He' & _ & _ & content' & Hdc' & Ho' & HL').
    exists os', (set_buf w' (buf w' ++ [c])). split_and!; try done.
    eapply stream_ok_intro; simpl; try done; try lia.
    + rewrite Hbuf'. len_solve.
    + rewrite HL'. by rewrite <- app_assoc.
  - exists os, (set_buf w (buf w ++ [c])). split_and!; try done.
    eapply stream_ok_intro; simpl; try done.
    + unfold Available in Hfull. len_solve.
    + by rewrite <- app_assoc.
Qed.

End WriterOk.

(** ** The router when creations and writes succeed *)

(** Handles from [next_handle] on are not in use. *)
Definition os_wf (os : OS) : Prop :=
  ∀ h, next_handle os ≤ h → open_files os !! h = None.

(** The fields of the processor that no method assigns. *)
Definition same_config (cp cp' : ChromosomeProcessor) : Prop :=
  inputFile cp' = inputFile cp ∧ prefix cp' = prefix cp ∧
  chrFieldName cp' = chrFieldName cp ∧ chrNames cp' = chrNames cp ∧
  chrSet cp' = chrSet cp.

(** [streams_ok os cp cats L]: the two maps of [cp] hold exactly the
    categories [cats]; the stream of category [c] is in working order over
    its file and has received the bytes [L c]. *)
Definition streams_ok (os : OS) (cp : ChromosomeProcessor) (cats : gset string)
    (L : string → list byte) : Prop :=
  (∀ c, c ∈ cats → ∃ w,
      outputWriters cp !! c = Some w ∧ outputFiles cp !! c = Some (wr w) ∧
      stream_ok os w (output_filename (prefix cp) c) (L c)) ∧
  (∀ c, c ∉ cats → outputWriters cp !! c = None ∧ outputFiles cp !! c = None).

Lemma stream_ok_frame (os os' : OS) (w : Writer) (path : string) (L : list byte) :
  stream_ok os w path L →
  disk os' !! path = disk os !! path →
  open_files os' !! wr w = open_files os !! wr w →
  stream_ok os' w path L.
Proof.
  intros (He & Hs & Hb & content & Hd & Ho & ->) Hd' Ho'.
  apply (stream_ok_intro _ _ _ content); congruence.
Qed.

Lemma same_config_refl (cp : ChromosomeProcessor) : same_config cp cp.
Proof. by repeat split. Qed.

Lemma same_config_trans (cp1 cp2 cp3 : ChromosomeProcessor) :
  same_config cp1 cp2 → same_config cp2 cp3 → same_config cp1 cp3.
Proof. unfold same_config. intros (?&?&?&?&?) (?&?&?&?&?). split_and!; congruence. Qed.

Lemma same_config_set_outputs (cp : ChromosomeProcessor) ws fs :
  same_config cp (set_outputs cp ws fs).
Proof. by repeat split. Qed.

(** Two streams of a [streams_ok] state have different handles. *)
Lemma streams_ok_handles (os : OS) (cp : ChromosomeProcessor) (cats : gset string)
    (L : string → list byte) (c c' : string) (w w' : Writer) :
  streams_ok os cp cats L → c ∈ cats → c' ∈ cats → c ≠ c' →
  outputWriters cp !! c = Some w → outputWriters cp !! c' = Some w' →
  wr w ≠ wr w'.
Proof.
  intros [Hin _] Hc Hc' Hne Hw Hw' Heq.
  destruct (Hin c Hc) as (w0 & Hw0 & _ & (_ & _ & _ & ? & _ & Ho & _)).
  destruct (Hin c' Hc') as (w0' & Hw0' & _ & (_ & _ & _ & ? & _ & Ho' & _)).
  rewrite Hw in Hw0. rewrite Hw' in Hw0'. simplify_eq.
  rewrite Heq in Ho. rewrite Ho in Ho'. simplify_eq.
  match goal with H : output_filename _ _ = output_filename _ _ |- _ =>
    apply output_filename_inj in H end. done.
Qed.

(** One stream changes by an operation that keeps the rest of the system
    ([os_frame]); the others stay in working order. *)
Lemma streams_ok_update (os os' : OS) (cp : ChromosomeProcessor) (cats : gset string)
    (L : string → list byte) (c : string) (w w' : Writer) (Lc : list byte) :
  streams_ok os cp cats L → c ∈ cats →
  outputWriters cp !! c = Some w → wr w' = wr w →
  stream_ok os' w' (output_filename (prefix cp) c) Lc →
  os_frame os os' (output_filename (prefix cp) c) (wr w) →
  streams_ok os' (set_outputWriters cp (<[c := w']> (outputWriters cp))) cats
    (λ k, if decide (k = c) then Lc else L k).
Proof.
  intros Hok Hc Hw Hwr Hok' (Hn & Hd & Ho). pose proof Hok as [Hin Hout]. split.
  - intros k Hk. simpl. destruct (decide (k = c)) as [->|Hne].
    + exists w'. rewrite lookup_insert_eq. split_and!; try done.
      destruct (Hin c Hc) as (w0 & Hw0 & Hf0 & _). rewrite Hwr. congruence.
    + destruct (Hin k Hk) as (wk & Hwk & Hfk & Hsk).
      exists wk. rewrite lookup_insert_ne by done. split_and!; try done.
      eapply stream_ok_frame; [done| |].
      * apply Hd. intros Heq. by apply output_filename_inj in Heq.
      * apply Ho. eapply (streams_ok_handles os cp cats L k c); done.
  - intros k Hk. simpl. rewrite lookup_insert_ne by (intros ->; done). by apply Hout.
Qed.

(** The bytes the run writes for category [c]: the non-empty tokens routed
    to [c], each followed by a newline, in the order of the tokens. *)
Section Routed.

Variable GetBytes : list byte → string → Result.

Definition routed_lines (cp : ChromosomeProcessor) (toks : list (list byte))
    (c : string) : list (list byte) :=
  filter (λ t, t ≠ [] ∧ outputChr GetBytes cp t = c) toks.

Definition routed_output (cp : ChromosomeProcessor) (toks : list (list byte))
    (c : string) : list byte :=
  concat (map (λ t, t ++ [newline]) (routed_lines cp toks c)).

Lemma routed_output_nil cp c : routed_output cp [] c = [].
Proof. reflexivity. Qed.

Lemma routed_output_cons cp t toks c :
  routed_output cp (t :: toks) c =
  (if decide (t ≠ [] ∧ outputChr GetBytes cp t = c) then t ++ [newline] else [])
    ++ routed_output cp toks c.
Proof.
  unfold routed_output, routed_lines. rewrite filter_cons.
  destruct (decide _); simpl; [|done]. by rewrite <- app_assoc.
Qed.

Lemma outputChr_same_config cp cp' t :
  same_config cp cp' → outputChr GetBytes cp' t = outputChr GetBytes cp t.
Proof.
  intros (_ & _ & Hf & _ & Hs). unfold outputChr, ExtractChromosome, routeKey.
  by rewrite Hf, Hs.
Qed.

End Routed.

(** [only_outputs pre cats os os']: from [os] to [os'] only output files of
    the categories [cats] and handles open on them may have changed. *)
Definition only_outputs (pre : string) (cats : gset string) (os os' : OS) : Prop :=
  next_handle os' = next_handle os ∧
  (∀ q, (∀ c, c ∈ cats → q ≠ output_filename pre c) → disk os' !! q = disk os !! q) ∧
  (∀ h, open_files os' !! h = open_files os !! h ∨
        ∃ c f, c ∈ cats ∧ open_files os !! h = Some f ∧
               of_path f = output_filename pre c).

Lemma only_outputs_refl pre cats os : only_outputs pre cats os os.
Proof. split_and!; try done. intros h. by left. Qed.

Lemma only_outputs_trans pre cats os1 os2 os3 :
  only_outputs pre cats os1 os2 → only_outputs pre cats os2 os3 →
  only_outputs pre cats os1 os3.
Proof.
  intros (Hn1 & Hd1 & Ho1) (Hn2 & Hd2 & Ho2). split_and!.
  - congruence.
  - intros q Hq. rewrite Hd2, Hd1; done.
  - intros h. destruct (Ho1 h) as [Heq1|Hch1]; [|by right].
    destruct (Ho2 h) as [Heq2|(c & f & Hc & Hf & Hp)].
    + left. congruence.
    + right. exists c, f. by rewrite <- Heq1.
Qed.

Lemma only_outputs_wf pre cats os os' :
  only_outputs pre cats os os' → os_wf os → os_wf os'.
Proof.
  intros (Hn & _ & Ho) Hwf h Hh. rewrite Hn in Hh.
  destruct (Ho h) as [->|(c & f & _ & Hf & _)]; [by apply Hwf|].
  rewrite (Hwf h Hh) in Hf. done.
Qed.

Lemma os_frame_only_outputs pre cats os os' c h f :
  os_frame os os' (output_filename pre c) h → c ∈ cats →
  open_files os !! h = Some f → of_path f = output_filename pre c →
  only_outputs pre cats os os'.
Proof.
  intros (Hn & Hd & Ho) Hc Hf Hp. split_and!; [done| |].
  - intros q Hq. apply Hd. by apply Hq.
  - intros h'. destruct (decide (h' = h)) as [->|Hne]; [right|left; by apply Ho].
    by exists c, f.
Qed.

Lemma streams_ok_ext os cp cats (L L' : string → list byte) :
  (∀ c, L c = L' c) → streams_ok os cp cats L → streams_ok os cp cats L'.
Proof.
  intros HL [Hin Hout]. split; [|done].
  intros c Hc. destruct (Hin c Hc) as (w & ? & ? & ?). exists w. by rewrite <- HL.
Qed.

Lemma streams_ok_cats os cp (cats cats' : gset string) (L : string → list byte) :
  (∀ c, c ∈ cats ↔ c ∈ cats') → streams_ok os cp cats L → streams_ok os cp cats' L.
Proof.
  intros Heq [Hin Hout]. split.
  - intros c Hc. apply Hin. by apply Heq.
  - intros c Hc. apply Hout. by rewrite Heq.
Qed.

Lemma chrSet_foldl (names : list string) (m : gmap string bool) (k : string) :
  foldl (λ (m : gmap string bool) chr, <[chr := true]> m) m names !! k =
  if decide (k ∈ names) then Some true else m !! k.
Proof.
  revert m. induction names as [|x names IH]; intros m; simpl.
  - done.
  - rewrite IH. destruct (decide (k ∈ names)) as [Hin|Hnin].
    + rewrite decide_True by (by right). done.
    + destruct (decide (k = x)) as [->|Hne].
      * rewrite lookup_insert_eq. rewrite decide_True by (by left). done.
      * rewrite lookup_insert_ne by done.
        rewrite decide_False; [done|]. by intros [?|?]%elem_of_cons.
Qed.

(** The membership set holds exactly the declared names. *)
Lemma NewChromosomeProcessor_chrSet inp pre field (names : list string) (k : string) :
  default false (chrSet (NewChromosomeProcessor inp pre field names) !! k) = true
  ↔ k ∈ names.
Proof.
  simpl. rewrite chrSet_foldl. destruct (decide (k ∈ names)); simpl; [done|].
  rewrite lookup_empty. simpl. split; [done|]. intros; done.
Qed.

Section RouterOk.

Variable GetBytes : list byte → string → Result.
Variable env : Env.

(** The routing decision names a declared category or the sentinel. *)
Lemma routeKey_cases (cp : ChromosomeProcessor) (chr : string) (found : bool) :
  (routeKey cp chr found = chr ∧ found = true ∧ chrSet cp !! chr = Some true) ∨
  routeKey cp chr found = UnknownChr.
Proof.
  unfold routeKey. destruct found; simpl; [|by right].
  destruct (chrSet cp !! chr) as [[|]|] eqn:Hs; simpl; [left|right|right]; done.
Qed.

Lemma outputChr_cases (cp : ChromosomeProcessor) (line : list byte) :
  chrSet cp !! outputChr GetBytes cp line = Some true ∨
  outputChr GetBytes cp line = UnknownChr.
Proof.
  unfold outputChr. destruct (ExtractChromosome GetBytes cp line) as [chr found].
  destruct (routeKey_cases cp chr found) as [(-> & _ & ?)|?]; [by left|by right].
Qed.

Lemma GetOutputWriter_ok os cp cats L (c : string) :
  streams_ok os cp cats L → c ∈ cats →
  ∃ w, GetOutputWriter cp c = Some (c, w) ∧ outputWriters cp !! c = Some w ∧
       stream_ok os w (output_filename (prefix cp) c) (L c).
Proof.
  intros [Hin _] Hc. destruct (Hin c Hc) as (w & Hw & _ & Hok).
  exists w. unfold GetOutputWriter. by rewrite Hw.
Qed.

(** No write to the output file of a category of [cats] fails. *)
Definition writable (pre : string) (cats : gset string) : Prop :=
  ∀ c, c ∈ cats → can_write env (output_filename pre c) = true.

Lemma ProcessLine_ok cats os cp L (lineNum : Z) (line : list byte) :
  writable (prefix cp) cats →
  streams_ok os cp cats L → UnknownChr ∈ cats →
  (∀ k, chrSet cp !! k = Some true → k ∈ cats) →
  ∃ os' cp', ProcessLine GetBytes env os cp lineNum line = (os', cp', None) ∧
    streams_ok os' cp' cats (λ c, L c ++ routed_output GetBytes cp [line] c) ∧
    same_config cp cp' ∧ only_outputs (prefix cp) cats os os'.
Proof.
  intros can_write_cats Hok HU Hset. unfold ProcessLine. case_bool_decide as Hblank.
  - apply len_zero_nil in Hblank. subst line. exists os, cp. split_and!; try done.
    + eapply streams_ok_ext; [|done]. intros c. rewrite routed_output_cons.
      rewrite decide_False by (by intros [? _]). by rewrite app_nil_r.
    + apply only_outputs_refl.
  - assert (Hne : line ≠ []) by (by intros ->).
    set (c := outputChr GetBytes cp line).
    assert (Hc : c ∈ cats).
    { destruct (outputChr_cases cp line) as [H|H]; [by apply Hset|]. unfold c. by rewrite H. }
    destruct (GetOutputWriter_ok os cp cats L c Hok Hc) as (w & -> & Hw & Hsok).
    pose proof Hsok as (_ & _ & _ & content & _ & Hopen & _).
    destruct (Write_ok env os w _ _ line Hsok (can_write_cats c Hc))
      as (os1 & w1 & -> & Hsok1 & Hwr1 & Hsz1 & Hf1).
    destruct (WriteByte_ok env os1 w1 _ _ newline Hsok1 (can_write_cats c Hc))
      as (os2 & w2 & -> & Hsok2 & Hwr2 & Hsz2 & Hf2).
    rewrite Hwr1 in Hf2.
    eexists _, _. split; [reflexivity|]. split_and!.
    + eapply streams_ok_ext; [|eapply (streams_ok_update os os2 cp cats L c w w2)]; try done.
      * intros k. simpl. rewrite routed_output_cons, routed_output_nil, app_nil_r.
        fold c. destruct (decide (k = c)) as [->|Hk].
        -- rewrite decide_True by done. by rewrite app_assoc.
        -- rewrite decide_False by (intros [_ ?]; done). by rewrite app_nil_r.
      * congruence.
      * eapply os_frame_trans; done.
    + apply same_config_set_outputs.
    + eapply (os_frame_only_outputs _ _ _ _ c (wr w)); try done.
      eapply os_frame_trans; done.
Qed.

Lemma ProcessLines_ok cats (toks : list (list byte)) os cp L (lineNum : Z) :
  writable (prefix cp) cats →
  streams_ok os cp cats L → UnknownChr ∈ cats →
  (∀ k, chrSet cp !! k = Some true → k ∈ cats) →
  ∃ os' cp',
    ProcessLines GetBytes env toks os cp lineNum = (os', cp', (lineNum + len toks)%Z, None) ∧
    streams_ok os' cp' cats (λ c, L c ++ routed_output GetBytes cp toks c) ∧
    same_config cp cp' ∧ only_outputs (prefix cp) cats os os'.
Proof.
  revert os cp L lineNum.
  induction toks as [|t toks IH]; intros os cp L lineNum Hcw Hok HU Hset.
  - exists os, cp. simpl. split_and!; try done.
    + f_equal. f_equal. len_solve.
    + eapply streams_ok_ext; [|done]. intros c. by rewrite routed_output_nil, app_nil_r.
    + apply only_outputs_refl.
  - simpl.
    destruct (ProcessLine_ok cats os cp L (lineNum + 1) t Hcw Hok HU Hset)
      as (os1 & cp1 & -> & Hok1 & Hcfg1 & Hoo1).
    pose proof Hcfg1 as (_ & Hpre & _ & _ & Hcs).
    destruct (IH os1 cp1 _ (lineNum + 1)%Z ltac:(by rewrite Hpre) Hok1 HU)
      as (os2 & cp2 & -> & Hok2 & Hcfg2 & Hoo2).
    { intros k. rewrite Hcs. apply Hset. }
    exists os2, cp2. split_and!.
    + f_equal. f_equal. len_solve.
    + eapply streams_ok_ext; [|done]. intros c. simpl.
      rewrite (routed_output_cons _ cp t toks c), routed_output_cons, routed_output_nil.
      rewrite app_nil_r, <- app_assoc. f_equal. f_equal.
      unfold routed_output, routed_lines. f_equal. f_equal.
      apply list_filter_iff. intros x. by rewrite (outputChr_same_config _ cp cp1).
    + eapply same_config_trans; done.
    + rewrite Hpre in Hoo2. eapply only_outputs_trans; done.
Qed.

(** A writer whose buffer is empty. *)
Definition flushed (ws : gmap string Writer) (k : string) : Prop :=
  ∃ w, ws !! k = Some w ∧ buf w = [].

Lemma FlushWriters_ok cats (keys : list string) os cp L :
  writable (prefix cp) cats →
  streams_ok os cp cats L → (∀ k, k ∈ keys → k ∈ cats) →
  ∃ os' ws', FlushWriters env keys os (outputWriters cp) = (os', ws') ∧
    streams_ok os' (set_outputWriters cp ws') cats L ∧
    only_outputs (prefix cp) cats os os' ∧
    (∀ k, k ∈ keys → flushed ws' k) ∧
    (∀ k, flushed (outputWriters cp) k → flushed ws' k).
Proof.
  revert os cp. induction keys as [|k keys IH]; intros os cp Hcw Hok Hkeys.
  - exists os, (outputWriters cp). simpl.
    split_and!; try done; try apply only_outputs_refl; try (by destruct cp).
    intros k Hk. by apply elem_of_nil in Hk.
  - simpl. assert (Hk : k ∈ cats) by (apply Hkeys; by left).
    destruct (GetOutputWriter_ok os cp cats L k Hok Hk) as (w & _ & Hw & Hsok).
    rewrite Hw. pose proof Hsok as (_ & _ & _ & content & _ & Hopen & _).
    destruct (Flush_ok env os w _ _ Hsok (Hcw k Hk))
      as (os1 & w1 & -> & Hsok1 & Hbuf1 & Hwr1 & Hsz1 & Hd1 & Hf1).
    set (cp1 := set_outputWriters cp (<[k := w1]> (outputWriters cp))).
    assert (Hok1 : streams_ok os1 cp1 cats L).
    { eapply streams_ok_ext;
        [|eapply (streams_ok_update os os1 cp cats L k w w1 (L k))]; try done.
      intros c. simpl. by destruct (decide (c = k)) as [->|]. }
    destruct (IH os1 cp1 Hcw Hok1) as (os2 & ws2 & Heq & Hok2 & Hoo2 & Hfl2 & Hpres2).
    { intros k' Hk'. apply Hkeys. by right. }
    simpl in Heq. rewrite Heq. exists os2, ws2. split_and!; try done.
    + eapply only_outputs_trans; [|exact Hoo2].
      eapply (os_frame_only_outputs _ _ _ _ k (wr w)); done.
    + intros k' [->|Hk']%elem_of_cons; [|by apply Hfl2].
      apply Hpres2. exists w1. simpl. by rewrite lookup_insert_eq.
    + intros k' (w' & Hw' & Hb'). apply Hpres2. simpl.
      destruct (decide (k' = k)) as [->|Hne].
      * exists w1. by rewrite lookup_insert_eq.
      * exists w'. by rewrite lookup_insert_ne.
Qed.

Lemma streams_ok_dom os cp cats L (k : string) :
  streams_ok os cp cats L → k ∈ map_keys (outputWriters cp) ↔ k ∈ cats.
Proof.
  intros [Hin Hout]. unfold map_keys. rewrite elem_of_elements, elem_of_dom. split.
  - intros [w Hw]. destruct (decide (k ∈ cats)) as [|Hn]; [done|].
    destruct (Hout k Hn) as [Hnone _]. congruence.
  - intros Hk. destruct (Hin k Hk) as (w & Hw & _). by exists w.
Qed.

Lemma FlushAllWriters_ok cats os cp L :
  writable (prefix cp) cats → streams_ok os cp cats L →
  ∃ os' cp', FlushAllWriters env os cp = (os', cp') ∧
    streams_ok os' cp' cats L ∧ same_config cp cp' ∧
    only_outputs (prefix cp) cats os os' ∧
    (∀ c, c ∈ cats → flushed (outputWriters cp') c) ∧
    (∀ c, c ∈ cats → disk os' !! output_filename (prefix cp) c = Some (L c)).
Proof.
  intros Hcw Hok. unfold FlushAllWriters.
  destruct (FlushWriters_ok cats (map_keys (outputWriters cp)) os cp L Hcw Hok)
    as (os' & ws' & -> & Hok' & Hoo & Hfl & _).
  { intros k. by rewrite (streams_ok_dom os cp cats L). }
  exists os', (set_outputWriters cp ws').
  assert (Hfl' : ∀ c, c ∈ cats → flushed ws' c).
  { intros c Hc. apply Hfl. by rewrite (streams_ok_dom os cp cats L). }
  split_and!; try done.
  intros c Hc. destruct (Hfl' c Hc) as (w & Hw & Hb).
  destruct Hok' as [Hin _]. destruct (Hin c Hc) as (w' & Hw' & _ & Hsok).
  simpl in Hw'. rewrite Hw in Hw'. injection Hw' as <-.
  destruct Hsok as (_ & _ & _ & content & Hd & _ & HL). simpl in Hd.
  rewrite Hb, app_nil_r in HL. by rewrite HL.
Qed.

End RouterOk.

(** File.Close and the loop of CloseAllFiles leave the disk alone. *)
Lemma File_Close_spec (os : OS) (h : nat) :
  disk (File_Close os h).1 = disk os ∧
  next_handle (File_Close os h).1 = next_handle os ∧
  open_files (File_Close os h).1 = delete h (open_files os).
Proof.
  unfold File_Close. destruct (open_files os !! h) eqn:Hh; simpl; [done|].
  split_and!; try done. by rewrite delete_id.
Qed.

Lemma CloseFiles_spec (keys : list string) (os : OS) (fs : gmap string nat) :
  disk (CloseFiles keys os fs) = disk os ∧
  next_handle (CloseFiles keys os fs) = next_handle os ∧
  (∀ h, open_files os !! h = None → open_files (CloseFiles keys os fs) !! h = None) ∧
  (∀ k h, k ∈ keys → fs !! k = Some h → open_files (CloseFiles keys os fs) !! h = None) ∧
  (∀ h, (∀ k, k ∈ keys → fs !! k ≠ Some h) →
        open_files (CloseFiles keys os fs) !! h = open_files os !! h).
Proof.
  revert os. induction keys as [|k keys IH]; intros os; simpl.
  - split_and!; try done. intros k h Hk. by apply elem_of_nil in Hk.
  - destruct (fs !! k) as [file|] eqn:Hk.
    + destruct (File_Close_spec os file) as (Hd & Hn & Ho).
      destruct (IH (File_Close os file).1) as (Hd' & Hn' & Hnone & Hcl & Hoth).
      split_and!.
      * congruence.
      * congruence.
      * intros h Hh. apply Hnone. rewrite Ho.
        destruct (decide (h = file)) as [->|]; [by rewrite lookup_delete_eq|].
        by rewrite lookup_delete_ne.
      * intros k' h [->|Hk']%elem_of_cons Hh; [|by eapply Hcl].
        rewrite Hk in Hh. injection Hh as ->.
        apply Hnone. rewrite Ho. by rewrite lookup_delete_eq.
      * intros h Hh. rewrite Hoth.
        -- rewrite Ho. rewrite lookup_delete_ne; [done|].
           intros ->. eapply (Hh k); [by left|done].
        -- intros k' Hk'. apply Hh. by right.
    + destruct (IH os) as (Hd' & Hn' & Hnone & Hcl & Hoth).
      split_and!; try done.
      * intros k' h [->|Hk']%elem_of_cons Hh; [congruence|by eapply Hcl].
      * intros h Hh. apply Hoth. intros k' Hk'. apply Hh. by right.
Qed.

Lemma only_outputs_closed pre cats os os' (h : nat) :
  only_outputs pre cats os os' → open_files os !! h = None →
  open_files os' !! h = None.
Proof.
  intros (_ & _ & Ho) Hh. destruct (Ho h) as [->|(c & f & _ & Hf & _)]; [done|congruence].
Qed.

Section RouterRun.

Variable GetBytes : list byte → string → Result.
Variable env : Env.

Lemma CloseAllFiles_ok cats os cp L :
  writable env (prefix cp) cats → streams_ok os cp cats L →
  ∃ os' cp', CloseAllFiles env os cp = (os', cp') ∧ same_config cp cp' ∧
    (∀ c, c ∈ cats → disk os' !! output_filename (prefix cp) c = Some (L c)) ∧
    (∀ q, (∀ c, c ∈ cats → q ≠ output_filename (prefix cp) c) →
          disk os' !! q = disk os !! q) ∧
    next_handle os' = next_handle os ∧
    (∀ h, open_files os !! h = None → open_files os' !! h = None) ∧
    (∀ c h, outputFiles cp' !! c = Some h → open_files os' !! h = None) ∧
    (∀ c, c ∈ cats → flushed (outputWriters cp') c) ∧
    (∀ c, c ∉ cats → outputWriters cp' !! c = None).
Proof.
  intros Hcw Hok. unfold CloseAllFiles.
  destruct (FlushAllWriters_ok env cats os cp L Hcw Hok)
    as (os1 & cp1 & -> & Hok1 & Hcfg & Hoo & Hfl & Hd).
  destruct (CloseFiles_spec (map_keys (outputFiles cp1)) os1 (outputFiles cp1))
    as (Hd2 & Hn2 & Hnone & Hcl & _).
  eexists _, _. split; [reflexivity|]. split_and!; try done.
  - intros c Hc. rewrite Hd2. by apply Hd.
  - intros q Hq. rewrite Hd2. by apply Hoo.
  - rewrite Hn2. apply Hoo.
  - intros h Hh. apply Hnone. by eapply only_outputs_closed.
  - intros c h Hc. eapply Hcl; [|done].
    unfold map_keys. rewrite elem_of_elements, elem_of_dom. by exists h.
  - intros c Hc. destruct Hok1 as [_ Hout]. by apply Hout.
Qed.

(** InitializeOutputFiles when every file can be created. *)
Lemma InitializeOutputFiles_loop_ok (names : list string) os cp (cats : gset string) :
  os_wf os → streams_ok os cp cats (λ _, []) →
  (∀ c, c ∈ names → can_create env (output_filename (prefix cp) c) = true) →
  ∃ os' cp', InitializeOutputFiles_loop env names os cp = (os', cp', None) ∧
    os_wf os' ∧ streams_ok os' cp' (cats ∪ list_to_set names) (λ _, []) ∧
    same_config cp cp' ∧
    (∀ q, (∀ c, c ∈ names → q ≠ output_filename (prefix cp) c) →
          disk os' !! q = disk os !! q).
Proof.
  revert os cp cats. induction names as [|chr names IH]; intros os cp cats Hwf Hok Hcc.
  - exists os, cp. simpl. split_and!; try done; try apply same_config_refl.
    eapply streams_ok_cats; [|exact Hok]. set_solver.
  - simpl. unfold os_Create. rewrite (Hcc chr) by (by left).
    set (h := next_handle os). set (path := output_filename (prefix cp) chr).
    set (os1 := {| disk := <[path := []]> (disk os);
                   open_files := <[h := {| of_path := path; of_offset := 0 |}]> (open_files os);
                   next_handle := S h |}).
    set (w := NewWriterSize h (4 * 1024 * 1024)).
    set (cp1 := set_outputs cp (<[chr := w]> (outputWriters cp)) (<[chr := h]> (outputFiles cp))).
    assert (Hwf1 : os_wf os1).
    { intros h' Hh'. simpl in *. rewrite lookup_insert_ne by (unfold h; lia).
      apply Hwf. unfold h in Hh'. lia. }
    assert (Hok1 : streams_ok os1 cp1 (cats ∪ {[chr]}) (λ _, [])).
    { destruct Hok as [Hin Hout]. split.
      - intros c Hc. simpl. destruct (decide (c = chr)) as [->|Hne].
        + exists w. rewrite !lookup_insert_eq. split_and!; try done.
          apply (stream_ok_intro _ _ _ []); simpl; try done.
          * by rewrite lookup_insert_eq.
          * by rewrite lookup_insert_eq.
        + assert (Hc' : c ∈ cats) by set_solver.
          destruct (Hin c Hc') as (wc & Hwc & Hfc & Hsc).
          exists wc. rewrite !lookup_insert_ne by done. split_and!; try done.
          eapply stream_ok_frame; [done| |]; simpl.
          * rewrite lookup_insert_ne; [done|].
            intros Heq. by apply output_filename_inj in Heq.
          * rewrite lookup_insert_ne; [done|]. intros Heq.
            destruct Hsc as (_ & _ & _ & ? & _ & Ho & _).
            rewrite <- Heq, (Hwf h) in Ho by (unfold h; lia). done.
      - intros c Hc. simpl. rewrite !lookup_insert_ne by set_solver.
        apply Hout. set_solver. }
    destruct (IH os1 cp1 _ Hwf1 Hok1) as (os2 & cp2 & -> & Hwf2 & Hok2 & Hcfg2 & Hd2).
    { intros c Hc. simpl. apply Hcc. by right. }
    exists os2, cp2. split_and!; try done.
    + eapply streams_ok_cats; [|exact Hok2]. set_solver.
    + intros q Hq. rewrite Hd2.
      * simpl. rewrite lookup_insert_ne; [done|]. intros <-. eapply (Hq chr); [by left|done].
      * intros c Hc. simpl. apply Hq. by right.
Qed.

(** The scanner ProcessFile sets up. *)
Definition input_scanner (content : list byte) : Scanner :=
  Scanner_Buffer (NewScanner content) (64 * 1024) (10 * 1024 * 1024).

Lemma ProcessInput_ok cats os cp (content : list byte) :
  writable env (prefix cp) cats →
  streams_ok os cp cats (λ _, []) → UnknownChr ∈ cats →
  (∀ k, chrSet cp !! k = Some true → k ∈ cats) →
  ∃ os' cp',
    ProcessInput GetBytes env os cp content =
      (os', cp', Returned (match (Scanner_run (input_scanner content)).2 with
                           | Some e =>
                               Some (ErrorReadingInput
                                       (len (Scanner_run (input_scanner content)).1) e)
                           | None => None
                           end)) ∧
    streams_ok os' cp' cats
      (routed_output GetBytes cp (Scanner_run (input_scanner content)).1) ∧
    same_config cp cp' ∧ only_outputs (prefix cp) cats os os'.
Proof.
  intros Hcw Hok HU Hset. unfold ProcessInput. fold (input_scanner content).
  destruct (Scanner_run (input_scanner content)) as [toks scan_err]. simpl.
  destruct (ProcessLines_ok GetBytes env cats toks os cp _ 0 Hcw Hok HU Hset)
    as (os1 & cp1 & -> & Hok1 & Hcfg1 & Hoo1).
  simpl in Hok1. destruct scan_err as [e|].
  - exists os1, cp1. split_and!; done.
  - pose proof Hcfg1 as (_ & Hpre & _).
    destruct (FlushAllWriters_ok env cats os1 cp1 _ ltac:(by rewrite Hpre) Hok1)
      as (os2 & cp2 & -> & Hok2 & Hcfg2 & Hoo2 & _).
    exists os2, cp2. split_and!; try done.
    + eapply same_config_trans; done.
    + rewrite Hpre in Hoo2. eapply only_outputs_trans; done.
Qed.

Lemma routed_output_same_config cp cp' toks c :
  same_config cp cp' →
  routed_output GetBytes cp' toks c = routed_output GetBytes cp toks c.
Proof.
  intros Hcfg. unfold routed_output, routed_lines. f_equal. f_equal.
  apply list_filter_iff. intros x. by rewrite (outputChr_same_config _ cp cp').
Qed.

(** What the scanner of ProcessFile delivers for a file [content]. *)
Definition input_tokens (content : list byte) : list (list byte) :=
  (Scanner_run (input_scanner content)).1.

Definition input_error (content : list byte) : option io_error :=
  (Scanner_run (input_scanner content)).2.

(** What ProcessFile returns when only the scanner can fail. *)
Definition scan_outcome (content : list byte) : outcome :=
  Returned (match input_error content with
            | Some e => Some (ErrorReadingInput (len (input_tokens content)) e)
            | None => None
            end).

(** The run of ProcessFile on a fresh processor when every output file can
    be created and written and the input is not one of the output files. *)
Lemma ProcessFile_ok os (inp pre field : string) (names : list string)
    (content : list byte) :
  let cp := NewChromosomeProcessor inp pre field names in
  let allChrs := names ++ [UnknownChr] in
  os_wf os →
  (∀ c, c ∈ allChrs → can_create env (output_filename pre c) = true) →
  (∀ c, c ∈ allChrs → can_write env (output_filename pre c) = true) →
  disk os !! inp = Some content →
  (∀ c, c ∈ allChrs → inp ≠ output_filename pre c) →
  ∃ os' cp',
    ProcessFile GetBytes env os cp = (os', cp', scan_outcome content) ∧
    same_config cp cp' ∧
    (∀ c, c ∈ allChrs →
          disk os' !! output_filename pre c
          = Some (routed_output GetBytes cp (input_tokens content) c)) ∧
    (∀ q, (∀ c, c ∈ allChrs → q ≠ output_filename pre c) →
          disk os' !! q = disk os !! q) ∧
    (∀ c h, outputFiles cp' !! c = Some h → open_files os' !! h = None) ∧
    (∀ c, c ∈ allChrs → flushed (outputWriters cp') c) ∧
    (∀ c, c ∉ allChrs → outputWriters cp' !! c = None).
Proof.
  intros cp allChrs Hwf Hcc Hcw Hinp Hne.
  set (cats := list_to_set allChrs : gset string).
  assert (Hcats : ∀ c, c ∈ cats ↔ c ∈ allChrs) by (intros c; apply elem_of_list_to_set).
  unfold ProcessFile, ProcessFile_after_init, InitializeOutputFiles.
  change (chrNames cp ++ [UnknownChr]) with allChrs.
  assert (Hok0 : streams_ok os cp ∅ (λ _, [])).
  { split; [intros c Hc; by apply elem_of_empty in Hc|]. intros c _. split; apply lookup_empty. }
  destruct (InitializeOutputFiles_loop_ok allChrs os cp ∅ Hwf Hok0 Hcc)
    as (os1 & cp1 & -> & Hwf1 & Hok1 & Hcfg1 & Hd1).
  apply (streams_ok_cats _ _ _ cats) in Hok1; [|set_solver].
  pose proof Hcfg1 as (Hinp1 & Hpre1 & _ & _ & Hcs1). simpl in Hinp1, Hpre1.
  unfold os_Open. rewrite Hinp1, (Hd1 inp) by done. rewrite Hinp.
  set (hin := next_handle os1).
  set (os2 := {| disk := disk os1;
                 open_files := <[hin := {| of_path := inp; of_offset := 0 |}]> (open_files os1);
                 next_handle := S hin |}).
  assert (Hok2 : streams_ok os2 cp1 cats (λ _, [])).
  { destruct Hok1 as [Hin Hout]. split; [|done]. intros c Hc.
    destruct (Hin c Hc) as (w & Hw & Hf & Hs). exists w. split_and!; try done.
    eapply stream_ok_frame; [done|done|]. simpl.
    rewrite lookup_insert_ne; [done|]. intros Heq.
    destruct Hs as (_ & _ & _ & ? & _ & Ho & _).
    rewrite <- Heq, (Hwf1 hin) in Ho by (unfold hin; lia). done. }
  assert (Hcw1 : writable env (prefix cp1) cats).
  { intros c Hc. rewrite Hpre1. apply Hcw. by apply Hcats. }
  destruct (ProcessInput_ok cats os2 cp1 content Hcw1 Hok2)
    as (os3 & cp3 & -> & Hok3 & Hcfg3 & Hoo3).
  { apply Hcats. unfold allChrs. apply elem_of_app. right. by left. }
  { intros k. rewrite Hcs1. simpl. rewrite chrSet_foldl, lookup_empty.
    destruct (decide (k ∈ names)); [|done]. intros _. apply Hcats.
    unfold allChrs. apply elem_of_app. by left. }
  pose proof Hcfg3 as (_ & Hpre3 & _).
  destruct (File_Close_spec os3 hin) as (Hd4 & Hn4 & Ho4).
  set (os4 := (File_Close os3 hin).1) in *.
  assert (Hhin3 : open_files os3 !! hin = Some {| of_path := inp; of_offset := 0 |}).
  { destruct Hoo3 as (_ & _ & Ho3). destruct (Ho3 hin) as [->|(c & f & Hc & Hf & Hp)].
    - simpl. by rewrite lookup_insert_eq.
    - simpl in Hf. rewrite lookup_insert_eq in Hf. injection Hf as <-. simpl in Hp.
      exfalso. eapply (Hne c); [by apply Hcats|]. by rewrite Hp, Hpre1. }
  assert (Hok4 : streams_ok os4 cp3 cats (routed_output GetBytes cp1 (input_tokens content))).
  { destruct Hok3 as [Hin Hout]. split; [|done]. intros c Hc.
    destruct (Hin c Hc) as (w & Hw & Hf & Hs). exists w. split_and!; try done.
    eapply stream_ok_frame; [done|by rewrite Hd4|]. rewrite Ho4.
    rewrite lookup_delete_ne; [done|]. intros Heq.
    destruct Hs as (_ & _ & _ & ? & _ & Ho & _).
    rewrite <- Heq, Hhin3 in Ho. injection Ho as Hp _.
    eapply (Hne c); [by apply Hcats|]. by rewrite Hp, Hpre3, Hpre1. }
  destruct (CloseAllFiles_ok cats os4 cp3 _ ltac:(by rewrite Hpre3) Hok4)
    as (os5 & cp5 & -> & Hcfg5 & Hd5 & Hfr5 & Hn5 & Hnone5 & Hcl5 & Hfl5 & Hout5).
  exists os5, cp5. split; [reflexivity|]. split_and!.
  - eapply same_config_trans; [|exact Hcfg5]. eapply same_config_trans; done.
  - intros c Hc. rewrite <- (routed_output_same_config cp cp1) by done.
    rewrite <- Hpre1, <- Hpre3. apply Hd5. by apply Hcats.
  - intros q Hq. rewrite Hfr5.
    + rewrite Hd4. destruct Hoo3 as (_ & Hd3 & _). rewrite Hd3.
      * simpl. apply Hd1. done.
      * intros c Hc. rewrite Hpre1. apply Hq. by apply Hcats.
    + intros c Hc. rewrite Hpre3, Hpre1. apply Hq. by apply Hcats.
  - done.
  - intros c Hc. apply Hfl5. by apply Hcats.
  - intros c Hc. apply Hout5. by rewrite Hcats.
Qed.

End RouterRun.

(** ** The scanner *)

Lemma lines_nil_inv (data : list byte) : lines data = [] → data = [].
Proof.
  destruct data as [|b rest]; [done|]. simpl.
  destruct (decide (b = newline)); [done|]. by destruct (lines rest).
Qed.

(** A line before a newline: the first line is [l], the rest follows. *)
Lemma lines_app_newline (l rest : list byte) :
  newline ∉ l → lines (l ++ newline :: rest) = l :: lines rest.
Proof.
  induction l as [|b l IH]; intros Hl; simpl.
  - done.
  - rewrite decide_False by (intros ->; apply Hl; by left).
    rewrite IH; [done|]. intros H. apply Hl. by right.
Qed.

Lemma lines_no_newline (l : list byte) :
  newline ∉ l → l ≠ [] → lines l = [l].
Proof.
  induction l as [|b l IH]; intros Hl Hne; [done|]. simpl.
  rewrite decide_False by (intros ->; apply Hl; by left).
  destruct l as [|b' l]; [done|].
  rewrite IH; [done| |done]. intros H. apply Hl. by right.
Qed.

(** No line holds a newline. *)
Lemma lines_no_newline_in (data l : list byte) :
  l ∈ lines data → newline ∉ l.
Proof.
  revert l. induction data as [|b rest IH]; intros l; simpl.
  - by intros ?%elem_of_nil.
  - destruct (decide (b = newline)) as [->|Hb].
    + intros [->|H]%elem_of_cons; [by intros ?%elem_of_nil|by apply IH].
    + destruct (lines rest) as [|l0 ls] eqn:Hls.
      * intros ->%list_elem_of_singleton. intros [?|?%elem_of_nil]%elem_of_cons; done.
      * intros [->|H]%elem_of_cons.
        -- intros [?|?]%elem_of_cons; [done|]. eapply (IH l0); [by left|done].
        -- apply IH. by right.
Qed.

(** Lines split at a line boundary: after [pre], which is empty or ends in
    a newline, a new line starts. *)
Lemma lines_app_boundary (pre post : list byte) :
  pre = [] ∨ last pre = Some newline →
  lines (pre ++ post) = lines pre ++ lines post.
Proof.
  induction pre as [|b pre IH]; intros Hb; [done|].
  destruct Hb as [|Hlast]; [done|]. simpl.
  destruct pre as [|b' pre'].
  - simpl in Hlast. by injection Hlast as ->.
  - assert (IH' : lines ((b' :: pre') ++ post) = lines (b' :: pre') ++ lines post).
    { apply IH. right. by rewrite last_cons_cons in Hlast. }
    rewrite IH'. destruct (decide (b = newline)); [done|].
    destruct (lines (b' :: pre')) as [|l ls] eqn:Hl; [|done].
    by apply lines_nil_inv in Hl.
Qed.

Lemma scan_lines_all (limit : Z) (ls : list (list byte)) :
  (∀ l, l ∈ ls → (len l < limit)%Z) →
  scan_lines limit ls = (map dropCR ls, None).
Proof.
  induction ls as [|l ls IH]; intros Hall; [done|]. simpl.
  rewrite bool_decide_eq_true_2 by (apply Hall; by left).
  rewrite IH; [done|]. intros l' Hl'. apply Hall. by right.
Qed.

Lemma scan_lines_no_error (limit : Z) (ls : list (list byte)) :
  (scan_lines limit ls).2 = None → ∀ l, l ∈ ls → (len l < limit)%Z.
Proof.
  induction ls as [|l ls IH]; intros Herr l' Hl'; [by apply elem_of_nil in Hl'|].
  simpl in Herr. case_bool_decide as Hlen; [|done].
  destruct (scan_lines limit ls) as [toks e] eqn:Hs. simpl in *.
  apply elem_of_cons in Hl' as [->|Hl']; [done|by apply IH].
Qed.

Lemma scan_lines_too_long (limit : Z) (ls : list (list byte)) (l : list byte) :
  l ∈ ls → (limit ≤ len l)%Z → (scan_lines limit ls).2 = Some ErrTooLong.
Proof.
  intros Hl Hlen. destruct (scan_lines limit ls).2 as [e|] eqn:He.
  - clear Hl Hlen l. revert e He. induction ls as [|l ls IH]; intros e He; [done|].
    simpl in He. case_bool_decide; [|by injection He as <-].
    destruct (scan_lines limit ls) as [toks e'] eqn:Hs. simpl in *. by apply IH.
  - pose proof (scan_lines_no_error limit ls He l Hl). lia.
Qed.

(** The lines before the first line that does not fit the buffer. *)
Fixpoint lines_that_fit (limit : Z) (ls : list (list byte)) : list (list byte) :=
  match ls with
  | [] => []
  | l :: rest => if bool_decide (len l < limit)%Z then l :: lines_that_fit limit rest else []
  end.

Lemma scan_lines_tokens (limit : Z) (ls : list (list byte)) :
  (scan_lines limit ls).1 = map dropCR (lines_that_fit limit ls).
Proof.
  induction ls as [|l ls IH]; [done|]. simpl. case_bool_decide; [|done].
  destruct (scan_lines limit ls) as [toks e]. simpl in *. by rewrite IH.
Qed.

(** ProcessFile scans with a buffer of at most 10 MB. *)
Definition max_line_size : Z := 10 * 1024 * 1024.

Lemma Scanner_run_input (content : list byte) :
  Scanner_run (input_scanner content) = scan_lines max_line_size (lines content).
Proof. reflexivity. Qed.

Lemma input_tokens_lines (content : list byte) :
  input_tokens content = map dropCR (lines_that_fit max_line_size (lines content)).
Proof. unfold input_tokens. rewrite Scanner_run_input. apply scan_lines_tokens. Qed.

Lemma input_no_error (content : list byte) :
  input_error content = None → input_tokens content = map dropCR (lines content).
Proof.
  unfold input_error, input_tokens. rewrite Scanner_run_input. intros He.
  rewrite scan_lines_all; [done|]. by apply scan_lines_no_error.
Qed.

Lemma dropCR_no_newline (l : list byte) : newline ∉ l → newline ∉ dropCR l.
Proof.
  unfold dropCR. destruct (last l) as [c|]; [|done].
  destruct (decide (c = carriage_return)); [|done].
  intros Hl H. apply Hl. by eapply subseteq_take.
Qed.

(** ** Counting lines *)

(** The number of lines of a file: its newline bytes. *)
Definition line_count (data : list byte) : nat :=
  length (filter (λ b, b = newline) data).

Lemma line_count_app (a b : list byte) : line_count (a ++ b) = line_count a + line_count b.
Proof. unfold line_count. by rewrite filter_app, length_app. Qed.

Lemma line_count_no_newline (t : list byte) : newline ∉ t → line_count t = 0.
Proof.
  unfold line_count. induction t as [|b t IH]; intros Ht; [done|].
  rewrite filter_cons. rewrite decide_False by (intros ->; apply Ht; by left).
  apply IH. intros H. apply Ht. by right.
Qed.

Lemma line_count_records (ts : list (list byte)) :
  (∀ t, t ∈ ts → newline ∉ t) →
  line_count (concat (map (λ t, t ++ [newline]) ts)) = length ts.
Proof.
  induction ts as [|t ts IH]; intros Hts; [done|]. simpl.
  rewrite !line_count_app, line_count_no_newline by (apply Hts; by left).
  rewrite IH by (intros t' Ht'; apply Hts; by right). done.
Qed.

Lemma sum_list_with_zero {A : Type} (cs : list A) : sum_list_with (λ _, 0) cs = 0.
Proof. induction cs as [|c cs IH]; simpl; [done|]. by rewrite IH. Qed.

Lemma sum_list_with_add {A : Type} (g h : A → nat) (cs : list A) :
  sum_list_with (λ c, g c + h c) cs = sum_list_with g cs + sum_list_with h cs.
Proof. induction cs as [|c cs IH]; simpl; [done|]. rewrite IH. lia. Qed.

Lemma sum_list_with_one (cs : list string) (k : string) :
  NoDup cs → k ∈ cs → sum_list_with (λ c, if decide (k = c) then 1 else 0) cs = 1.
Proof.
  induction cs as [|c cs IH]; intros Hnd Hk; [by apply elem_of_nil in Hk|].
  apply NoDup_cons in Hnd as [Hc Hnd]. simpl.
  destruct (decide (k = c)) as [->|Hne].
  - assert (Hz : sum_list_with (λ c0, if decide (c = c0) then 1 else 0) cs = 0).
    { clear IH Hnd Hk. induction cs as [|c' cs IH]; simpl; [done|].
      rewrite decide_False by (intros ->; apply Hc; by left).
      apply IH. intros H. apply Hc. by right. }
    by rewrite Hz.
  - apply elem_of_cons in Hk as [?|Hk]; [done|]. by rewrite IH.
Qed.

Lemma sum_list_with_pointwise {A : Type} (g h : A → nat) (cs : list A) :
  (∀ c, c ∈ cs → g c = h c) → sum_list_with g cs = sum_list_with h cs.
Proof.
  induction cs as [|c cs IH]; intros Hgh; simpl; [done|].
  rewrite Hgh by (by left). rewrite IH; [done|]. intros c' Hc'. apply Hgh. by right.
Qed.

(** Splitting a list by a key with values in [cs] loses and repeats
    nothing. *)
Lemma sum_filter_partition {A : Type} (f : A → string) (cs : list string) (l : list A) :
  NoDup cs → (∀ x, x ∈ l → f x ∈ cs) →
  sum_list_with (λ c, length (filter (λ x, f x = c) l)) cs = length l.
Proof.
  intros Hnd. induction l as [|x l IH]; intros Hf.
  - simpl. apply sum_list_with_zero.
  - rewrite (sum_list_with_pointwise _
      (λ c, (if decide (f x = c) then 1 else 0) + length (filter (λ x, f x = c) l))).
    + rewrite sum_list_with_add, sum_list_with_one by (done || (apply Hf; by left)).
      rewrite IH by (intros y Hy; apply Hf; by right). done.
    + intros c _. rewrite filter_cons. by destruct (decide (f x = c)).
Qed.

(** ** Successful runs *)

Section Success.

Variable GetBytes : list byte → string → Result.
Variable env : Env.

(** A run of InitializeOutputFiles that returns nil has created every file. *)
Lemma InitializeOutputFiles_loop_creatable (names : list string) os cp os' cp' :
  InitializeOutputFiles_loop env names os cp = (os', cp', None) →
  ∀ c, c ∈ names → can_create env (output_filename (prefix cp) c) = true.
Proof.
  revert os cp. induction names as [|chr names IH]; intros os cp Hinit c Hc.
  - by apply elem_of_nil in Hc.
  - simpl in Hinit. unfold os_Create in Hinit.
    destruct (can_create env (output_filename (prefix cp) chr)) eqn:Hcan.
    + apply elem_of_cons in Hc as [->|Hc]; [done|].
      by apply (IH _ _ Hinit c Hc).
    + by destruct (CloseAllFiles env os cp).
Qed.

Lemma ProcessFile_nil_creatable os cp os' cp' :
  ProcessFile GetBytes env os cp = (os', cp', Returned None) →
  ∀ c, c ∈ chrNames cp ++ [UnknownChr] →
       can_create env (output_filename (prefix cp) c) = true.
Proof.
  unfold ProcessFile, InitializeOutputFiles. intros Hrun.
  destruct (InitializeOutputFiles_loop env _ os cp) as [[os1 cp1] [e|]] eqn:Hinit; [done|].
  by eapply InitializeOutputFiles_loop_creatable.
Qed.

(** The records of a file: its lines without their carriage return, the
    empty ones left out. *)
Definition records (content : list byte) : list (list byte) :=
  filter (λ t, t ≠ []) (map dropCR (lines content)).

(** The bytes of the records routed to [c], each followed by a newline. *)
Definition records_of (cp : ChromosomeProcessor) (recs : list (list byte)) (c : string)
  : list byte :=
  concat (map (λ t, t ++ [newline]) (filter (λ t, outputChr GetBytes cp t = c) recs)).

Lemma routed_output_records cp (toks : list (list byte)) (c : string) :
  routed_output GetBytes cp toks c = records_of cp (filter (λ t, t ≠ []) toks) c.
Proof.
  unfold routed_output, routed_lines, records_of. f_equal. f_equal.
  rewrite list_filter_filter. apply list_filter_iff. intros t. tauto.
Qed.

Lemma records_no_newline (content t : list byte) : t ∈ records content → newline ∉ t.
Proof.
  unfold records. intros [_ Ht]%list_elem_of_filter.
  apply list_elem_of_fmap in Ht as (l & -> & Hl).
  apply dropCR_no_newline. by eapply lines_no_newline_in.
Qed.

Lemma outputChr_declared (inp pre field : string) (names : list string) (t : list byte) :
  outputChr GetBytes (NewChromosomeProcessor inp pre field names) t
    ∈ names ++ [UnknownChr].
Proof.
  set (cp := NewChromosomeProcessor inp pre field names).
  destruct (outputChr_cases GetBytes cp t) as [H|H].
  - apply elem_of_app. left. apply (NewChromosomeProcessor_chrSet inp pre field).
    fold cp. by rewrite H.
  - rewrite H. apply elem_of_app. right. by left.
Qed.

End Success.

(** ** Sample inputs *)

(** An environment in which nothing fails. *)
Definition env_ok : Env := {| can_create := λ _, true; can_write := λ _, true |}.

Definition quote : byte := x22.

(** A JSON string literal. *)
Definition jstr (s : string) : list byte := quote :: bytes s ++ [quote].

Fixpoint until_quote (data : list byte) : list byte :=
  match data with
  | [] => []
  | b :: rest => if decide (b = quote) then [] else b :: until_quote rest
  end.

(** A stand-in for gjson on the sample records: it finds [path] when it is
    the first key of the object and its value is a string. *)
Definition sample_GetBytes (json : list byte) (path : string) : Result :=
  let key := bytes "{" ++ jstr path ++ bytes ":" ++ [quote] in
  if bool_decide (take (length key) json = key) then
    {| Exists := true;
       ResultString := String.string_of_list_byte (until_quote (drop (length key) json)) |}
  else {| Exists := false; ResultString := "" |}.

(** The three records of the scenario of the specification. *)
Definition record1 : list byte :=
  bytes "{" ++ jstr "chr" ++ bytes ":" ++ jstr "chr1" ++ bytes "," ++ jstr "v" ++ bytes ":1}".
Definition record2 : list byte :=
  bytes "{" ++ jstr "chr" ++ bytes ":" ++ jstr "chr2" ++ bytes "," ++ jstr "v" ++ bytes ":2}".
Definition record3 : list byte := bytes "{" ++ jstr "v" ++ bytes ":3}".

Definition sample_input : list byte :=
  record1 ++ [newline] ++ record2 ++ [newline] ++ record3 ++ [newline].

Definition sample_cp : ChromosomeProcessor :=
  NewChromosomeProcessor "in.jsonl" "out" "chr" ["chr1"; "chr2"].

Definition sample_os (content : list byte) : OS :=
  fresh_process {[ "in.jsonl" := content ]}.

Example sample_run :
  let '(os', _, out) := ProcessFile sample_GetBytes env_ok (sample_os sample_input) sample_cp in
  out = Returned None ∧
  disk os' !! "out_chr1.jsonl" = Some (record1 ++ [newline]) ∧
  disk os' !! "out_chr2.jsonl" = Some (record2 ++ [newline]) ∧
  disk os' !! "out_unknown_chr.jsonl" = Some (record3 ++ [newline]) ∧
  open_files os' = ∅.
Proof. vm_compute. done. Qed.

Lemma fresh_process_wf (d : gmap string (list byte)) : os_wf (fresh_process d).
Proof. intros h _. apply lookup_empty. Qed.

(** ** C1: the partition of the records *)

(** C1, as stated, would have every non-blank line of the input, byte for
    byte and followed by a newline, in the file of its category.  It fails on
    a line that ends in a carriage return: bufio.ScanLines drops it, so the
    line "a\\r" is written as "a\\n" (whatever the JSON lookup does). *)
Lemma C1_crlf_counterexample :
  ¬ ∃ GetBytes : list byte → string → Result,
      let content := bytes "a" ++ [carriage_return; newline] in
      let '(os', _, out) :=
        ProcessFile GetBytes env_ok (sample_os content) sample_cp in
      out = Returned None →
      ∀ c, c ∈ ["chr1"; "chr2"; UnknownChr] →
        disk os' !! output_filename "out" c
        = Some (concat (map (λ l, l ++ [newline])
                  (filter (λ l, l ≠ [] ∧ outputChr GetBytes sample_cp l = c)
                     (lines content)))).
Proof.
  intros [GetBytes H]. cbv zeta in H.
  set (content := bytes "a" ++ [carriage_return; newline]) in *.
  destruct (ProcessFile_ok GetBytes env_ok (sample_os content) "in.jsonl" "out" "chr"
              ["chr1"; "chr2"] content) as (os' & cp' & Hrun & _ & Hd & _).
  - apply fresh_process_wf.
  - done.
  - done.
  - done.
  - intros c Hc. set_unfold in Hc. destruct Hc as [->|[->|[->|[]]]]; done.
  - fold sample_cp in Hrun, Hd. rewrite Hrun in H.
    set (line := bytes "a" ++ [carriage_return]) in *.
    set (c := outputChr GetBytes sample_cp line).
    assert (Hc : c ∈ ["chr1"; "chr2"; UnknownChr]).
    { apply (outputChr_declared GetBytes "in.jsonl" "out" "chr" ["chr1"; "chr2"]). }
    specialize (H eq_refl c Hc). rewrite (Hd c Hc) in H. injection H as H.
    change (lines content) with [line] in H.
    change (input_tokens content) with [bytes "a"] in H.
    rewrite filter_cons, decide_True in H by done.
    unfold routed_output, routed_lines in H. rewrite filter_cons in H.
    destruct (decide _) in H; simpl in H; discriminate.
Qed.

(** C1 (amended): in every run of ProcessFile that returns nil, on an input
    file that is not one of the output files and with no failing write, the
    records are the lines of the input without their trailing carriage
    return, the empty ones left out; the file of every category holds
    exactly the records routed to it, in input order, each followed by one
    newline; every record is routed to one category; and the line counts of
    the output files sum to the number of records. *)
Theorem ProcessFile_partition (GetBytes : list byte → string → Result) (env : Env)
    (os os' : OS) (cp' : ChromosomeProcessor) (inp pre field : string)
    (names : list string) (content : list byte) :
  let cp := NewChromosomeProcessor inp pre field names in
  let allChrs := names ++ [UnknownChr] in
  os_wf os →
  disk os !! inp = Some content →
  (∀ c, c ∈ allChrs → inp ≠ output_filename pre c) →
  (∀ c, c ∈ allChrs → can_write env (output_filename pre c) = true) →
  ProcessFile GetBytes env os cp = (os', cp', Returned None) →
  (∀ c, c ∈ allChrs →
        disk os' !! output_filename pre c
        = Some (records_of GetBytes cp (records content) c)) ∧
  (∀ t, t ∈ records content → outputChr GetBytes cp t ∈ allChrs) ∧
  sum_list_with (λ c, line_count (default [] (disk os' !! output_filename pre c)))
    (remove_dups allChrs) = length (records content).
Proof.
  intros cp allChrs Hwf Hinp Hne Hcw Hrun.
  pose proof (ProcessFile_nil_creatable GetBytes env os cp os' cp' Hrun) as Hcc.
  destruct (ProcessFile_ok GetBytes env os inp pre field names content Hwf Hcc Hcw Hinp Hne)
    as (os'' & cp'' & Hrun' & _ & Hd & _).
  fold cp in Hrun', Hd. rewrite Hrun in Hrun'. injection Hrun' as <- <- Hout.
  assert (Herr : input_error content = None).
  { unfold scan_outcome in Hout. by destruct (input_error content). }
  assert (Hfiles : ∀ c, c ∈ allChrs →
            disk os' !! output_filename pre c
            = Some (records_of GetBytes cp (records content) c)).
  { intros c Hc. rewrite (Hd c Hc), routed_output_records.
    by rewrite (input_no_error content Herr). }
  split_and!; [done| |].
  - intros t _. apply outputChr_declared.
  - rewrite (sum_list_with_pointwise _
      (λ c, length (filter (λ t, outputChr GetBytes cp t = c) (records content)))).
    + apply sum_filter_partition; [apply NoDup_remove_dups|].
      intros t _. apply elem_of_remove_dups, outputChr_declared.
    + intros c Hc. rewrite elem_of_remove_dups in Hc. rewrite (Hfiles c Hc). simpl.
      unfold records_of. apply line_count_records.
      intros t [_ Ht]%list_elem_of_filter. by eapply records_no_newline.
Qed.

Lemma ProcessFile_partition_witness :
  let os' := (ProcessFile sample_GetBytes env_ok (sample_os sample_input) sample_cp).1.1 in
  (∀ c, c ∈ ["chr1"; "chr2"; UnknownChr] →
        disk os' !! output_filename "out" c
        = Some (records_of sample_GetBytes sample_cp (records sample_input) c)) ∧
  (∀ t, t ∈ records sample_input →
        outputChr sample_GetBytes sample_cp t ∈ ["chr1"; "chr2"; UnknownChr]) ∧
  sum_list_with (λ c, line_count (default [] (disk os' !! output_filename "out" c)))
    (remove_dups ["chr1"; "chr2"; UnknownChr]) = length (records sample_input).
Proof.
  apply (ProcessFile_partition sample_GetBytes env_ok (sample_os sample_input) _
           (ProcessFile sample_GetBytes env_ok (sample_os sample_input) sample_cp).1.2
           "in.jsonl" "out" "chr" ["chr1"; "chr2"] sample_input).
  - apply fresh_process_wf.
  - reflexivity.
  - intros c Hc. set_unfold in Hc. destruct Hc as [->|[->|[->|[]]]]; done.
  - reflexivity.
  - vm_compute. reflexivity.
Defined.

(** ** Cleanup on every path *)

(** A writer after Flush: its buffer is empty, unless a write to its file
    failed (and then the error is kept in the writer). *)
Definition flushed_or_failed (w : Writer) : Prop := buf w = [] ∨ werr w ≠ None.

Section Cleanup.

Variable GetBytes : list byte → string → Result.
Variable env : Env.

Lemma Flush_flushed os w os' w' e :
  Flush env os w = (os', w', e) → flushed_or_failed w'.
Proof.
  unfold Flush, flushed_or_failed. destruct (werr w) as [e0|] eqn:He.
  - intros [= <- <- <-]. right. by rewrite He.
  - destruct (buf w) as [|b l] eqn:Hb.
    + intros [= <- <- <-]. by left.
    + destruct (File_Write env os (wr w) (b :: l)) as [os1 [e1|]].
      * intros [= <- <- <-]. by right.
      * intros [= <- <- <-]. by left.
Qed.

Lemma FlushWriters_flushed (keys : list string) os ws os' ws' :
  FlushWriters env keys os ws = (os', ws') →
  dom ws' = dom ws ∧
  ∀ k w', ws' !! k = Some w' →
    (k ∈ keys ∨ ∃ w, ws !! k = Some w ∧ flushed_or_failed w) → flushed_or_failed w'.
Proof.
  revert os ws. induction keys as [|k keys IH]; intros os ws Hfl; simpl in Hfl.
  - injection Hfl as <- <-. split; [done|].
    intros k w' Hw' [Hk|(w & Hw & HP)]; [by apply elem_of_nil in Hk|congruence].
  - destruct (ws !! k) as [w|] eqn:Hk.
    + destruct (Flush env os w) as [[os1 w1] e1] eqn:Hflush.
      pose proof (Flush_flushed _ _ _ _ _ Hflush) as HP1.
      destruct (IH _ _ Hfl) as [Hdom IH'].
      split.
      * rewrite Hdom, dom_insert_L. apply elem_of_dom_2 in Hk. set_solver.
      * intros k' w' Hw' Hor. apply (IH' k' w' Hw').
        destruct (decide (k' = k)) as [->|Hne].
        -- right. exists w1. by rewrite lookup_insert_eq.
        -- destruct Hor as [[?|?]%elem_of_cons|(w0 & Hw0 & HP0)]; [done|by left|].
           right. exists w0. by rewrite lookup_insert_ne.
    + destruct (IH _ _ Hfl) as [Hdom IH'].
      split; [done|]. intros k' w' Hw' Hor. apply (IH' k' w' Hw').
      destruct Hor as [[->|?]%elem_of_cons|?]; [|by left|by right].
      exfalso. apply (f_equal (λ d, k ∈ d)) in Hdom.
      assert (k ∈ dom ws') as Hin by (apply elem_of_dom; by exists w').
      rewrite Hdom in Hin. apply elem_of_dom in Hin as [? ?]. congruence.
Qed.

(** After CloseAllFiles every writer of the map has been flushed and every
    file of the map is closed. *)
Lemma CloseAllFiles_cleanup os cp os' cp' :
  CloseAllFiles env os cp = (os', cp') →
  (∀ c w, outputWriters cp' !! c = Some w → flushed_or_failed w) ∧
  (∀ c h, outputFiles cp' !! c = Some h → open_files os' !! h = None).
Proof.
  unfold CloseAllFiles, FlushAllWriters.
  destruct (FlushWriters env _ os (outputWriters cp)) as [os1 ws1] eqn:Hfl.
  intros [= <- <-].
  destruct (FlushWriters_flushed _ _ _ _ _ Hfl) as [Hdom HP]. split.
  - intros c w Hw. simpl in Hw. apply (HP c w Hw). left.
    unfold map_keys. rewrite elem_of_elements, <- Hdom. apply elem_of_dom. by exists w.
  - intros c h Hh.
    destruct (CloseFiles_spec (map_keys (outputFiles (set_outputWriters cp ws1))) os1
                (outputFiles (set_outputWriters cp ws1))) as (_ & _ & _ & Hcl & _).
    eapply Hcl; [|done]. unfold map_keys. rewrite elem_of_elements. apply elem_of_dom.
    by exists h.
Qed.

Lemma InitializeOutputFiles_loop_cleanup (names : list string) os cp os' cp' err :
  InitializeOutputFiles_loop env names os cp = (os', cp', Some err) →
  (∀ c w, outputWriters cp' !! c = Some w → flushed_or_failed w) ∧
  (∀ c h, outputFiles cp' !! c = Some h → open_files os' !! h = None).
Proof.
  revert os cp. induction names as [|chr names IH]; intros os cp Hinit; [done|].
  simpl in Hinit. destruct (os_Create env os _) as [os1 [file|e]].
  - by eapply IH.
  - destruct (CloseAllFiles env os1 cp) as [os2 cp2] eqn:Hclose.
    injection Hinit as <- <- _. by eapply CloseAllFiles_cleanup.
Qed.

(** ProcessFile, however it ends, leaves every writer of the map flushed
    and every file of the map closed. *)
Lemma ProcessFile_cleanup os cp os' cp' out :
  ProcessFile GetBytes env os cp = (os', cp', out) →
  (∀ c w, outputWriters cp' !! c = Some w → flushed_or_failed w) ∧
  (∀ c h, outputFiles cp' !! c = Some h → open_files os' !! h = None).
Proof.
  unfold ProcessFile, ProcessFile_after_init, InitializeOutputFiles.
  destruct (InitializeOutputFiles_loop env _ os cp) as [[os1 cp1] [e|]] eqn:Hinit.
  - intros [= <- <- _]. by eapply InitializeOutputFiles_loop_cleanup.
  - destruct (os_Open os1 (inputFile cp1)) as [os2 [[file content]|e]].
    + destruct (ProcessInput GetBytes env os2 cp1 content) as [[os3 cp3] out3].
      destruct (CloseAllFiles env _ cp3) as [os5 cp5] eqn:Hclose.
      intros [= <- <- _]. by eapply CloseAllFiles_cleanup.
    + destruct (CloseAllFiles env os2 cp1) as [os3 cp3] eqn:Hclose.
      intros [= <- <- _]. by eapply CloseAllFiles_cleanup.
Qed.

End Cleanup.

(** ** A line that does not fit the scan buffer *)

Section TooLong.

Variable GetBytes : list byte → string → Result.
Variable env : Env.

Lemma InitializeOutputFiles_loop_success (names : list string) os cp os' cp' :
  InitializeOutputFiles_loop env names os cp = (os', cp', None) →
  same_config cp cp' ∧
  (∀ q, (∀ c, c ∈ names → q ≠ output_filename (prefix cp) c) →
        disk os' !! q = disk os !! q) ∧
  (∀ c, c ∈ names ∨ is_Some (outputWriters cp !! c) → is_Some (outputWriters cp' !! c)).
Proof.
  revert os cp. induction names as [|chr names IH]; intros os cp Hinit; simpl in Hinit.
  - injection Hinit as <- <-. split_and!; try done.
    intros c [Hc|Hc]; [by apply elem_of_nil in Hc|done].
  - unfold os_Create in Hinit.
    destruct (can_create env (output_filename (prefix cp) chr)).
    2:{ by destruct (CloseAllFiles env os cp). }
    destruct (IH _ _ Hinit) as (Hcfg & Hd & Hdom). simpl in Hd, Hdom. split_and!.
    + eapply same_config_trans; [apply same_config_set_outputs|exact Hcfg].
    + intros q Hq. rewrite Hd by (intros c Hc; apply Hq; by right).
      rewrite lookup_insert_ne; [done|]. intros <-. eapply (Hq chr); [by left|done].
    + intros c Hc. apply Hdom. destruct (decide (c = chr)) as [->|Hne].
      * right. by rewrite lookup_insert_eq.
      * destruct Hc as [[?|?]%elem_of_cons|?]; [done|by left|].
        right. by rewrite lookup_insert_ne.
Qed.

(** With the sentinel's writer in the map, the loop body does not panic,
    and what it returns early is an error. *)
Lemma ProcessLine_returns os cp (lineNum : Z) (line : list byte) os' cp' out :
  is_Some (outputWriters cp !! UnknownChr) →
  ProcessLine GetBytes env os cp lineNum line = (os', cp', out) →
  is_Some (outputWriters cp' !! UnknownChr) ∧
  (out = None ∨ ∃ e, out = Some (Returned (Some e))).
Proof.
  intros [wu Hwu]. unfold ProcessLine. case_bool_decide.
  { intros [= <- <- <-]. split; [by exists wu|by left]. }
  unfold GetOutputWriter. rewrite Hwu.
  set (c := outputChr GetBytes cp line).
  assert (Hkeep : ∀ k (w : Writer),
            is_Some (outputWriters cp !! k) →
            is_Some (<[k := w]> (outputWriters cp) !! UnknownChr)).
  { intros k w Hk. destruct (decide (k = UnknownChr)) as [->|Hne].
    - rewrite lookup_insert_eq. by eexists.
    - rewrite lookup_insert_ne by done. by exists wu. }
  assert (Hgo : ∀ k (w : Writer), outputWriters cp !! k = Some w →
            (let '(os1, writer1, err) := Write env os w line in
             match err with
             | Some e =>
                 (os1, set_outputWriters cp (<[k := writer1]> (outputWriters cp)),
                  Some (Returned (Some (FailedWriteLine lineNum e))))
             | None =>
                 let '(os2, writer2, err0) := WriteByte env os1 writer1 newline in
                 match err0 with
                 | Some e =>
                     (os2, set_outputWriters cp (<[k := writer2]> (outputWriters cp)),
                      Some (Returned (Some (FailedWriteNewline lineNum e))))
                 | None =>
                     (os2, set_outputWriters cp (<[k := writer2]> (outputWriters cp)), None)
                 end
             end) = (os', cp', out) →
            is_Some (outputWriters cp' !! UnknownChr) ∧
            (out = None ∨ ∃ e, out = Some (Returned (Some e)))).
  { intros k w Hk. destruct (Write env os w line) as [[os1 w1] [e|]].
    - intros [= <- <- <-]. split; [apply Hkeep; by eexists|right; by eexists].
    - destruct (WriteByte env os1 w1 newline) as [[os2 w2] [e|]].
      + intros [= <- <- <-]. split; [apply Hkeep; by eexists|right; by eexists].
      + intros [= <- <- <-]. split; [apply Hkeep; by eexists|by left]. }
  destruct (outputWriters cp !! c) as [w|] eqn:Hc.
  - by apply (Hgo c w).
  - by apply (Hgo UnknownChr wu).
Qed.

Lemma ProcessLines_returns (toks : list (list byte)) os cp (lineNum : Z) os' cp' n out :
  is_Some (outputWriters cp !! UnknownChr) →
  ProcessLines GetBytes env toks os cp lineNum = (os', cp', n, out) →
  out = None ∨ ∃ e, out = Some (Returned (Some e)).
Proof.
  revert os cp lineNum. induction toks as [|t toks IH]; intros os cp lineNum HU; simpl.
  - intros [= <- <- <- <-]. by left.
  - destruct (ProcessLine GetBytes env os cp (lineNum + 1) t) as [[os1 cp1] out1] eqn:Hline.
    destruct (ProcessLine_returns _ _ _ _ _ _ _ HU Hline) as [HU1 [->|[e ->]]].
    + by apply IH.
    + intros [= <- <- <- <-]. right. by exists e.
Qed.

Lemma ProcessInput_too_long os cp (content : list byte) (e : io_error) :
  is_Some (outputWriters cp !! UnknownChr) → input_error content = Some e →
  ∃ os' cp' err,
    ProcessInput GetBytes env os cp content = (os', cp', Returned (Some err)).
Proof.
  intros HU Herr. unfold ProcessInput. fold (input_scanner content).
  unfold input_error in Herr.
  destruct (Scanner_run (input_scanner content)) as [toks scan_err]. simpl in Herr. subst.
  destruct (ProcessLines GetBytes env toks os cp 0) as [[[os1 cp1] n] out] eqn:Hlines.
  destruct (ProcessLines_returns _ _ _ _ _ _ _ _ HU Hlines) as [->|[err ->]]; by eexists _, _, _.
Qed.

Lemma line_too_long_error (content l : list byte) :
  l ∈ lines content → (max_line_size ≤ len l)%Z → input_error content = Some ErrTooLong.
Proof.
  intros Hl Hlen. unfold input_error. rewrite Scanner_run_input.
  by eapply scan_lines_too_long.
Qed.

End TooLong.

(** An input of one line, one byte longer than the scan buffer. *)
Definition long_line : list byte := replicate (Z.to_nat (max_line_size + 1)) "a"%byte.

Lemma long_line_lines : lines long_line = [long_line].
Proof.
  apply lines_no_newline.
  - intros [? _]%elem_of_replicate. done.
  - unfold long_line. intros H. apply (f_equal length) in H.
    rewrite length_replicate in H. simpl length in H. unfold max_line_size in H. lia.
Qed.

Lemma long_line_len : (max_line_size < len long_line)%Z.
Proof. unfold len, long_line. rewrite length_replicate. unfold max_line_size. lia. Qed.

(** ** C5: a creation that fails *)

(** An environment in which the directory of "out_x/y.jsonl" is missing. *)
Definition env_missing_dir : Env :=
  {| can_create := λ p, bool_decide (p ≠ "out_x/y.jsonl"); can_write := λ _, true |}.

(** C5 at a list that names "chr1" twice: the second os.Create of
    "out_chr1.jsonl" replaces the first handle in the map of files, so
    CloseAllFiles does not reach it and it is still open when the error is
    returned. *)
Theorem InitializeOutputFiles_duplicate_leak :
  let cp := NewChromosomeProcessor "in.jsonl" "out" "chr" ["chr1"; "chr1"; "x/y"] in
  let '(os', cp', err) := InitializeOutputFiles env_missing_dir (fresh_process ∅) cp in
  err = Some (FailedCreateOutput "out_x/y.jsonl" ErrCreate) ∧
  outputFiles cp' !! "chr1" = Some 1 ∧
  open_files os' !! 1 = None ∧
  open_files os' !! 0 = Some {| of_path := "out_chr1.jsonl"; of_offset := 0 |}.
Proof. vm_compute. done. Qed.

(** ** C6: what InitializeOutputFiles creates *)

(** C6, as stated, has the sentinel not constructible through the declared
    list.  The list may name it: "unknown_chr" is accepted like any name. *)
Lemma C6_sentinel_declared_counterexample :
  ¬ ∀ names : list string,
      (InitializeOutputFiles env_ok (fresh_process ∅)
         (NewChromosomeProcessor "in.jsonl" "out" "chr" names)).2 = None →
      UnknownChr ∉ names.
Proof.
  intros H. apply (H ["unknown_chr"]); [by vm_compute|]. by left.
Qed.

(** C6 (amended): after InitializeOutputFiles returns nil on a fresh
    processor, every declared category and the sentinel have a writer and a
    file in the maps, the writer empty and without error, the file open at
    offset 0 and empty on disk; the maps hold no other category; the rest of
    ProcessFile, which opens the input, starts from this state.  (The
    declared list may itself name the sentinel.) *)
Theorem InitializeOutputFiles_creates_all (env : Env) (os os' : OS)
    (cp' : ChromosomeProcessor) (inp pre field : string) (names : list string) :
  let cp := NewChromosomeProcessor inp pre field names in
  let allChrs := names ++ [UnknownChr] in
  os_wf os →
  InitializeOutputFiles env os cp = (os', cp', None) →
  (∀ c, c ∈ allChrs →
     ∃ w, outputWriters cp' !! c = Some w ∧ outputFiles cp' !! c = Some (wr w) ∧
          buf w = [] ∧ werr w = None ∧
          open_files os' !! wr w
          = Some {| of_path := output_filename pre c; of_offset := 0 |} ∧
          disk os' !! output_filename pre c = Some []) ∧
  is_Some (outputWriters cp' !! UnknownChr) ∧
  (∀ c, c ∉ allChrs → outputWriters cp' !! c = None ∧ outputFiles cp' !! c = None) ∧
  (∀ GetBytes, ProcessFile GetBytes env os cp = ProcessFile_after_init GetBytes env os' cp').
Proof.
  intros cp allChrs Hwf Hinit. unfold InitializeOutputFiles in Hinit.
  change (chrNames cp ++ [UnknownChr]) with allChrs in Hinit.
  pose proof (InitializeOutputFiles_loop_creatable env _ _ _ _ _ Hinit) as Hcc.
  assert (Hok0 : streams_ok os cp ∅ (λ _, [])).
  { split; [intros c Hc; by apply elem_of_empty in Hc|]. intros c _. split; apply lookup_empty. }
  destruct (InitializeOutputFiles_loop_ok env allChrs os cp ∅ Hwf Hok0 Hcc)
    as (os1 & cp1 & Hinit' & _ & [Hin Hout] & (_ & Hpre & _) & _).
  rewrite Hinit in Hinit'. injection Hinit' as <- <-. simpl in Hpre.
  assert (Hall : ∀ c, c ∈ allChrs →
     ∃ w, outputWriters cp' !! c = Some w ∧ outputFiles cp' !! c = Some (wr w) ∧
          buf w = [] ∧ werr w = None ∧
          open_files os' !! wr w
          = Some {| of_path := output_filename pre c; of_offset := 0 |} ∧
          disk os' !! output_filename pre c = Some []).
  { intros c Hc. destruct (Hin c) as (w & Hw & Hf & He & _ & _ & content & Hd & Ho & HL).
    { apply elem_of_union. right. by apply elem_of_list_to_set. }
    symmetry in HL. apply app_eq_nil in HL as [-> Hb]. rewrite Hpre in Hd, Ho.
    exists w. by split_and!. }
  split_and!; [done| | |].
  - destruct (Hall UnknownChr) as (w & Hw & _); [|by exists w].
    apply elem_of_app. right. by left.
  - intros c Hc. apply Hout. intros [?%elem_of_empty|?%elem_of_list_to_set]%elem_of_union; done.
  - intros GetBytes. unfold ProcessFile, InitializeOutputFiles.
    change (chrNames cp ++ [UnknownChr]) with allChrs. by rewrite Hinit.
Qed.

Lemma InitializeOutputFiles_creates_all_witness :
  let r := InitializeOutputFiles env_ok (fresh_process ∅) sample_cp in
  is_Some (outputWriters r.1.2 !! UnknownChr) ∧
  disk r.1.1 !! "out_chr2.jsonl" = Some [].
Proof.
  destruct (InitializeOutputFiles_creates_all env_ok (fresh_process ∅)
              (InitializeOutputFiles env_ok (fresh_process ∅) sample_cp).1.1
              (InitializeOutputFiles env_ok (fresh_process ∅) sample_cp).1.2
              "in.jsonl" "out" "chr" ["chr1"; "chr2"])
    as (Hall & HU & _).
  - apply fresh_process_wf.
  - by vm_compute.
  - split; [exact HU|].
    destruct (Hall "chr2") as (w & _ & _ & _ & _ & _ & Hd); [|exact Hd].
    set_unfold. tauto.
Defined.

(** ** C2: the routing decision *)

(** C2, as stated, has the decision return the key itself if and only if
    the key was found and is declared.  The key "unknown_chr" is returned
    as itself also when it was not found or is not declared, since it is the
    sentinel. *)
Lemma C2_sentinel_key_counterexample :
  ¬ ∀ (names : list string) (key : string) (found : bool),
      routeKey (NewChromosomeProcessor "in.jsonl" "out" "chr" names) key found = key
      ↔ found = true ∧ key ∈ names.
Proof.
  intros H. destruct (H [] UnknownChr false) as [H1 _].
  destruct H1 as [? _]; done.
Qed.

(** C2 (amended): the routing decision returns the key when it was found
    and is a declared category, and the sentinel otherwise; so the result is
    the key exactly when it was found and is declared, or is the sentinel's
    own name.  The decision reads nothing of the processor but the
    membership set. *)
Theorem routeKey_decision (inp pre field : string) (names : list string)
    (key : string) (found : bool) :
  let cp := NewChromosomeProcessor inp pre field names in
  routeKey cp key found
  = (if found && bool_decide (key ∈ names) then key else UnknownChr) ∧
  (routeKey cp key found = key ↔ (found = true ∧ key ∈ names) ∨ key = UnknownChr) ∧
  (∀ cp', chrSet cp' = chrSet cp → routeKey cp' key found = routeKey cp key found).
Proof.
  intros cp.
  assert (Heq : routeKey cp key found
                = (if found && bool_decide (key ∈ names) then key else UnknownChr)).
  { unfold routeKey. destruct found; cbn [andb]; [|done].
    pose proof (NewChromosomeProcessor_chrSet inp pre field names key) as Hset.
    fold cp in Hset. destruct (default false (chrSet cp !! key)).
    - rewrite bool_decide_eq_true_2; [done|]. by apply Hset.
    - rewrite bool_decide_eq_false_2; [done|]. intros Hin. apply Hset in Hin. done. }
  split_and!; [done| |].
  - rewrite Heq. destruct found; simpl.
    + case_bool_decide as Hin.
      * split; [intros _; by left|done].
      * split; [intros <-; by right|]. intros [[_ ?]| ->]; done.
    + split; [intros <-; by right|]. intros [[? _]| ->]; done.
  - intros cp' Hset. unfold routeKey. by rewrite Hset.
Qed.

(** ** C3: file names and the fallback to the sentinel *)

(** C3, as stated, names the sentinel's file "<prefix>_unknown.jsonl".  The
    sentinel is "unknown_chr": with prefix "out" its file is
    "out_unknown_chr.jsonl", and no run on the sample input leaves a file
    "out_unknown.jsonl". *)
Lemma C3_unknown_filename_counterexample :
  ¬ ((∀ pre : string, output_filename pre UnknownChr = pre +:+ "_unknown.jsonl") ∨
     ∃ GetBytes : list byte → string → Result,
       is_Some (disk (ProcessFile GetBytes env_ok (sample_os sample_input) sample_cp).1.1
                  !! "out_unknown.jsonl")).
Proof.
  intros [H|[GetBytes H]].
  - specialize (H "out"). done.
  - destruct (ProcessFile_ok GetBytes env_ok (sample_os sample_input) "in.jsonl" "out" "chr"
                ["chr1"; "chr2"] sample_input) as (os' & cp' & Hrun & _ & _ & Hfr & _).
    + apply fresh_process_wf.
    + done.
    + done.
    + done.
    + intros c Hc. set_unfold in Hc. destruct Hc as [->|[->|[->|[]]]]; done.
    + fold sample_cp in Hrun. rewrite Hrun in H. simpl in H.
      rewrite (Hfr "out_unknown.jsonl") in H.
      * by destruct H.
      * intros c Hc. set_unfold in Hc. destruct Hc as [->|[->|[->|[]]]]; done.
Qed.

Lemma records_of_elem GetBytes cp (recs : list (list byte)) (t : list byte) :
  t ∈ recs →
  ∃ before after,
    records_of GetBytes cp recs (outputChr GetBytes cp t)
    = before ++ t ++ [newline] ++ after.
Proof.
  intros Ht. unfold records_of.
  assert (Hin : t ∈ filter (λ t', outputChr GetBytes cp t' = outputChr GetBytes cp t) recs).
  { by apply list_elem_of_filter. }
  apply list_elem_of_split in Hin as (l1 & l2 & ->).
  exists (concat (map (λ t, t ++ [newline]) l1)), (concat (map (λ t, t ++ [newline]) l2)).
  rewrite map_app, concat_app. simpl. by rewrite <- !app_assoc.
Qed.

(** C3 (amended): the file of a category is "<prefix>_<category>.jsonl",
    the sentinel's "<prefix>_unknown_chr.jsonl"; after a run that returns nil
    (input not one of the output files, no failing write) each of these
    files exists, and every record whose field is absent or whose value is
    not a declared category is in the sentinel's file, followed by a
    newline. *)
Theorem unknown_fallback (GetBytes : list byte → string → Result) (env : Env)
    (os os' : OS) (cp' : ChromosomeProcessor) (inp pre field : string)
    (names : list string) (content t : list byte) :
  let cp := NewChromosomeProcessor inp pre field names in
  let allChrs := names ++ [UnknownChr] in
  os_wf os →
  disk os !! inp = Some content →
  (∀ c, c ∈ allChrs → inp ≠ output_filename pre c) →
  (∀ c, c ∈ allChrs → can_write env (output_filename pre c) = true) →
  ProcessFile GetBytes env os cp = (os', cp', Returned None) →
  t ∈ records content →
  (ExtractChromosome GetBytes cp t).2 = false ∨ (ExtractChromosome GetBytes cp t).1 ∉ names →
  (∀ c, output_filename pre c = pre +:+ "_" +:+ c +:+ ".jsonl") ∧
  output_filename pre UnknownChr = pre +:+ "_unknown_chr.jsonl" ∧
  (∀ c, c ∈ allChrs → is_Some (disk os' !! output_filename pre c)) ∧
  ∃ before after,
    disk os' !! (pre +:+ "_unknown_chr.jsonl") = Some (before ++ t ++ [newline] ++ after).
Proof.
  intros cp allChrs Hwf Hinp Hne Hcw Hrun Ht Habsent.
  destruct (ProcessFile_partition GetBytes env os os' cp' inp pre field names content
              Hwf Hinp Hne Hcw Hrun) as (Hfiles & _ & _).
  fold cp allChrs in Hfiles.
  assert (HU : outputChr GetBytes cp t = UnknownChr).
  { unfold outputChr. destruct (ExtractChromosome GetBytes cp t) as [chr found].
    simpl in Habsent. unfold routeKey. destruct Habsent as [->|Hnot]; [done|].
    destruct found; [|done]. cbn [andb].
    pose proof (NewChromosomeProcessor_chrSet inp pre field names chr) as Hset.
    fold cp in Hset. destruct (default false (chrSet cp !! chr)); [|done].
    exfalso. apply Hnot. by apply Hset. }
  split_and!; [done|done| |].
  - intros c Hc. rewrite (Hfiles c Hc). by eexists.
  - destruct (records_of_elem GetBytes cp (records content) t Ht) as (before & after & Heq).
    exists before, after. rewrite HU in Heq. rewrite <- Heq.
    apply (Hfiles UnknownChr). apply elem_of_app. right. by left.
Qed.

Lemma unknown_fallback_witness :
  ∃ before after,
    disk (ProcessFile sample_GetBytes env_ok (sample_os sample_input) sample_cp).1.1
      !! "out_unknown_chr.jsonl"
    = Some (before ++ record3 ++ [newline] ++ after).
Proof.
  destruct (unknown_fallback sample_GetBytes env_ok (sample_os sample_input)
              (ProcessFile sample_GetBytes env_ok (sample_os sample_input) sample_cp).1.1
              (ProcessFile sample_GetBytes env_ok (sample_os sample_input) sample_cp).1.2
              "in.jsonl" "out" "chr" ["chr1"; "chr2"] sample_input record3)
    as (_ & _ & _ & before & after & H).
  - apply fresh_process_wf.
  - reflexivity.
  - intros c Hc. set_unfold in Hc. destruct Hc as [->|[->|[->|[]]]]; done.
  - reflexivity.
  - by vm_compute.
  - vm_compute. set_unfold. tauto.
  - left. by vm_compute.
  - by exists before, after.
Defined.

(** ** C7: blank lines *)

(** The scan of an input that is one long line, and of that input after a
    blank line. *)
Lemma scan_lines_one_too_long (limit : Z) (l : list byte) :
  (limit ≤ len l)%Z → scan_lines limit [l] = ([], Some ErrTooLong).
Proof. intros Hl. simpl. by rewrite bool_decide_eq_false_2 by lia. Qed.

Lemma scan_lines_blank_too_long (limit : Z) (l : list byte) :
  (0 < limit)%Z → (limit ≤ len l)%Z →
  scan_lines limit [[]; l] = ([[]], Some ErrTooLong).
Proof.
  intros H0 Hl. simpl. rewrite bool_decide_eq_true_2 by (rewrite len_nil; lia).
  by rewrite bool_decide_eq_false_2 by lia.
Qed.

Lemma Scanner_run_long_line :
  Scanner_run (input_scanner long_line) = ([], Some ErrTooLong).
Proof.
  rewrite Scanner_run_input, long_line_lines. apply scan_lines_one_too_long.
  pose proof long_line_len. lia.
Qed.

Lemma lines_cons_newline (rest : list byte) : lines (newline :: rest) = [] :: lines rest.
Proof. reflexivity. Qed.

Lemma Scanner_run_blank_long_line :
  Scanner_run (input_scanner (newline :: long_line)) = ([[]], Some ErrTooLong).
Proof.
  rewrite Scanner_run_input, lines_cons_newline, long_line_lines.
  apply scan_lines_blank_too_long; [done|].
  pose proof long_line_len. lia.
Qed.

(** C7, as stated, has a blank line not counted.  The loop counts every
    line before it tests for a blank one (lineNum++ comes first), and the
    count shows in the errors ProcessFile returns: a file of one line that
    does not fit the scan buffer gives an error at line 0, the same file after
    a blank line gives it at line 1. *)
Lemma C7_blank_line_counted_counterexample :
  (ProcessFile sample_GetBytes env_ok (sample_os long_line) sample_cp).2
  = Returned (Some (ErrorReadingInput 0 ErrTooLong)) ∧
  (ProcessFile sample_GetBytes env_ok (sample_os (newline :: long_line)) sample_cp).2
  = Returned (Some (ErrorReadingInput 1 ErrTooLong)).
Proof.
  assert (Hne : ∀ c, c ∈ ["chr1"; "chr2"] ++ [UnknownChr] →
            "in.jsonl" ≠ output_filename "out" c).
  { intros c Hc. set_unfold in Hc. destruct Hc as [->|[->|[->|[]]]]; done. }
  split.
  - destruct (ProcessFile_ok sample_GetBytes env_ok (sample_os long_line)
                "in.jsonl" "out" "chr" ["chr1"; "chr2"] long_line) as (os' & cp' & Hrun & _).
    + apply fresh_process_wf.
    + reflexivity.
    + reflexivity.
    + exact (lookup_singleton_eq _ _).
    + exact Hne.
    + unfold sample_cp. rewrite Hrun. unfold scan_outcome, input_error, input_tokens.
      rewrite Scanner_run_long_line. reflexivity.
  - destruct (ProcessFile_ok sample_GetBytes env_ok (sample_os (newline :: long_line))
                "in.jsonl" "out" "chr" ["chr1"; "chr2"] (newline :: long_line))
      as (os' & cp' & Hrun & _).
    + apply fresh_process_wf.
    + reflexivity.
    + reflexivity.
    + exact (lookup_singleton_eq _ _).
    + exact Hne.
    + unfold sample_cp. rewrite Hrun. unfold scan_outcome, input_error, input_tokens.
      rewrite Scanner_run_blank_long_line. reflexivity.
Qed.

(** An error without its line number. *)
Definition error_kind (e : error) : error :=
  match e with
  | FailedWriteLine _ cause => FailedWriteLine 0 cause
  | FailedWriteNewline _ cause => FailedWriteNewline 0 cause
  | ErrorReadingInput _ cause => ErrorReadingInput 0 cause
  | _ => e
  end.

Definition outcome_kind (out : outcome) : outcome :=
  match out with
  | Returned (Some e) => Returned (Some (error_kind e))
  | _ => out
  end.

(** The line numbers of an error when a blank line is put after the first
    [k] lines of the file.  A write error names the line that was being
    written: the lines after the [k]-th move by one.  A read error gives the
    number of lines read before it: the blank line is one of them when [k]
    lines or more were read. *)
Definition count_blank_line (k : Z) (e : error) : error :=
  match e with
  | FailedWriteLine n cause =>
      FailedWriteLine (if bool_decide (k < n)%Z then n + 1 else n) cause
  | FailedWriteNewline n cause =>
      FailedWriteNewline (if bool_decide (k < n)%Z then n + 1 else n) cause
  | ErrorReadingInput n cause =>
      ErrorReadingInput (if bool_decide (k ≤ n)%Z then n + 1 else n) cause
  | _ => e
  end.

Definition count_blank (k : Z) (out : outcome) : outcome :=
  match out with
  | Returned (Some e) => Returned (Some (count_blank_line k e))
  | _ => out
  end.

(** The line numbers of the write errors moved by [d]. *)
Definition shift_line (d : Z) (out : outcome) : outcome :=
  match out with
  | Returned (Some (FailedWriteLine n cause)) =>
      Returned (Some (FailedWriteLine (n + d) cause))
  | Returned (Some (FailedWriteNewline n cause)) =>
      Returned (Some (FailedWriteNewline (n + d) cause))
  | _ => out
  end.

(** What the body of the loop returns early at line [n]. *)
Definition write_error_at (n : Z) (out : outcome) : Prop :=
  out = Panic ∨
  ∃ cause, out = Returned (Some (FailedWriteLine n cause)) ∨
           out = Returned (Some (FailedWriteNewline n cause)).

Lemma outcome_kind_count_blank (k : Z) (out : outcome) :
  outcome_kind (count_blank k out) = outcome_kind out.
Proof. destruct out as [err|]; [|done]. destruct err as [e|]; [|done]. by destruct e. Qed.

Lemma count_blank_before (k n : Z) (out : outcome) :
  write_error_at n out → (n ≤ k)%Z → count_blank k out = out.
Proof.
  intros [-> | [cause [-> | ->]]] Hn; [done| |]; simpl;
    by rewrite bool_decide_eq_false_2 by lia.
Qed.

Lemma count_blank_after (k n : Z) (out : outcome) :
  write_error_at n out → (k < n)%Z → count_blank k out = shift_line 1 out.
Proof.
  intros [-> | [cause [-> | ->]]] Hn; [done| |]; simpl;
    by rewrite bool_decide_eq_true_2 by lia.
Qed.

Lemma scan_lines_length (limit : Z) (ls toks : list (list byte)) (e : option io_error) :
  scan_lines limit ls = (toks, e) →
  match e with
  | Some _ => length toks < length ls
  | None => length toks = length ls
  end.
Proof.
  revert toks. induction ls as [|l ls IH]; intros toks; simpl.
  - by intros [= <- <-].
  - case_bool_decide.
    + destruct (scan_lines limit ls) as [toks' e'] eqn:Hs. intros [= <- <-].
      specialize (IH toks' eq_refl). simpl. destruct e'; lia.
    + intros [= <- <-]. simpl. lia.
Qed.

Section Blank.

Variable GetBytes : list byte → string → Result.
Variable env : Env.

(** The line number only shows in the error that is returned. *)
Lemma ProcessLine_shift os cp (n d : Z) (line : list byte) :
  ProcessLine GetBytes env os cp (n + d) line
  = (let '(os', cp', out) := ProcessLine GetBytes env os cp n line in
     (os', cp', shift_line d <$> out)).
Proof.
  unfold ProcessLine. case_bool_decide; [done|].
  destruct (GetOutputWriter cp _) as [[k w]|]; [|done].
  destruct (Write env os w line) as [[os1 w1] [e|]]; [done|].
  by destruct (WriteByte env os1 w1 newline) as [[os2 w2] [e|]].
Qed.

Lemma ProcessLine_out os cp (n : Z) (line : list byte) os' cp' (out : outcome) :
  ProcessLine GetBytes env os cp n line = (os', cp', Some out) → write_error_at n out.
Proof.
  unfold ProcessLine. case_bool_decide; [done|].
  destruct (GetOutputWriter cp _) as [[k w]|]; [|intros [= <- <- <-]; by left].
  destruct (Write env os w line) as [[os1 w1] [e|]].
  { intros [= <- <- <-]. right. exists e. by left. }
  destruct (WriteByte env os1 w1 newline) as [[os2 w2] [e|]]; [|done].
  intros [= <- <- <-]. right. exists e. by right.
Qed.

Lemma ProcessLines_shift (toks : list (list byte)) os cp (n d : Z) :
  ProcessLines GetBytes env toks os cp (n + d)
  = (let '(os', cp', m, out) := ProcessLines GetBytes env toks os cp n in
     (os', cp', (m + d)%Z, shift_line d <$> out)).
Proof.
  revert os cp n. induction toks as [|t toks IH]; intros os cp n; simpl; [done|].
  replace (n + d + 1)%Z with (n + 1 + d)%Z by lia. rewrite ProcessLine_shift.
  destruct (ProcessLine GetBytes env os cp (n + 1) t) as [[os1 cp1] [out|]]; [done|].
  apply IH.
Qed.

(** The loop counts one line per token; what it returns early names the
    line it was at. *)
Lemma ProcessLines_out (toks : list (list byte)) os cp (n : Z) os' cp' (m : Z)
    (out : option outcome) :
  ProcessLines GetBytes env toks os cp n = (os', cp', m, out) →
  match out with
  | Some o => (n < m ≤ n + len toks)%Z ∧ write_error_at m o
  | None => m = (n + len toks)%Z
  end.
Proof.
  revert os cp n. induction toks as [|t toks IH]; intros os cp n; simpl.
  - intros [= <- <- <- <-]. rewrite len_nil. lia.
  - destruct (ProcessLine GetBytes env os cp (n + 1) t) as [[os1 cp1] [o|]] eqn:Hline.
    + intros [= <- <- <- <-]. split; [unfold len; simpl; lia|].
      by eapply ProcessLine_out.
    + intros Hrest. apply IH in Hrest. unfold len in *. simpl length.
      destruct out; [destruct Hrest; split; [lia|done]|lia].
Qed.

Lemma ProcessLines_app (toks1 toks2 : list (list byte)) os cp (n : Z) :
  ProcessLines GetBytes env (toks1 ++ toks2) os cp n
  = match ProcessLines GetBytes env toks1 os cp n with
    | (os1, cp1, n1, Some out) => (os1, cp1, n1, Some out)
    | (os1, cp1, n1, None) => ProcessLines GetBytes env toks2 os1 cp1 n1
    end.
Proof.
  revert os cp n. induction toks1 as [|t toks1 IH]; intros os cp n; simpl; [done|].
  destruct (ProcessLine GetBytes env os cp (n + 1) t) as [[os1 cp1] [out|]]; [done|].
  apply IH.
Qed.

(** An empty token changes nothing but the line number. *)
Lemma ProcessLines_blank (toks : list (list byte)) os cp (n : Z) :
  ProcessLines GetBytes env ([] :: toks) os cp n
  = ProcessLines GetBytes env toks os cp (n + 1).
Proof. reflexivity. Qed.

End Blank.

Lemma scan_lines_app (limit : Z) (ls1 ls2 : list (list byte)) :
  scan_lines limit (ls1 ++ ls2)
  = match scan_lines limit ls1 with
    | (toks1, Some e) => (toks1, Some e)
    | (toks1, None) =>
        let '(toks2, e) := scan_lines limit ls2 in (toks1 ++ toks2, e)
    end.
Proof.
  induction ls1 as [|l ls1 IH]; simpl.
  - by destruct (scan_lines limit ls2).
  - case_bool_decide; [|done]. rewrite IH.
    destruct (scan_lines limit ls1) as [toks1 [e|]]; [done|].
    by destruct (scan_lines limit ls2).
Qed.

(** C7, amended: a blank line is written to no file and is no record, but
    it is counted as a line.  Whatever stands before the blank line ([pre],
    empty or ending in a newline) and after it ([post]), scanning the input
    with the blank line and scanning it without leave the same files, writers
    and handles and return alike: nil in both cases, or the same error with
    the line number that counts the blank line, one more for an error after
    the blank line and the same for an error before it. *)
Theorem blank_line_skipped (GetBytes : list byte → string → Result) (env : Env)
    (os : OS) (cp : ChromosomeProcessor) (pre post : list byte) :
  pre = [] ∨ last pre = Some newline →
  (ProcessInput GetBytes env os cp (pre ++ newline :: post)).1
  = (ProcessInput GetBytes env os cp (pre ++ post)).1 ∧
  (ProcessInput GetBytes env os cp (pre ++ newline :: post)).2
  = count_blank (len (lines pre)) (ProcessInput GetBytes env os cp (pre ++ post)).2 ∧
  outcome_kind (ProcessInput GetBytes env os cp (pre ++ newline :: post)).2
  = outcome_kind (ProcessInput GetBytes env os cp (pre ++ post)).2.
Proof.
  intros Hpre.
  cut ((ProcessInput GetBytes env os cp (pre ++ newline :: post)).1
       = (ProcessInput GetBytes env os cp (pre ++ post)).1 ∧
       (ProcessInput GetBytes env os cp (pre ++ newline :: post)).2
       = count_blank (len (lines pre)) (ProcessInput GetBytes env os cp (pre ++ post)).2).
  { intros [H1 H2]. split_and!; [done|done|]. by rewrite H2, outcome_kind_count_blank. }
  unfold ProcessInput.
  fold (input_scanner (pre ++ newline :: post)). fold (input_scanner (pre ++ post)).
  rewrite !Scanner_run_input.
  rewrite !(lines_app_boundary pre) by done.
  change (lines (newline :: post)) with ([] :: lines post).
  rewrite !scan_lines_app.
  destruct (scan_lines max_line_size (lines pre)) as [toks1 e1] eqn:Hscan1.
  apply scan_lines_length in Hscan1.
  set (k := len (lines pre)) in *.
  destruct (ProcessLines GetBytes env toks1 os cp 0) as [[[os1 cp1] n1] out1] eqn:Hrun1.
  pose proof (ProcessLines_out GetBytes env _ _ _ _ _ _ _ _ Hrun1) as Hout1.
  destruct e1 as [e1|].
  { (* a line of [pre] does not fit: the scan ends before the blank line *)
    rewrite Hrun1. unfold k, len in *. destruct out1 as [o1|]; simpl.
    - destruct Hout1 as [Hm Hat]. split; [done|]. symmetry.
      eapply count_blank_before; [done|lia].
    - split; [done|]. by rewrite bool_decide_eq_false_2 by lia. }
  change (scan_lines max_line_size ([] :: lines post))
    with (let '(toks, e) := scan_lines max_line_size (lines post) in ([] :: toks, e)).
  destruct (scan_lines max_line_size (lines post)) as [toks2 e2].
  rewrite !ProcessLines_app, Hrun1.
  destruct out1 as [o1|].
  { destruct Hout1 as [Hm Hat]. simpl. split; [done|]. symmetry.
    eapply count_blank_before; [done|]. unfold k, len in *. lia. }
  rewrite ProcessLines_blank, ProcessLines_shift.
  destruct (ProcessLines GetBytes env toks2 os1 cp1 n1) as [[[os2 cp2] n2] out2] eqn:Hrun2.
  pose proof (ProcessLines_out GetBytes env _ _ _ _ _ _ _ _ Hrun2) as Hout2.
  assert (Hn1 : n1 = k) by (unfold k, len in *; lia).
  destruct out2 as [o2|]; simpl.
  - destruct Hout2 as [Hm Hat]. split; [done|]. symmetry.
    eapply count_blank_after; [done|lia].
  - destruct e2 as [e2|]; simpl.
    + split; [done|]. rewrite bool_decide_eq_true_2 by (pose proof (len_nonneg toks2); lia).
      done.
    + by destruct (FlushAllWriters env os2 cp2).
Qed.

Lemma blank_line_skipped_witness :
  (ProcessInput sample_GetBytes env_ok
     (InitializeOutputFiles env_ok (fresh_process ∅) sample_cp).1.1
     (InitializeOutputFiles env_ok (fresh_process ∅) sample_cp).1.2
     ((record1 ++ [newline]) ++ newline :: record3)).1
  = (ProcessInput sample_GetBytes env_ok
       (InitializeOutputFiles env_ok (fresh_process ∅) sample_cp).1.1
       (InitializeOutputFiles env_ok (fresh_process ∅) sample_cp).1.2
       ((record1 ++ [newline]) ++ record3)).1.
Proof.
  apply (blank_line_skipped sample_GetBytes env_ok _ _ (record1 ++ [newline]) record3).
  right. reflexivity.
Defined.

(** ** C9 and C10: runs compared *)

Lemma chrSet_same_names (inp pre field inp' pre' field' : string) (names names' : list string) :
  (∀ c, c ∈ names ↔ c ∈ names') →
  chrSet (NewChromosomeProcessor inp pre field names)
  = chrSet (NewChromosomeProcessor inp' pre' field' names').
Proof.
  intros Hsame. apply map_eq. intros k. simpl. rewrite !chrSet_foldl.
  destruct (decide (k ∈ names)) as [Hk|Hk].
  - rewrite decide_True; [done|]. by apply Hsame.
  - rewrite decide_False; [done|]. by rewrite <- Hsame.
Qed.

Lemma routed_output_ext GetBytes cp cp' (toks : list (list byte)) (c : string) :
  chrFieldName cp' = chrFieldName cp → chrSet cp' = chrSet cp →
  routed_output GetBytes cp' toks c = routed_output GetBytes cp toks c.
Proof.
  intros Hf Hs. unfold routed_output, routed_lines. f_equal. f_equal.
  apply list_filter_iff. intros t.
  unfold outputChr, ExtractChromosome, routeKey. by rewrite Hf, Hs.
Qed.

(** C9: a run in which nothing fails, repeated by a new process on the
    files the first run left, returns the same and leaves the same files:
    each output file holds the routed records once (created anew, not
    appended to), every other file is untouched. *)
Theorem rerun_identical (GetBytes : list byte → string → Result) (env : Env)
    (os os1 os2 : OS) (cp1 cp2 : ChromosomeProcessor) (out1 out2 : outcome)
    (inp pre field : string) (names : list string) (content : list byte) :
  let cp := NewChromosomeProcessor inp pre field names in
  let allChrs := names ++ [UnknownChr] in
  os_wf os →
  (∀ c, c ∈ allChrs → can_create env (output_filename pre c) = true) →
  (∀ c, c ∈ allChrs → can_write env (output_filename pre c) = true) →
  disk os !! inp = Some content →
  (∀ c, c ∈ allChrs → inp ≠ output_filename pre c) →
  ProcessFile GetBytes env os cp = (os1, cp1, out1) →
  ProcessFile GetBytes env (fresh_process (disk os1)) cp = (os2, cp2, out2) →
  disk os2 = disk os1 ∧ out2 = out1 ∧
  ∀ c, c ∈ allChrs →
    disk os2 !! output_filename pre c
    = Some (routed_output GetBytes cp (input_tokens content) c).
Proof.
  intros cp allChrs Hwf Hcc Hcw Hinp Hne Hrun1 Hrun2.
  destruct (ProcessFile_ok GetBytes env os inp pre field names content Hwf Hcc Hcw Hinp Hne)
    as (os1' & cp1' & Hrun1' & _ & Hd1 & Hfr1 & _).
  fold cp in Hrun1', Hd1. rewrite Hrun1 in Hrun1'. injection Hrun1' as <- <- ->.
  assert (Hinp1 : disk os1 !! inp = Some content) by (by rewrite Hfr1).
  destruct (ProcessFile_ok GetBytes env (fresh_process (disk os1)) inp pre field names content
              (fresh_process_wf _) Hcc Hcw Hinp1 Hne)
    as (os2' & cp2' & Hrun2' & _ & Hd2 & Hfr2 & _).
  fold cp in Hrun2', Hd2. rewrite Hrun2 in Hrun2'. injection Hrun2' as <- <- ->.
  split_and!; [|done|done].
  apply map_eq. intros q.
  destruct (decide (q ∈ map (output_filename pre) allChrs)) as [Hex|Hnex].
  - apply list_elem_of_fmap in Hex as (c & -> & Hc). by rewrite Hd1, Hd2.
  - rewrite Hfr2; [done|]. intros c Hc ->. apply Hnex. apply list_elem_of_fmap. by exists c.
Qed.

Lemma triple_eta {A B C : Type} (x : A * B * C) : x = (x.1.1, x.1.2, x.2).
Proof. by destruct x as [[? ?] ?]. Qed.

Lemma rerun_identical_witness :
  let os1 := (ProcessFile sample_GetBytes env_ok (sample_os sample_input) sample_cp).1.1 in
  disk (ProcessFile sample_GetBytes env_ok (fresh_process (disk os1)) sample_cp).1.1
  = disk os1.
Proof.
  destruct (rerun_identical sample_GetBytes env_ok (sample_os sample_input)
     (ProcessFile sample_GetBytes env_ok (sample_os sample_input) sample_cp).1.1
     (ProcessFile sample_GetBytes env_ok
        (fresh_process
           (disk (ProcessFile sample_GetBytes env_ok (sample_os sample_input) sample_cp).1.1))
        sample_cp).1.1
     (ProcessFile sample_GetBytes env_ok (sample_os sample_input) sample_cp).1.2
     (ProcessFile sample_GetBytes env_ok
        (fresh_process
           (disk (ProcessFile sample_GetBytes env_ok (sample_os sample_input) sample_cp).1.1))
        sample_cp).1.2
     (ProcessFile sample_GetBytes env_ok (sample_os sample_input) sample_cp).2
     (ProcessFile sample_GetBytes env_ok
        (fresh_process
           (disk (ProcessFile sample_GetBytes env_ok (sample_os sample_input) sample_cp).1.1))
        sample_cp).2
     "in.jsonl" "out" "chr" ["chr1"; "chr2"] sample_input) as (H & _).
  - apply fresh_process_wf.
  - reflexivity.
  - reflexivity.
  - reflexivity.
  - intros c Hc. set_unfold in Hc. destruct Hc as [->|[->|[->|[]]]]; done.
  - apply triple_eta.
  - apply triple_eta.
  - exact H.
Defined.

(** C10: a declared list with repeated names and the list without the
    repetitions give, in a run in which nothing fails, the same membership
    set, the same categories in the map of writers, the same return value and
    the same files. *)
Theorem duplicate_names_irrelevant (GetBytes : list byte → string → Result) (env : Env)
    (os os1 os2 : OS) (cp1 cp2 : ChromosomeProcessor) (out1 out2 : outcome)
    (inp pre field : string) (names : list string) (content : list byte) :
  let cp := NewChromosomeProcessor inp pre field names in
  let cp_nodup := NewChromosomeProcessor inp pre field (remove_dups names) in
  let allChrs := names ++ [UnknownChr] in
  os_wf os →
  (∀ c, c ∈ allChrs → can_create env (output_filename pre c) = true) →
  (∀ c, c ∈ allChrs → can_write env (output_filename pre c) = true) →
  disk os !! inp = Some content →
  (∀ c, c ∈ allChrs → inp ≠ output_filename pre c) →
  ProcessFile GetBytes env os cp = (os1, cp1, out1) →
  ProcessFile GetBytes env os cp_nodup = (os2, cp2, out2) →
  chrSet cp = chrSet cp_nodup ∧
  dom (outputWriters cp1) = dom (outputWriters cp2) ∧
  out1 = out2 ∧
  disk os1 = disk os2.
Proof.
  intros cp cp_nodup allChrs Hwf Hcc Hcw Hinp Hne Hrun1 Hrun2.
  assert (Hsame : ∀ c, c ∈ names ↔ c ∈ remove_dups names).
  { intros c. by rewrite elem_of_remove_dups. }
  assert (Hall : ∀ c, c ∈ remove_dups names ++ [UnknownChr] ↔ c ∈ allChrs).
  { intros c. unfold allChrs. rewrite !elem_of_app, elem_of_remove_dups. done. }
  assert (Hset : chrSet cp = chrSet cp_nodup) by (by apply chrSet_same_names).
  destruct (ProcessFile_ok GetBytes env os inp pre field names content Hwf Hcc Hcw Hinp Hne)
    as (os1' & cp1' & Hrun1' & _ & Hd1 & Hfr1 & _ & Hfl1 & Hno1).
  fold cp in Hrun1', Hd1. rewrite Hrun1 in Hrun1'. injection Hrun1' as <- <- ->.
  destruct (ProcessFile_ok GetBytes env os inp pre field (remove_dups names) content Hwf)
    as (os2' & cp2' & Hrun2' & _ & Hd2 & Hfr2 & _ & Hfl2 & Hno2).
  { intros c Hc. apply Hcc. by apply Hall. }
  { intros c Hc. apply Hcw. by apply Hall. }
  { done. }
  { intros c Hc. apply Hne. by apply Hall. }
  fold cp_nodup in Hrun2', Hd2. rewrite Hrun2 in Hrun2'. injection Hrun2' as <- <- ->.
  split_and!; [done| |done|].
  - apply set_eq. intros c. rewrite !elem_of_dom.
    destruct (decide (c ∈ allChrs)) as [Hc|Hc].
    + destruct (Hfl1 c Hc) as (w1 & -> & _).
      destruct (Hfl2 c) as (w2 & -> & _); [by apply Hall|]. split; by eexists.
    + rewrite (Hno1 c Hc), (Hno2 c); [done|]. by rewrite Hall.
  - apply map_eq. intros q.
    destruct (decide (q ∈ map (output_filename pre) allChrs)) as [Hex|Hnex].
    + apply list_elem_of_fmap in Hex as (c & -> & Hc).
      rewrite (Hd1 c Hc), (Hd2 c) by (by apply Hall).
      f_equal. by apply routed_output_ext.
    + rewrite Hfr1, Hfr2; [done| |].
      * intros c Hc ->. apply Hnex. apply list_elem_of_fmap. exists c. split; [done|].
        by apply Hall.
      * intros c Hc ->. apply Hnex. apply list_elem_of_fmap. by exists c.
Qed.

Lemma duplicate_names_irrelevant_witness :
  disk (ProcessFile sample_GetBytes env_ok (sample_os sample_input)
          (NewChromosomeProcessor "in.jsonl" "out" "chr" ["chr1"; "chr2"; "chr1"])).1.1
  = disk (ProcessFile sample_GetBytes env_ok (sample_os sample_input)
            (NewChromosomeProcessor "in.jsonl" "out" "chr"
               (remove_dups ["chr1"; "chr2"; "chr1"]))).1.1.
Proof.
  pose (r1 := ProcessFile sample_GetBytes env_ok (sample_os sample_input)
                (NewChromosomeProcessor "in.jsonl" "out" "chr" ["chr1"; "chr2"; "chr1"])).
  pose (r2 := ProcessFile sample_GetBytes env_ok (sample_os sample_input)
                (NewChromosomeProcessor "in.jsonl" "out" "chr"
                   (remove_dups ["chr1"; "chr2"; "chr1"]))).
  destruct (duplicate_names_irrelevant sample_GetBytes env_ok (sample_os sample_input)
     r1.1.1 r2.1.1 r1.1.2 r2.1.2 r1.2 r2.2
     "in.jsonl" "out" "chr" ["chr1"; "chr2"; "chr1"] sample_input
     (fresh_process_wf _)) as (_ & _ & _ & H).
  - reflexivity.
  - reflexivity.
  - reflexivity.
  - intros c Hc. set_unfold in Hc. destruct Hc as [->|[->|[->|[->|[]]]]]; done.
  - apply triple_eta.
  - apply triple_eta.
  - exact H.
Defined.

(** ** ExtractChromosome over the JSON lookup *)

(** ExtractChromosome reports a key exactly when the lookup's result
    exists, returns its string form then and the empty string otherwise, and
    reads nothing of the processor but the field name. *)
Lemma ExtractChromosome_lookup (GetBytes : list byte → string → Result)
    (cp : ChromosomeProcessor) (line : list byte) :
  (ExtractChromosome GetBytes cp line).2 = Exists (GetBytes line (chrFieldName cp)) ∧
  (ExtractChromosome GetBytes cp line).1
  = (if Exists (GetBytes line (chrFieldName cp))
     then ResultString (GetBytes line (chrFieldName cp)) else "") ∧
  ∀ cp', chrFieldName cp' = chrFieldName cp →
         ExtractChromosome GetBytes cp' line = ExtractChromosome GetBytes cp line.
Proof.
  unfold ExtractChromosome. split_and!.
  - by destruct (Exists _).
  - by destruct (Exists _).
  - intros cp' ->. done.
Qed.

(** ** The library models: the loop of Write and the calls of Scan *)

Lemma IndexByte_Some (data : list byte) (c : byte) (i : nat) :
  IndexByte data c = Some i →
  data = take i data ++ c :: drop (S i) data ∧ (c ∉ take i data) ∧ i < length data.
Proof.
  revert i. induction data as [|b rest IH]; intros i; simpl; [done|].
  destruct (decide (b = c)) as [->|Hne].
  - intros [= <-]. simpl. rewrite drop_0.
    split_and!; [done|by intros ?%elem_of_nil|lia].
  - destruct (IndexByte rest c) as [j|] eqn:Hj; [|done]. simpl. intros [= <-].
    destruct (IH j eq_refl) as (Heq & Hnot & Hlt). simpl. split_and!.
    + by rewrite <- Heq.
    + intros [?|?]%elem_of_cons; done.
    + lia.
Qed.

Lemma IndexByte_None (data : list byte) (c : byte) :
  IndexByte data c = None → c ∉ data.
Proof.
  induction data as [|b rest IH]; simpl; [by intros _ ?%elem_of_nil|].
  destruct (decide (b = c)); [done|].
  destruct (IndexByte rest c); [done|]. intros _ [?|?]%elem_of_cons; [done|]. by apply IH.
Qed.

Lemma IndexByte_take (data : list byte) (c : byte) (n : nat) :
  IndexByte (take n data) c
  = match IndexByte data c with
    | Some i => if decide (i < n) then Some i else None
    | None => None
    end.
Proof.
  revert n. induction data as [|b rest IH]; intros [|n]; simpl; try done.
  - by destruct (decide (b = c)); [|destruct (IndexByte rest c)].
  - destruct (decide (b = c)); [done|]. rewrite IH.
    destruct (IndexByte rest c) as [i|]; [|done]. simpl.
    destruct (decide (i < n)), (decide (S i < S n)); simpl; (done || lia).
Qed.

(** A call of Scan yields the first token of [Scanner_run] and leaves a
    scanner that yields the rest; the call that returns false leaves the
    error that [Scanner_run] reports. *)
Lemma Scanner_run_Scan (s : Scanner) :
  serr s = None → (0 < buffer_limit s)%Z →
  Scanner_run s
  = match Scan s with
    | (true, s') => let '(toks, e) := Scanner_run s' in (token s' :: toks, e)
    | (false, s') => ([], serr s')
    end.
Proof.
  intros Herr Hlimit. unfold Scanner_run at 1, Scan. rewrite Herr.
  set (limit := buffer_limit s) in *. set (data := unread s).
  assert (Hstep : ∀ i, IndexByte data newline = Some i → (Z.of_nat i < limit)%Z →
            scan_lines limit (lines data)
            = (let '(toks, e) := scan_lines limit (lines (drop (i + 1) data)) in
               (dropCR (take i data) :: toks, e))).
  { intros i Hi Hlt. destruct (IndexByte_Some _ _ _ Hi) as (Heq & Hnot & Hlen).
    rewrite Heq at 1. rewrite lines_app_newline by done. simpl.
    rewrite bool_decide_eq_true_2 by (unfold len; rewrite length_take; lia).
    by rewrite Nat.add_1_r. }
  case_bool_decide as Heof.
  - (* the whole rest of the file is in the buffer *)
    unfold ScanLines. simpl andb. case_bool_decide as Hnil.
    { rewrite Hnil. done. }
    destruct (IndexByte data newline) as [i|] eqn:Hi.
    + unfold Scanner_run. simpl. fold data. apply Hstep; [done|].
      destruct (IndexByte_Some _ _ _ Hi) as (_ & _ & Hlen). unfold len in Heof. lia.
    + unfold Scanner_run. simpl. fold data. rewrite drop_all. simpl.
      rewrite lines_no_newline by (done || by apply IndexByte_None). simpl.
      by rewrite bool_decide_eq_true_2.
  - (* the buffer is full *)
    unfold ScanLines. simpl andb. cbv iota. rewrite IndexByte_take.
    destruct (IndexByte data newline) as [i|] eqn:Hi.
    + destruct (decide (i < Z.to_nat limit)) as [Hlt|Hge].
      * unfold Scanner_run. simpl. fold data.
        rewrite take_take, Nat.min_l by lia. apply Hstep; [done|lia].
      * simpl. destruct (IndexByte_Some _ _ _ Hi) as (Heq & Hnot & Hlen).
        rewrite Heq. rewrite lines_app_newline by done. simpl.
        rewrite bool_decide_eq_false_2; [done|]. unfold len. rewrite length_take. lia.
    + simpl. assert (Hne : data ≠ []).
      { intros Hd. rewrite Hd in Heof. unfold len in Heof. simpl in Heof. lia. }
      rewrite lines_no_newline by (done || by apply IndexByte_None). simpl.
      by rewrite bool_decide_eq_false_2.
Qed.

(** The loop of Writer.Write ends after at most two passes. *)
Lemma Write_pass_twice (env : Env) (os : OS) (b : Writer) (p : list byte) :
  (0 < size b)%Z → Write_more b p = true →
  ∀ os1 b1 p1, Write_pass env os b p = (os1, b1, p1) → Write_more b1 p1 = true →
  ∀ os2 b2 p2, Write_pass env os1 b1 p1 = (os2, b2, p2) → Write_more b2 p2 = false.
Proof.
  intros Hsize Hmore os1 b1 p1 Hpass1 Hmore1 os2 b2 p2 Hpass2.
  assert (Hfalse : ∀ (w : Writer) (q : list byte),
            werr w ≠ None ∨ (q = [] ∧ (0 ≤ Available w)%Z) → Write_more w q = false).
  { intros w q [He|[-> Ha]]; unfold Write_more.
    - rewrite (bool_decide_eq_false_2 (werr w = None)) by done. apply andb_false_r.
    - rewrite bool_decide_eq_false_2; [done|]. rewrite len_nil. lia. }
  assert (Hdirect : ∀ os w q os' w' q',
            buf w = [] → (0 < size w)%Z →
            (match File_Write env os (wr w) q with
             | (os', Some e) => (os', set_werr w (Some e), q)
             | (os', None) => (os', w, [])
             end) = (os', w', q') → Write_more w' q' = false).
  { intros os0 w q os' w' q' Hb Hs. destruct (File_Write env os0 (wr w) q) as [os'' [e|]].
    - intros [= <- <- <-]. apply Hfalse. by left.
    - intros [= <- <- <-]. apply Hfalse. right. split; [done|].
      unfold Available, len. rewrite Hb. simpl. lia. }
  unfold Write_pass in Hpass1. case_bool_decide as Hempty.
  - apply len_zero_nil in Hempty.
    rewrite (Hdirect _ _ _ _ _ _ Hempty Hsize Hpass1) in Hmore1. done.
  - set (w1 := set_buf b (buf b ++ take (Z.to_nat (Available b)) p)) in *.
    assert (Hb1 : buf b1 = [] ∧ size b1 = size b).
    { unfold Flush in Hpass1. destruct (werr w1) as [e|] eqn:He.
      - injection Hpass1 as <- <- <-. rewrite (Hfalse w1) in Hmore1; [done|].
        left. by rewrite He.
      - destruct (buf w1) as [|c l] eqn:Hb.
        + injection Hpass1 as <- <- <-. done.
        + destruct (File_Write env os (wr w1) (c :: l)) as [os' [e|]].
          * injection Hpass1 as <- <- <-. by rewrite (Hfalse (set_werr w1 (Some e))) in Hmore1; [|left].
          * injection Hpass1 as <- <- <-. done. }
    destruct Hb1 as [Hb1 Hs1]. unfold Write_pass in Hpass2.
    unfold Buffered in Hpass2. rewrite Hb1, len_nil in Hpass2.
    rewrite bool_decide_eq_true_2 in Hpass2 by done.
    eapply Hdirect; [exact Hb1| |exact Hpass2]. by rewrite Hs1.
Qed.

(** * Further properties of main.go *)

(** ** ProcessFile returns *)

Lemma ProcessInput_returns (GetBytes : list byte → string → Result) (env : Env)
    (os : OS) (cp : ChromosomeProcessor) (content : list byte) :
  is_Some (outputWriters cp !! UnknownChr) →
  ∃ err, (ProcessInput GetBytes env os cp content).2 = Returned err.
Proof.
  intros HU. unfold ProcessInput.
  destruct (Scanner_run _) as [toks scan_err].
  destruct (ProcessLines GetBytes env toks os cp 0) as [[[os1 cp1] n] out] eqn:Hlines.
  destruct (ProcessLines_returns _ _ _ _ _ _ _ _ _ _ HU Hlines) as [->|[err ->]].
  - destruct scan_err; [by eexists|]. destruct (FlushAllWriters env os1 cp1). by eexists.
  - by eexists.
Qed.

Lemma ProcessFile_returns (GetBytes : list byte → string → Result) (env : Env)
    (os : OS) (cp : ChromosomeProcessor) :
  ∃ err, (ProcessFile GetBytes env os cp).2 = Returned err.
Proof.
  unfold ProcessFile, InitializeOutputFiles.
  destruct (InitializeOutputFiles_loop env _ os cp) as [[os1 cp1] [e|]] eqn:Hinit.
  { by eexists. }
  destruct (InitializeOutputFiles_loop_success env _ _ _ _ _ Hinit) as (_ & _ & Hdom).
  assert (HU : is_Some (outputWriters cp1 !! UnknownChr)).
  { apply Hdom. left. apply elem_of_app. right. by left. }
  unfold ProcessFile_after_init.
  destruct (os_Open os1 (inputFile cp1)) as [os2 [[file content]|e]].
  - destruct (ProcessInput_returns GetBytes env os2 cp1 content HU) as [err Herr].
    destruct (ProcessInput GetBytes env os2 cp1 content) as [[os3 cp3] out3].
    destruct (CloseAllFiles env _ cp3). simpl in *. by exists err.
  - destruct (CloseAllFiles env os2 cp1). by eexists.
Qed.

(** X1: ProcessFile never dereferences a nil writer.  InitializeOutputFiles
    puts the writer of UnknownChr in the map before the first line is read,
    so GetOutputWriter always has a writer to return: whatever the processor,
    the files and the failures of the system, ProcessFile does not panic. *)
Theorem ProcessFile_no_panic (GetBytes : list byte → string → Result) (env : Env)
    (os : OS) (cp : ChromosomeProcessor) :
  (ProcessFile GetBytes env os cp).2 ≠ Panic.
Proof. destruct (ProcessFile_returns GetBytes env os cp) as [err ->]. done. Qed.

(** ** Writers with nothing to flush *)

Section Idle.

Variable env : Env.

(** Flush does nothing on a writer whose buffer is empty or whose error is
    set. *)
Lemma Flush_idle (os : OS) (w : Writer) :
  flushed_or_failed w → ∃ e, Flush env os w = (os, w, e).
Proof.
  unfold Flush. intros [Hb|He].
  - destruct (werr w); [by eexists|]. rewrite Hb. by eexists.
  - destruct (werr w); [by eexists|done].
Qed.

Lemma FlushWriters_idle (keys : list string) (os : OS) (ws : gmap string Writer) :
  (∀ k w, ws !! k = Some w → flushed_or_failed w) →
  FlushWriters env keys os ws = (os, ws).
Proof.
  intros Hidle. induction keys as [|k keys IH]; simpl; [done|].
  destruct (ws !! k) as [w|] eqn:Hk; [|done].
  destruct (Flush_idle os w (Hidle _ _ Hk)) as [e ->]. by rewrite insert_id.
Qed.

Lemma CloseAllFiles_idle (os : OS) (cp : ChromosomeProcessor) :
  (∀ k w, outputWriters cp !! k = Some w → flushed_or_failed w) →
  CloseAllFiles env os cp
  = (CloseFiles (map_keys (outputFiles cp)) os (outputFiles cp), cp).
Proof.
  intros Hidle. unfold CloseAllFiles, FlushAllWriters.
  rewrite FlushWriters_idle by done. by destruct cp.
Qed.

End Idle.

(** ** The handles of a run *)

(** [handles_inv n0 os cp]: the handles from [n0] on that are open are the
    handles of the map of files, and the map holds no handle below [n0]. *)
Definition handles_inv (n0 : nat) (os : OS) (cp : ChromosomeProcessor) : Prop :=
  os_wf os ∧ n0 ≤ next_handle os ∧
  (∀ c h, outputFiles cp !! c = Some h → n0 ≤ h) ∧
  (∀ h, n0 ≤ h → is_Some (open_files os !! h) → ∃ c, outputFiles cp !! c = Some h).

Lemma handles_inv_fresh (os : OS) (inp pre field : string) (names : list string) :
  os_wf os → handles_inv (next_handle os) os (NewChromosomeProcessor inp pre field names).
Proof.
  intros Hwf. split_and!; [done|done| |].
  - intros c h Hc. simpl in Hc. by rewrite lookup_empty in Hc.
  - intros h Hh [f Hf]. rewrite (Hwf h Hh) in Hf. done.
Qed.

(** The loop of CloseAllFiles closes the handles from [n0] on and no
    other. *)
Lemma CloseFiles_handles (n0 : nat) (os : OS) (cp : ChromosomeProcessor) :
  handles_inv n0 os cp →
  let os' := CloseFiles (map_keys (outputFiles cp)) os (outputFiles cp) in
  disk os' = disk os ∧ next_handle os' = next_handle os ∧
  (∀ h, h < n0 → open_files os' !! h = open_files os !! h) ∧
  (∀ h, n0 ≤ h → open_files os' !! h = None).
Proof.
  intros (Hwf & Hn0 & Hlow & Hhigh) os'.
  destruct (CloseFiles_spec (map_keys (outputFiles cp)) os (outputFiles cp))
    as (Hd & Hn & Hnone & Hcl & Hkeep).
  split_and!; [done|done| |].
  - intros h Hh. apply Hkeep. intros k _ Hk. apply Hlow in Hk. lia.
  - intros h Hh. destruct (open_files os !! h) as [f|] eqn:Hf; [|by apply Hnone].
    destruct (Hhigh h Hh) as [c Hc]; [by exists f|].
    apply (Hcl c h); [|done]. unfold map_keys. rewrite elem_of_elements, elem_of_dom.
    by exists h.
Qed.

Section InitFailure.

Variable env : Env.

(** The loop of InitializeOutputFiles over distinct names that are not yet
    in the map, when it ends in an error: the names before the one whose
    file cannot be created have an empty file each, no other file has
    changed, and every handle opened by the loop is closed again. *)
Lemma InitializeOutputFiles_loop_failure (n0 : nat) (names : list string)
    (os : OS) (cp : ChromosomeProcessor) (os' : OS) (cp' : ChromosomeProcessor)
    (err : error) :
  NoDup names → (∀ c, c ∈ names → outputFiles cp !! c = None) →
  handles_inv n0 os cp →
  (∀ c w, outputWriters cp !! c = Some w → flushed_or_failed w) →
  InitializeOutputFiles_loop env names os cp = (os', cp', Some err) →
  ∃ created chr rest,
    names = created ++ chr :: rest ∧
    (∀ c, c ∈ created → can_create env (output_filename (prefix cp) c) = true) ∧
    can_create env (output_filename (prefix cp) chr) = false ∧
    err = FailedCreateOutput (output_filename (prefix cp) chr) ErrCreate ∧
    (∀ h, h < n0 → open_files os' !! h = open_files os !! h) ∧
    (∀ h, n0 ≤ h → open_files os' !! h = None) ∧
    (∀ c, c ∈ created → disk os' !! output_filename (prefix cp) c = Some []) ∧
    (∀ q, (∀ c, c ∈ created → q ≠ output_filename (prefix cp) c) →
          disk os' !! q = disk os !! q).
Proof.
  intros Hnd. revert os cp.
  induction Hnd as [|chr names Hnotin Hnd IH]; intros os cp Hnew Hinv Hidle Hinit; [done|].
  simpl in Hinit. unfold os_Create in Hinit.
  destruct (can_create env (output_filename (prefix cp) chr)) eqn:Hcc.
  - (* the file of [chr] is created *)
    destruct Hinv as (Hwf & Hn0 & Hlow & Hhigh).
    apply IH in Hinit; simpl.
    + destruct Hinit as (created & c0 & rest & -> & Hcreated & Hc0 & -> & Ho1 & Ho2 & Hd1 & Hd2).
      simpl in *. exists (chr :: created), c0, rest. split_and!; try done.
      * intros c [->|Hc]%elem_of_cons; [done|by apply Hcreated].
      * intros h Hh. rewrite Ho1 by done. rewrite lookup_insert_ne by lia. done.
      * intros c [->|Hc]%elem_of_cons; [|by apply Hd1].
        rewrite Hd2; [by rewrite lookup_insert_eq|].
        intros c Hc Heq. apply output_filename_inj in Heq as ->.
        apply Hnotin. apply elem_of_app. by left.
      * intros q Hq. rewrite Hd2 by (intros c Hc; apply Hq; by right).
        rewrite lookup_insert_ne; [done|]. intros <-. by apply (Hq chr); [left|].
    + intros c Hc. rewrite lookup_insert_ne; [apply Hnew; by right|].
      intros <-. done.
    + split_and!; simpl.
      * intros h Hh. simpl in *. rewrite lookup_insert_ne by lia. apply Hwf. lia.
      * lia.
      * intros c h. destruct (decide (c = chr)) as [->|Hne].
        -- rewrite lookup_insert_eq. intros [= <-]. done.
        -- rewrite lookup_insert_ne by done. apply Hlow.
      * intros h Hh Hopen. destruct (decide (h = next_handle os)) as [->|Hne].
        -- exists chr. by rewrite lookup_insert_eq.
        -- rewrite lookup_insert_ne in Hopen by done.
           destruct (Hhigh h Hh Hopen) as [c Hc]. exists c.
           rewrite lookup_insert_ne; [done|]. intros <-.
           rewrite Hnew in Hc by (by left). done.
    + intros c w. destruct (decide (c = chr)) as [->|Hne].
      * rewrite lookup_insert_eq. intros [= <-]. by left.
      * rewrite lookup_insert_ne by done. apply Hidle.
  - (* the file of [chr] cannot be created *)
    rewrite CloseAllFiles_idle in Hinit by done. injection Hinit as <- <- <-.
    destruct (CloseFiles_handles n0 os cp Hinv) as (Hd & _ & Ho1 & Ho2).
    exists [], chr, names. split_and!; try done.
    + intros c Hc. by apply elem_of_nil in Hc.
    + intros c Hc. by apply elem_of_nil in Hc.
    + intros q _. by rewrite Hd.
Qed.

End InitFailure.

(** X2: when the declared names are distinct and do not name the sentinel
    and InitializeOutputFiles returns an error, no file is left open: the
    open files are those of before the call.  The error names the first file
    that cannot be created; the names before it have an empty file each and
    no other file has changed. *)
Theorem InitializeOutputFiles_failure_releases (env : Env) (os os' : OS)
    (cp' : ChromosomeProcessor) (err : error) (inp pre field : string)
    (names : list string) :
  os_wf os → NoDup (names ++ [UnknownChr]) →
  InitializeOutputFiles env os (NewChromosomeProcessor inp pre field names)
  = (os', cp', Some err) →
  open_files os' = open_files os ∧
  ∃ created chr rest,
    names ++ [UnknownChr] = created ++ chr :: rest ∧
    (∀ c, c ∈ created → can_create env (output_filename pre c) = true) ∧
    can_create env (output_filename pre chr) = false ∧
    err = FailedCreateOutput (output_filename pre chr) ErrCreate ∧
    (∀ c, c ∈ created → disk os' !! output_filename pre c = Some []) ∧
    (∀ q, (∀ c, c ∈ created → q ≠ output_filename pre c) → disk os' !! q = disk os !! q).
Proof.
  intros Hwf Hnd Hinit. unfold InitializeOutputFiles in Hinit.
  apply (InitializeOutputFiles_loop_failure env (next_handle os)) in Hinit; try done.
  - destruct Hinit as (created & chr & rest & Heq & Hcr & Hc & -> & Ho1 & Ho2 & Hd1 & Hd2).
    split; [|by exists created, chr, rest].
    apply map_eq. intros h. destruct (decide (h < next_handle os)) as [Hlt|Hge].
    + by apply Ho1.
    + rewrite Ho2 by lia. symmetry. apply Hwf. lia.
  - by apply handles_inv_fresh.
Qed.

Lemma InitializeOutputFiles_failure_releases_witness :
  let r := InitializeOutputFiles env_missing_dir (fresh_process ∅)
             (NewChromosomeProcessor "in.jsonl" "out" "chr" ["chr1"; "x/y"; "chr2"]) in
  open_files r.1.1 = ∅.
Proof.
  destruct (InitializeOutputFiles_failure_releases env_missing_dir (fresh_process ∅)
    (InitializeOutputFiles env_missing_dir (fresh_process ∅)
       (NewChromosomeProcessor "in.jsonl" "out" "chr" ["chr1"; "x/y"; "chr2"])).1.1
    (InitializeOutputFiles env_missing_dir (fresh_process ∅)
       (NewChromosomeProcessor "in.jsonl" "out" "chr" ["chr1"; "x/y"; "chr2"])).1.2
    (FailedCreateOutput "out_x/y.jsonl" ErrCreate)
    "in.jsonl" "out" "chr" ["chr1"; "x/y"; "chr2"]) as [H _].
  - apply fresh_process_wf.
  - by apply (bool_decide_unpack _).
  - by vm_compute.
  - exact H.
Defined.

(** ** An input that is missing, and an input that is an output file *)

Section NoRecords.

Variable GetBytes : list byte → string → Result.
Variable env : Env.

(** After InitializeOutputFiles every output file is empty and no writer
    holds a byte. *)
Lemma InitializeOutputFiles_idle (os : OS) (inp pre field : string)
    (names : list string) :
  let cp := NewChromosomeProcessor inp pre field names in
  let allChrs := names ++ [UnknownChr] in
  os_wf os →
  (∀ c, c ∈ allChrs → can_create env (output_filename pre c) = true) →
  ∃ os1 cp1,
    InitializeOutputFiles env os cp = (os1, cp1, None) ∧
    inputFile cp1 = inp ∧
    (∀ k w, outputWriters cp1 !! k = Some w → flushed_or_failed w) ∧
    (∀ c, c ∈ allChrs → disk os1 !! output_filename pre c = Some []) ∧
    (∀ q, (∀ c, c ∈ allChrs → q ≠ output_filename pre c) → disk os1 !! q = disk os !! q).
Proof.
  intros cp allChrs Hwf Hcc.
  assert (Hok0 : streams_ok os cp ∅ (λ _, [])).
  { split; [intros c Hc; by apply elem_of_empty in Hc|]. intros c _. split; apply lookup_empty. }
  destruct (InitializeOutputFiles_loop_ok env allChrs os cp ∅ Hwf Hok0 Hcc)
    as (os1 & cp1 & Hinit & _ & [Hin Hout] & (Hinp & Hpre & _) & Hd).
  simpl in Hinp, Hpre. exists os1, cp1. split_and!; try done.
  - intros k w Hk. destruct (decide (k ∈ allChrs)) as [Hc|Hc].
    + destruct (Hin k) as (w' & Hw' & _ & _ & _ & _ & content & _ & _ & HL).
      { apply elem_of_union. right. by apply elem_of_list_to_set. }
      rewrite Hk in Hw'. injection Hw' as <-.
      symmetry in HL. apply app_eq_nil in HL as [_ Hb]. by left.
    + destruct (Hout k) as [Hnone _]; [|congruence].
      intros [?%elem_of_empty|?%elem_of_list_to_set]%elem_of_union; done.
  - intros c Hc. destruct (Hin c) as (w & _ & _ & _ & _ & _ & content & Hdc & _ & HL).
    { apply elem_of_union. right. by apply elem_of_list_to_set. }
    symmetry in HL. apply app_eq_nil in HL as [-> _]. by rewrite Hpre in Hdc.
Qed.

(** X3: when the input file does not exist (and every output file can be
    created), ProcessFile returns the error of os.Open, but only after
    InitializeOutputFiles has run: every output file exists and is empty,
    whatever it held before the call.  No other file has changed and the
    files of the map are closed. *)
Theorem ProcessFile_missing_input (os : OS) (inp pre field : string)
    (names : list string) :
  let cp := NewChromosomeProcessor inp pre field names in
  let allChrs := names ++ [UnknownChr] in
  os_wf os →
  (∀ c, c ∈ allChrs → can_create env (output_filename pre c) = true) →
  disk os !! inp = None →
  (∀ c, c ∈ allChrs → inp ≠ output_filename pre c) →
  ∃ os' cp',
    ProcessFile GetBytes env os cp
    = (os', cp', Returned (Some (FailedOpenInput ErrNotExist))) ∧
    (∀ c, c ∈ allChrs → disk os' !! output_filename pre c = Some []) ∧
    (∀ q, (∀ c, c ∈ allChrs → q ≠ output_filename pre c) → disk os' !! q = disk os !! q) ∧
    (∀ c h, outputFiles cp' !! c = Some h → open_files os' !! h = None).
Proof.
  intros cp allChrs Hwf Hcc Hinp Hne.
  destruct (InitializeOutputFiles_idle os inp pre field names Hwf Hcc)
    as (os1 & cp1 & Hinit & Hinp1 & Hidle & Hd1 & Hfr).
  subst cp. unfold ProcessFile. rewrite Hinit. unfold ProcessFile_after_init, os_Open.
  rewrite Hinp1, (Hfr inp Hne), Hinp. rewrite CloseAllFiles_idle by done.
  destruct (CloseFiles_spec (map_keys (outputFiles cp1)) os1 (outputFiles cp1))
    as (Hd & _ & _ & Hcl & _).
  eexists _, _. split; [reflexivity|]. split_and!.
  - intros c Hc. rewrite Hd. by apply Hd1.
  - intros q Hq. rewrite Hd. by apply Hfr.
  - intros c h Hc. apply (Hcl c h); [|done].
    unfold map_keys. rewrite elem_of_elements, elem_of_dom. by exists h.
Qed.

(** X4: when the input path is the path of one of the output files,
    InitializeOutputFiles truncates the input before it is opened: ProcessFile
    reads no line, returns nil, and leaves the input file and every other
    output file empty, whatever the input held. *)
Theorem ProcessFile_input_is_output (os : OS) (inp pre field : string)
    (names : list string) (chr : string) :
  let cp := NewChromosomeProcessor inp pre field names in
  let allChrs := names ++ [UnknownChr] in
  os_wf os →
  (∀ c, c ∈ allChrs → can_create env (output_filename pre c) = true) →
  chr ∈ allChrs → inp = output_filename pre chr →
  ∃ os' cp',
    ProcessFile GetBytes env os cp = (os', cp', Returned None) ∧
    disk os' !! inp = Some [] ∧
    (∀ c, c ∈ allChrs → disk os' !! output_filename pre c = Some []) ∧
    (∀ q, (∀ c, c ∈ allChrs → q ≠ output_filename pre c) → disk os' !! q = disk os !! q).
Proof.
  intros cp allChrs Hwf Hcc Hchr Hinp.
  destruct (InitializeOutputFiles_idle os inp pre field names Hwf Hcc)
    as (os1 & cp1 & Hinit & Hinp1 & Hidle & Hd1 & Hfr).
  subst cp. unfold ProcessFile. rewrite Hinit. unfold ProcessFile_after_init, os_Open.
  rewrite Hinp1, Hinp, (Hd1 chr Hchr).
  unfold ProcessInput. change (Scanner_run _) with (@nil (list byte), @None io_error).
  cbn [ProcessLines]. unfold FlushAllWriters. rewrite FlushWriters_idle by done.
  assert (Hcp : set_outputWriters cp1 (outputWriters cp1) = cp1) by (by destruct cp1).
  rewrite Hcp. rewrite CloseAllFiles_idle by done.
  destruct (CloseFiles_spec (map_keys (outputFiles cp1))
              (File_Close {| disk := disk os1;
                             open_files := <[next_handle os1 :=
                               {| of_path := output_filename pre chr; of_offset := 0 |}]>
                               (open_files os1);
                             next_handle := S (next_handle os1) |} (next_handle os1)).1
              (outputFiles cp1)) as (Hd & _).
  destruct (File_Close_spec {| disk := disk os1;
                             open_files := <[next_handle os1 :=
                               {| of_path := output_filename pre chr; of_offset := 0 |}]>
                               (open_files os1);
                             next_handle := S (next_handle os1) |} (next_handle os1))
    as (Hd' & _).
  rewrite Hd' in Hd. simpl in Hd.
  eexists _, _. split; [reflexivity|]. split_and!.
  - rewrite Hd. by apply Hd1.
  - intros c Hc. rewrite Hd. by apply Hd1.
  - intros q Hq. rewrite Hd. by apply Hfr.
Qed.

End NoRecords.

Lemma ProcessFile_missing_input_witness :
  let r := ProcessFile sample_GetBytes env_ok (fresh_process ∅) sample_cp in
  r.2 = Returned (Some (FailedOpenInput ErrNotExist)) ∧
  disk r.1.1 !! "out_chr1.jsonl" = Some [].
Proof.
  destruct (ProcessFile_missing_input sample_GetBytes env_ok (fresh_process ∅)
              "in.jsonl" "out" "chr" ["chr1"; "chr2"]) as (os' & cp' & Hrun & Hd & _).
  - apply fresh_process_wf.
  - reflexivity.
  - reflexivity.
  - intros c Hc. set_unfold in Hc. destruct Hc as [->|[->|[->|[]]]]; done.
  - unfold sample_cp. cbv zeta. rewrite Hrun. split; [reflexivity|].
    apply (Hd "chr1"). set_unfold. tauto.
Defined.

Lemma ProcessFile_input_is_output_witness :
  let os := fresh_process {[ "out_chr1.jsonl" := sample_input ]} in
  let r := ProcessFile sample_GetBytes env_ok os
             (NewChromosomeProcessor "out_chr1.jsonl" "out" "chr" ["chr1"; "chr2"]) in
  r.2 = Returned None ∧ disk r.1.1 !! "out_chr1.jsonl" = Some [].
Proof.
  destruct (ProcessFile_input_is_output sample_GetBytes env_ok
              (fresh_process {[ "out_chr1.jsonl" := sample_input ]})
              "out_chr1.jsonl" "out" "chr" ["chr1"; "chr2"] "chr1")
    as (os' & cp' & Hrun & Hd & _).
  - apply fresh_process_wf.
  - reflexivity.
  - set_unfold. tauto.
  - reflexivity.
  - cbv zeta. rewrite Hrun. split; [reflexivity|exact Hd].
Defined.

(** ** The names on the command line *)

(** A stand-in for strings.TrimSpace on ASCII strings: it drops the leading
    and trailing tabs, line feeds, vertical tabs, form feeds, carriage
    returns and spaces. *)
Definition is_space (c : Ascii.ascii) : bool :=
  bool_decide (c ∈ ["009"; "010"; "011"; "012"; "013"; " "]%char).

Fixpoint trim_left (s : string) : string :=
  match s with
  | EmptyString => EmptyString
  | String c rest => if is_space c then trim_left rest else s
  end.

Definition sample_TrimSpace (s : string) : string :=
  String.rev (trim_left (String.rev (trim_left s))).

Lemma parseChromosomeNames_loop_filter (TrimSpace : string → string)
    (parts chrNames : list string) :
  parseChromosomeNames_loop TrimSpace parts chrNames
  = chrNames ++ filter (λ name, name ≠ EmptyString) (TrimSpace <$> parts).
Proof.
  revert chrNames. induction parts as [|part parts IH]; intros chrNames; simpl.
  - by rewrite app_nil_r.
  - destruct (decide (TrimSpace part ≠ EmptyString)) as [Hne|He].
    + rewrite IH, filter_cons_True by done. by rewrite <- app_assoc.
    + rewrite IH, filter_cons_False by done. done.
Qed.

Lemma Split_no_sep (s : string) (sep : Ascii.ascii) :
  sep ∉ String.list_ascii_of_string s → Split s sep = [s].
Proof.
  induction s as [|c s IH]; simpl; [done|]. intros Hnot.
  destruct (decide (c = sep)) as [->|Hne].
  - exfalso. apply Hnot. by left.
  - rewrite IH; [done|]. intros Hin. apply Hnot. by right.
Qed.

Lemma Split_app_sep (s t : string) (sep : Ascii.ascii) :
  sep ∉ String.list_ascii_of_string s →
  Split (s +:+ String sep t) sep = s :: Split t sep.
Proof.
  induction s as [|c s IH]; simpl.
  - intros _. by rewrite decide_True.
  - intros Hnot. destruct (decide (c = sep)) as [->|Hne].
    + exfalso. apply Hnot. by left.
    + rewrite IH; [done|]. intros Hin. apply Hnot. by right.
Qed.

(** Split undoes a join with commas of names that hold no comma. *)
Lemma Split_concat (names : list string) :
  names ≠ [] →
  Forall (λ name, ","%char ∉ String.list_ascii_of_string name) names →
  Split (String.concat "," names) "," = names.
Proof.
  intros Hne Hall. induction Hall as [|name names Hname Hall IH]; [done|].
  destruct names as [|name' names].
  - simpl. by apply Split_no_sep.
  - change (String.concat "," (name :: name' :: names))
      with (name +:+ String "," (String.concat "," (name' :: names))).
    rewrite Split_app_sep by done. by rewrite IH.
Qed.

(** X5: without --chr-names the names are the 25 default names, chr1 to
    chr22, chrX, chrY and chrM; they are distinct and none is the sentinel,
    so that the default run has 26 output files of distinct names. *)
Theorem parseChromosomeNames_default (TrimSpace : string → string) :
  parseChromosomeNames TrimSpace "" =
    ["chr1"; "chr2"; "chr3"; "chr4"; "chr5"; "chr6"; "chr7"; "chr8"; "chr9"; "chr10";
     "chr11"; "chr12"; "chr13"; "chr14"; "chr15"; "chr16"; "chr17"; "chr18"; "chr19";
     "chr20"; "chr21"; "chr22"; "chrX"; "chrY"; "chrM"] ∧
  NoDup (parseChromosomeNames TrimSpace "" ++ [UnknownChr]).
Proof.
  split; [reflexivity|]. change (parseChromosomeNames TrimSpace "") with getDefaultChromosomes.
  apply (bool_decide_unpack _). by vm_compute.
Qed.

(** X6: parseChromosomeNames never returns an empty name, whatever the
    string: no run creates a file for the empty category. *)
Theorem parseChromosomeNames_no_empty_name (TrimSpace : string → string)
    (chrNamesStr : string) :
  EmptyString ∉ parseChromosomeNames TrimSpace chrNamesStr.
Proof.
  unfold parseChromosomeNames. destruct (decide (chrNamesStr = EmptyString)) as [_|_].
  - apply (bool_decide_unpack _). by vm_compute.
  - rewrite parseChromosomeNames_loop_filter. simpl.
    rewrite list_elem_of_filter. intros [Hne _]. done.
Qed.

(** X7: names that are not empty, hold no comma and are left as they are by
    strings.TrimSpace come back from parseChromosomeNames as they were joined,
    in the same order; a name given twice, or the name of the sentinel, comes
    back like any other. *)
Theorem parseChromosomeNames_join (TrimSpace : string → string) (names : list string) :
  names ≠ [] →
  Forall (λ name, name ≠ EmptyString ∧ (","%char ∉ String.list_ascii_of_string name) ∧
                  TrimSpace name = name) names →
  parseChromosomeNames TrimSpace (String.concat "," names) = names.
Proof.
  intros Hne Hall. unfold parseChromosomeNames.
  destruct (decide (String.concat "," names = EmptyString)) as [He|_].
  - exfalso. destruct names as [|name names]; [done|].
    apply Forall_cons in Hall as [(Hname & _) _].
    destruct name as [|c name]; [done|]. destruct names; simpl in He; done.
  - rewrite Split_concat; [|done|].
    2:{ eapply Forall_impl; [exact Hall|]. by intros name (_ & ? & _). }
    rewrite parseChromosomeNames_loop_filter. simpl.
    clear Hne. induction Hall as [|name names (Hname & _ & Htrim) Hall IH]; [done|].
    rewrite fmap_cons, Htrim, filter_cons_True by done. by rewrite IH.
Qed.

Lemma parseChromosomeNames_join_witness :
  parseChromosomeNames sample_TrimSpace "chr1,chr1,unknown_chr"
  = ["chr1"; "chr1"; "unknown_chr"].
Proof.
  apply (parseChromosomeNames_join sample_TrimSpace ["chr1"; "chr1"; "unknown_chr"]).
  - done.
  - repeat apply Forall_cons_2; try apply Forall_nil_2;
      (split_and!; [done|apply (bool_decide_unpack _); by vm_compute|reflexivity]).
Defined.

(** ** main *)

Section Main.

Variable TrimSpace : string → string.
Variable GetBytes : list byte → string → Result.
Variable env : Env.

(** X8: when no file has the input path, main ends before it creates the
    processor: no output file is created or truncated, the file system is as
    it was, and the exit status is 1 (0 with --help). *)
Theorem main_missing_input (os : OS) (flags : Flags) :
  disk os !! flag_input flags = None →
  main TrimSpace GetBytes env os flags = (os, if flag_help flags then 0 else 1)%Z.
Proof.
  intros Hinp. unfold main. destruct (flag_help flags); [done|].
  destruct (decide (flag_input flags = EmptyString)); [done|]. by rewrite Hinp.
Qed.

(** X9: the exit status of main is 0 or 1, for any flags, files and I/O
    failures: main does not end in a panic. *)
Theorem main_exit_status (os : OS) (flags : Flags) :
  (main TrimSpace GetBytes env os flags).2 = 0%Z ∨
  (main TrimSpace GetBytes env os flags).2 = 1%Z.
Proof.
  unfold main. destruct (flag_help flags); [by left|].
  destruct (decide (flag_input flags = EmptyString)); [by right|].
  destruct (disk os !! flag_input flags); [|by right].
  set (cp := NewChromosomeProcessor _ _ _ _).
  destruct (ProcessFile_returns GetBytes env os cp) as [err Herr].
  destruct (ProcessFile GetBytes env os cp) as [[os' cp'] out]. simpl in Herr. subst out.
  destruct err; [by right|by left].
Qed.

(** X10: a run of main from its flags to the files.  When the input file
    exists and is not one of the output files, and every output file can be
    created and written, main exits with status 0, or with status 1 when a
    line does not fit the scan buffer; for each name parsed from --chr-names
    (the default names when it is empty) and for UnknownChr the output file
    holds the lines routed to it that were read, each followed by a newline,
    and no other file has changed. *)
Theorem main_run (os : OS) (flags : Flags) (content : list byte) :
  let names := parseChromosomeNames TrimSpace (flag_chr_names flags) in
  let cp := NewChromosomeProcessor (flag_input flags) (flag_prefix flags)
              (flag_chr_field_name flags) names in
  let allChrs := names ++ [UnknownChr] in
  flag_help flags = false → flag_input flags ≠ EmptyString →
  os_wf os →
  (∀ c, c ∈ allChrs → can_create env (output_filename (flag_prefix flags) c) = true) →
  (∀ c, c ∈ allChrs → can_write env (output_filename (flag_prefix flags) c) = true) →
  disk os !! flag_input flags = Some content →
  (∀ c, c ∈ allChrs → flag_input flags ≠ output_filename (flag_prefix flags) c) →
  ∃ os',
    main TrimSpace GetBytes env os flags
    = (os', if decide (input_error content = None) then 0 else 1)%Z ∧
    (∀ c, c ∈ allChrs →
          disk os' !! output_filename (flag_prefix flags) c
          = Some (routed_output GetBytes cp (input_tokens content) c)) ∧
    (∀ q, (∀ c, c ∈ allChrs → q ≠ output_filename (flag_prefix flags) c) →
          disk os' !! q = disk os !! q).
Proof.
  intros names cp allChrs Hhelp Hinput Hwf Hcc Hcw Hinp Hne.
  destruct (ProcessFile_ok GetBytes env os (flag_input flags) (flag_prefix flags)
              (flag_chr_field_name flags) names content Hwf Hcc Hcw Hinp Hne)
    as (os' & cp' & Hrun & _ & Hd & Hfr & _).
  exists os'. split_and!; [|exact Hd|exact Hfr].
  unfold main. rewrite Hhelp, decide_False by done. rewrite Hinp.
  fold names. rewrite Hrun. unfold scan_outcome.
  destruct (input_error content); by rewrite ?decide_True, ?decide_False by done.
Qed.

End Main.

Lemma main_missing_input_witness :
  main sample_TrimSpace sample_GetBytes env_ok
    (fresh_process {[ "out_chr1.jsonl" := sample_input ]})
    {| flag_input := "in.jsonl"; flag_prefix := "out"; flag_chr_field_name := "chr";
       flag_chr_names := "chr1,chr2"; flag_help := false |}
  = (fresh_process {[ "out_chr1.jsonl" := sample_input ]}, 1%Z).
Proof.
  apply (main_missing_input sample_TrimSpace sample_GetBytes env_ok
           (fresh_process {[ "out_chr1.jsonl" := sample_input ]})
           {| flag_input := "in.jsonl"; flag_prefix := "out"; flag_chr_field_name := "chr";
              flag_chr_names := "chr1,chr2"; flag_help := false |}).
  reflexivity.
Defined.

Lemma main_run_witness :
  let flags := {| flag_input := "in.jsonl"; flag_prefix := "out";
                  flag_chr_field_name := "chr"; flag_chr_names := " chr1, chr2 ,";
                  flag_help := false |} in
  let r := main sample_TrimSpace sample_GetBytes env_ok (sample_os sample_input) flags in
  r.2 = 0%Z ∧ disk r.1 !! "out_chr2.jsonl" = Some (record2 ++ [newline]).
Proof.
  destruct (main_run sample_TrimSpace sample_GetBytes env_ok (sample_os sample_input)
              {| flag_input := "in.jsonl"; flag_prefix := "out";
                 flag_chr_field_name := "chr"; flag_chr_names := " chr1, chr2 ,";
                 flag_help := false |} sample_input) as (os' & Hrun & Hd & _).
  - reflexivity.
  - done.
  - apply fresh_process_wf.
  - reflexivity.
  - reflexivity.
  - reflexivity.
  - intros c Hc. vm_compute in Hc. set_unfold in Hc. destruct Hc as [->|[->|[->|[]]]]; done.
  - cbv zeta. rewrite Hrun. split; [by vm_compute|].
    refine (eq_trans (Hd "chr2" _) _); [|by vm_compute].
    apply (bool_decide_unpack _). by vm_compute.
Defined.

(** ** What a run touches, whatever fails *)

Section Touch.

(** The paths that may be written, and the first handle that may change. *)
Variable P : string → Prop.
Variable n0 : nat.

(** [writes_rel os os']: from [os] to [os'] no file was opened or closed,
    no handle below [n0] has moved and no file outside [P] has changed. *)
Definition writes_rel (os os' : OS) : Prop :=
  next_handle os' = next_handle os ∧
  (∀ h, of_path <$> open_files os' !! h = of_path <$> open_files os !! h) ∧
  (∀ h, h < n0 → open_files os' !! h = open_files os !! h) ∧
  (∀ q, ¬ P q → disk os' !! q = disk os !! q).

(** The file of the writer [w] was opened by this run, on a path of [P]. *)
Definition writer_cond (os : OS) (w : Writer) : Prop :=
  n0 ≤ wr w ∧ wr w < next_handle os ∧
  ∀ f, open_files os !! wr w = Some f → P (of_path f).

Definition writers_cond (os : OS) (cp : ChromosomeProcessor) : Prop :=
  ∀ c w, outputWriters cp !! c = Some w → writer_cond os w.

Lemma writes_rel_refl (os : OS) : writes_rel os os.
Proof. by split_and!. Qed.

Lemma writes_rel_trans (os1 os2 os3 : OS) :
  writes_rel os1 os2 → writes_rel os2 os3 → writes_rel os1 os3.
Proof.
  intros (Hn1 & Hp1 & Ho1 & Hd1) (Hn2 & Hp2 & Ho2 & Hd2). split_and!.
  - congruence.
  - intros h. by rewrite Hp2, Hp1.
  - intros h Hh. by rewrite Ho2, Ho1.
  - intros q Hq. by rewrite Hd2, Hd1.
Qed.

Lemma writer_cond_rel (os os' : OS) (w w' : Writer) :
  writes_rel os os' → writer_cond os w → wr w' = wr w → writer_cond os' w'.
Proof.
  intros (Hn & Hp & _ & _) (Hlow & Hhigh & Hpath) Hwr. unfold writer_cond.
  rewrite Hwr. split_and!.
  - done.
  - by rewrite Hn.
  - intros f' Hf'. specialize (Hp (wr w)). rewrite Hf' in Hp. simpl in Hp.
    destruct (open_files os !! wr w) as [f|] eqn:Hf; [|done].
    injection Hp as ->. by apply Hpath.
Qed.

Variable env : Env.

Lemma File_Write_rel (os : OS) (h : nat) (p : list byte) :
  n0 ≤ h → (∀ f, open_files os !! h = Some f → P (of_path f)) →
  writes_rel os (File_Write env os h p).1.
Proof.
  intros Hh Hpath. unfold File_Write.
  destruct (open_files os !! h) as [f|] eqn:Hf; [|apply writes_rel_refl].
  destruct (can_write env (of_path f)); [|apply writes_rel_refl].
  simpl. split_and!; simpl.
  - done.
  - intros h'. destruct (decide (h' = h)) as [->|Hne].
    + by rewrite lookup_insert_eq, Hf.
    + by rewrite lookup_insert_ne.
  - intros h' Hh'. rewrite lookup_insert_ne by lia. done.
  - intros q Hq. rewrite lookup_insert_ne; [done|]. intros <-. apply Hq. by apply Hpath.
Qed.

Lemma Flush_rel (os : OS) (w : Writer) (os' : OS) (w' : Writer) (e : option io_error) :
  writer_cond os w → Flush env os w = (os', w', e) →
  writes_rel os os' ∧ wr w' = wr w.
Proof.
  intros (Hlow & _ & Hpath). unfold Flush. destruct (werr w).
  { intros [= <- <- <-]. split; [apply writes_rel_refl|done]. }
  destruct (buf w) as [|b l] eqn:Hb.
  { intros [= <- <- <-]. split; [apply writes_rel_refl|done]. }
  pose proof (File_Write_rel os (wr w) (b :: l) Hlow Hpath) as Hrel.
  destruct (File_Write env os (wr w) (b :: l)) as [os1 [e1|]];
    intros [= <- <- <-]; by split.
Qed.

Lemma Write_pass_rel (os : OS) (w : Writer) (p : list byte)
    (os' : OS) (w' : Writer) (p' : list byte) :
  writer_cond os w → Write_pass env os w p = (os', w', p') →
  writes_rel os os' ∧ wr w' = wr w.
Proof.
  intros Hw. unfold Write_pass. case_bool_decide.
  - destruct Hw as (Hlow & _ & Hpath).
    pose proof (File_Write_rel os (wr w) p Hlow Hpath) as Hrel.
    destruct (File_Write env os (wr w) p) as [os1 [e1|]];
      intros [= <- <- <-]; by split.
  - destruct (Flush env os (set_buf w _)) as [[os1 w1] e1] eqn:Hfl.
    intros [= <- <- <-]. apply Flush_rel in Hfl; [|exact Hw]. destruct Hfl. by split.
Qed.

Lemma Write_rest_rel (os : OS) (w : Writer) (p : list byte)
    (os' : OS) (w' : Writer) (e : option io_error) :
  Write_rest os w p = (os', w', e) → os' = os ∧ wr w' = wr w.
Proof. unfold Write_rest. destruct (werr w); by intros [= <- <- <-]. Qed.

Lemma Write_rel (os : OS) (w : Writer) (p : list byte)
    (os' : OS) (w' : Writer) (e : option io_error) :
  writer_cond os w → Write env os w p = (os', w', e) →
  writes_rel os os' ∧ wr w' = wr w.
Proof.
  intros Hw. unfold Write. destruct (Write_more w p).
  2:{ intros [-> Hwr]%Write_rest_rel. split; [apply writes_rel_refl|done]. }
  destruct (Write_pass env os w p) as [[os1 w1] p1] eqn:Hp1.
  destruct (Write_pass_rel _ _ _ _ _ _ Hw Hp1) as [Hrel1 Hwr1].
  destruct (Write_more w1 p1).
  2:{ intros [-> Hwr]%Write_rest_rel. split; [done|congruence]. }
  destruct (Write_pass env os1 w1 p1) as [[os2 w2] p2] eqn:Hp2.
  destruct (Write_pass_rel os1 w1 p1 os2 w2 p2) as [Hrel2 Hwr2]; [|done|].
  { by eapply writer_cond_rel. }
  intros [-> Hwr]%Write_rest_rel. split; [by eapply writes_rel_trans|congruence].
Qed.

Lemma WriteByte_rel (os : OS) (w : Writer) (c : byte)
    (os' : OS) (w' : Writer) (e : option io_error) :
  writer_cond os w → WriteByte env os w c = (os', w', e) →
  writes_rel os os' ∧ wr w' = wr w.
Proof.
  intros Hw. unfold WriteByte. destruct (werr w).
  { intros [= <- <- <-]. split; [apply writes_rel_refl|done]. }
  case_bool_decide.
  - destruct (Flush env os w) as [[os1 w1] [e1|]] eqn:Hfl;
      destruct (Flush_rel _ _ _ _ _ Hw Hfl) as [Hrel Hwr];
      intros [= <- <- <-]; by split.
  - intros [= <- <- <-]. split; [apply writes_rel_refl|done].
Qed.

End Touch.

Section TouchRouter.

Variable P : string → Prop.
Variable n0 : nat.
Variable GetBytes : list byte → string → Result.
Variable env : Env.

Lemma GetOutputWriter_lookup (cp : ChromosomeProcessor) (c k : string) (w : Writer) :
  GetOutputWriter cp c = Some (k, w) → outputWriters cp !! k = Some w.
Proof.
  unfold GetOutputWriter. destruct (outputWriters cp !! c) eqn:H1; [by intros [= <- <-]|].
  destruct (outputWriters cp !! UnknownChr) eqn:H2; [by intros [= <- <-]|done].
Qed.

Lemma writers_cond_update (os os' : OS) (cp : ChromosomeProcessor) (k : string)
    (w w' : Writer) :
  writes_rel P n0 os os' → writers_cond P n0 os cp →
  outputWriters cp !! k = Some w → wr w' = wr w →
  writers_cond P n0 os' (set_outputWriters cp (<[k := w']> (outputWriters cp))).
Proof.
  intros Hrel Hws Hk Hwr c wc. simpl. destruct (decide (c = k)) as [->|Hne].
  - rewrite lookup_insert_eq. intros [= <-].
    eapply writer_cond_rel; [done|by eapply Hws|done].
  - rewrite lookup_insert_ne by done. intros Hc.
    eapply writer_cond_rel; [done|by eapply Hws|done].
Qed.

Lemma ProcessLine_rel (os : OS) (cp : ChromosomeProcessor) (lineNum : Z)
    (line : list byte) (os' : OS) (cp' : ChromosomeProcessor) (out : option outcome) :
  writers_cond P n0 os cp →
  ProcessLine GetBytes env os cp lineNum line = (os', cp', out) →
  writes_rel P n0 os os' ∧ writers_cond P n0 os' cp' ∧ outputFiles cp' = outputFiles cp.
Proof.
  intros Hws. unfold ProcessLine. case_bool_decide.
  { intros [= <- <- <-]. split_and!; [apply writes_rel_refl|done|done]. }
  destruct (GetOutputWriter cp _) as [[k w]|] eqn:Hget.
  2:{ intros [= <- <- <-]. split_and!; [apply writes_rel_refl|done|done]. }
  apply GetOutputWriter_lookup in Hget.
  destruct (Write env os w line) as [[os1 w1] e1] eqn:Hwrite.
  destruct (Write_rel P n0 env _ _ _ _ _ _ (Hws _ _ Hget) Hwrite) as [Hrel1 Hwr1].
  destruct e1.
  { intros [= <- <- <-]. split_and!; [done|by eapply writers_cond_update|done]. }
  destruct (WriteByte env os1 w1 newline) as [[os2 w2] e2] eqn:Hbyte.
  destruct (WriteByte_rel P n0 env os1 w1 newline os2 w2 e2) as [Hrel2 Hwr2]; [|done|].
  { eapply writer_cond_rel; [done|by eapply Hws|done]. }
  assert (Hrel : writes_rel P n0 os os2) by (by eapply writes_rel_trans).
  assert (Hwr : wr w2 = wr w) by congruence.
  destruct e2; intros [= <- <- <-];
    (split_and!; [done|by eapply writers_cond_update|done]).
Qed.

Lemma ProcessLines_rel (toks : list (list byte)) (os : OS) (cp : ChromosomeProcessor)
    (lineNum : Z) (os' : OS) (cp' : ChromosomeProcessor) (n : Z) (out : option outcome) :
  writers_cond P n0 os cp →
  ProcessLines GetBytes env toks os cp lineNum = (os', cp', n, out) →
  writes_rel P n0 os os' ∧ writers_cond P n0 os' cp' ∧ outputFiles cp' = outputFiles cp.
Proof.
  revert os cp lineNum. induction toks as [|t toks IH]; intros os cp lineNum Hws; simpl.
  { intros [= <- <- <- <-]. split_and!; [apply writes_rel_refl|done|done]. }
  destruct (ProcessLine GetBytes env os cp (lineNum + 1) t) as [[os1 cp1] out1] eqn:Hline.
  destruct (ProcessLine_rel _ _ _ _ _ _ _ Hws Hline) as (Hrel1 & Hws1 & Hf1).
  destruct out1.
  { intros [= <- <- <- <-]. done. }
  intros Hrest. destruct (IH _ _ _ Hws1 Hrest) as (Hrel2 & Hws2 & Hf2).
  split_and!; [by eapply writes_rel_trans|done|congruence].
Qed.

Lemma FlushWriters_rel (keys : list string) (os : OS) (ws : gmap string Writer)
    (os' : OS) (ws' : gmap string Writer) :
  (∀ k w, ws !! k = Some w → writer_cond P n0 os w) →
  FlushWriters env keys os ws = (os', ws') →
  writes_rel P n0 os os' ∧ (∀ k w, ws' !! k = Some w → writer_cond P n0 os' w).
Proof.
  revert os ws. induction keys as [|k keys IH]; intros os ws Hws; simpl.
  { intros [= <- <-]. split; [apply writes_rel_refl|done]. }
  destruct (ws !! k) as [w|] eqn:Hk; [|by apply IH].
  destruct (Flush env os w) as [[os1 w1] e1] eqn:Hfl.
  destruct (Flush_rel P n0 env _ _ _ _ _ (Hws _ _ Hk) Hfl) as [Hrel1 Hwr1].
  intros Hrest. apply IH in Hrest as [Hrel2 Hws2].
  { split; [by eapply writes_rel_trans|done]. }
  intros k' w'. destruct (decide (k' = k)) as [->|Hne].
  - rewrite lookup_insert_eq. intros [= <-].
    eapply writer_cond_rel; [done|by eapply Hws|done].
  - rewrite lookup_insert_ne by done. intros Hk'.
    eapply writer_cond_rel; [done|by eapply Hws|done].
Qed.

Lemma FlushAllWriters_rel (os : OS) (cp : ChromosomeProcessor)
    (os' : OS) (cp' : ChromosomeProcessor) :
  writers_cond P n0 os cp → FlushAllWriters env os cp = (os', cp') →
  writes_rel P n0 os os' ∧ writers_cond P n0 os' cp' ∧ outputFiles cp' = outputFiles cp.
Proof.
  intros Hws. unfold FlushAllWriters.
  destruct (FlushWriters env _ os (outputWriters cp)) as [os1 ws1] eqn:Hfl.
  intros [= <- <-]. destruct (FlushWriters_rel _ _ _ _ _ Hws Hfl) as [Hrel Hws1].
  split_and!; [done| |done]. intros c w Hc. by eapply Hws1.
Qed.

Lemma ProcessInput_rel (os : OS) (cp : ChromosomeProcessor) (content : list byte)
    (os' : OS) (cp' : ChromosomeProcessor) (out : outcome) :
  writers_cond P n0 os cp →
  ProcessInput GetBytes env os cp content = (os', cp', out) →
  writes_rel P n0 os os' ∧ writers_cond P n0 os' cp' ∧ outputFiles cp' = outputFiles cp.
Proof.
  intros Hws. unfold ProcessInput. destruct (Scanner_run _) as [toks scan_err].
  destruct (ProcessLines GetBytes env toks os cp 0) as [[[os1 cp1] n] out1] eqn:Hlines.
  destruct (ProcessLines_rel _ _ _ _ _ _ _ _ Hws Hlines) as (Hrel1 & Hws1 & Hf1).
  destruct out1; [by intros [= <- <- <-]|].
  destruct scan_err; [by intros [= <- <- <-]|].
  destruct (FlushAllWriters env os1 cp1) as [os2 cp2] eqn:Hfl.
  destruct (FlushAllWriters_rel _ _ _ _ Hws1 Hfl) as (Hrel2 & Hws2 & Hf2).
  intros [= <- <- <-]. split_and!; [by eapply writes_rel_trans|done|congruence].
Qed.

(** CloseAllFiles: a flush of the writers, then the closing of the files of
    the map. *)
Lemma CloseAllFiles_rel (os : OS) (cp : ChromosomeProcessor)
    (os' : OS) (cp' : ChromosomeProcessor) :
  writers_cond P n0 os cp → CloseAllFiles env os cp = (os', cp') →
  outputFiles cp' = outputFiles cp ∧
  ∃ os1, writes_rel P n0 os os1 ∧
         os' = CloseFiles (map_keys (outputFiles cp)) os1 (outputFiles cp).
Proof.
  intros Hws. unfold CloseAllFiles.
  destruct (FlushAllWriters env os cp) as [os1 cp1] eqn:Hfl.
  destruct (FlushAllWriters_rel _ _ _ _ Hws Hfl) as (Hrel & _ & Hf).
  intros [= <- <-]. split; [done|]. exists os1. by rewrite Hf.
Qed.

End TouchRouter.

(** ** Every file the run opens is closed again *)

Section Releases.

Variable P : string → Prop.
Variable n0 : nat.
Variable GetBytes : list byte → string → Result.
Variable env : Env.

Lemma handles_inv_rel (os os' : OS) (cp cp' : ChromosomeProcessor) :
  writes_rel P n0 os os' → outputFiles cp' = outputFiles cp →
  handles_inv n0 os cp → handles_inv n0 os' cp'.
Proof.
  intros (Hn & Hp & _ & _) Hf (Hwf & Hn0 & Hlow & Hhigh).
  assert (Hopen : ∀ h, is_Some (open_files os' !! h) → is_Some (open_files os !! h)).
  { intros h [f' Hf']. specialize (Hp h). rewrite Hf' in Hp.
    destruct (open_files os !! h); [by eexists|done]. }
  unfold handles_inv. rewrite Hf, Hn. split_and!; try done.
  - intros h Hh. destruct (open_files os' !! h) as [f'|] eqn:Hf'; [|done].
    destruct (Hopen h) as [f Hopen']; [by eexists|].
    rewrite Hn in Hh. rewrite (Hwf h Hh) in Hopen'. done.
  - intros h Hh Hsome. apply Hhigh; [done|]. by apply Hopen.
Qed.

(** CloseAllFiles closes what the run has opened. *)
Lemma CloseAllFiles_releases (os : OS) (cp : ChromosomeProcessor)
    (os' : OS) (cp' : ChromosomeProcessor) :
  handles_inv n0 os cp → writers_cond P n0 os cp →
  CloseAllFiles env os cp = (os', cp') →
  (∀ h, h < n0 → open_files os' !! h = open_files os !! h) ∧
  (∀ h, n0 ≤ h → open_files os' !! h = None) ∧
  (∀ q, ¬ P q → disk os' !! q = disk os !! q).
Proof.
  intros Hinv Hws Hclose.
  destruct (CloseAllFiles_rel P n0 env os cp os' cp' Hws Hclose) as (_ & os1 & Hrel & ->).
  pose proof (handles_inv_rel os os1 cp cp Hrel eq_refl Hinv) as Hinv1.
  destruct (CloseFiles_handles n0 os1 cp Hinv1) as (Hd & _ & Ho1 & Ho2).
  destruct Hrel as (_ & _ & Ho & Hdisk). split_and!.
  - intros h Hh. by rewrite Ho1, Ho.
  - done.
  - intros q Hq. by rewrite Hd, Hdisk.
Qed.

(** One more pass of the loop of InitializeOutputFiles, for a name that is
    not yet in the map. *)
Lemma handles_inv_create (os : OS) (cp : ChromosomeProcessor) (chr path : string)
    (ws : gmap string Writer) :
  handles_inv n0 os cp → outputFiles cp !! chr = None →
  handles_inv n0
    {| disk := <[path := []]> (disk os);
       open_files := <[next_handle os := {| of_path := path; of_offset := 0 |}]>
                       (open_files os);
       next_handle := S (next_handle os) |}
    (set_outputs cp ws (<[chr := next_handle os]> (outputFiles cp))).
Proof.
  intros (Hwf & Hn0 & Hlow & Hhigh) Hnew. split_and!; simpl.
  - intros h Hh. simpl in *. rewrite lookup_insert_ne by lia. apply Hwf. lia.
  - lia.
  - intros c h. destruct (decide (c = chr)) as [->|Hne].
    + rewrite lookup_insert_eq. intros [= <-]. done.
    + rewrite lookup_insert_ne by done. apply Hlow.
  - intros h Hh Hopen. destruct (decide (h = next_handle os)) as [->|Hne].
    + exists chr. by rewrite lookup_insert_eq.
    + rewrite lookup_insert_ne in Hopen by done.
      destruct (Hhigh h Hh Hopen) as [c Hc]. exists c.
      rewrite lookup_insert_ne; [done|]. intros <-. congruence.
Qed.

Lemma InitializeOutputFiles_loop_handles (names : list string) (os : OS)
    (cp : ChromosomeProcessor) (os' : OS) (cp' : ChromosomeProcessor) :
  NoDup names → (∀ c, c ∈ names → outputFiles cp !! c = None) →
  (∀ c, c ∈ names → P (output_filename (prefix cp) c)) →
  handles_inv n0 os cp → writers_cond P n0 os cp →
  InitializeOutputFiles_loop env names os cp = (os', cp', None) →
  handles_inv n0 os' cp' ∧ writers_cond P n0 os' cp' ∧
  (∀ h, h < n0 → open_files os' !! h = open_files os !! h).
Proof.
  intros Hnd. revert os cp.
  induction Hnd as [|chr names Hnotin Hnd IH]; intros os cp Hnew HP Hinv Hws Hinit.
  { simpl in Hinit. injection Hinit as <- <-. done. }
  simpl in Hinit. unfold os_Create in Hinit.
  destruct (can_create env (output_filename (prefix cp) chr)).
  2:{ by destruct (CloseAllFiles env os cp). }
  assert (Hn0 : n0 ≤ next_handle os) by apply Hinv.
  apply IH in Hinit.
  - destruct Hinit as (Hinv' & Hws' & Ho). split_and!; [done|done|].
    intros h Hh. rewrite Ho by done. simpl. by rewrite lookup_insert_ne by lia.
  - intros c Hc. simpl. rewrite lookup_insert_ne; [apply Hnew; by right|].
    intros <-. done.
  - intros c Hc. simpl. apply HP. by right.
  - apply handles_inv_create; [done|]. apply Hnew. by left.
  - intros c w. simpl. destruct (decide (c = chr)) as [->|Hne].
    + rewrite lookup_insert_eq. intros [= <-]. unfold writer_cond. simpl.
      split_and!; [done|lia|]. rewrite lookup_insert_eq. intros f [= <-]. simpl.
      apply HP. by left.
    + rewrite lookup_insert_ne by done. intros Hc.
      destruct (Hws c w Hc) as (Hlow & Hhigh & Hpath). unfold writer_cond. simpl.
      split_and!; [done|lia|]. rewrite lookup_insert_ne by lia. done.
Qed.

(** ProcessFile from the opening of the input on. *)
Lemma ProcessFile_after_init_releases (os : OS) (cp : ChromosomeProcessor) :
  handles_inv n0 os cp → writers_cond P n0 os cp →
  (∀ h, h < n0 →
     open_files (ProcessFile_after_init GetBytes env os cp).1.1 !! h = open_files os !! h) ∧
  (∀ h, n0 ≤ h → open_files (ProcessFile_after_init GetBytes env os cp).1.1 !! h = None) ∧
  (∀ q, ¬ P q → disk (ProcessFile_after_init GetBytes env os cp).1.1 !! q = disk os !! q).
Proof.
  intros Hinv Hws. unfold ProcessFile_after_init, os_Open.
  destruct (disk os !! inputFile cp) as [content|].
  2:{ destruct (CloseAllFiles env os cp) as [os3 cp3] eqn:Hclose.
      by apply (CloseAllFiles_releases os cp os3 cp3). }
  set (file := next_handle os).
  set (os2 := {| disk := disk os;
                 open_files := <[file := {| of_path := inputFile cp; of_offset := 0 |}]>
                                 (open_files os);
                 next_handle := S file |}).
  assert (Hn0 : n0 ≤ file) by apply Hinv.
  assert (Hws2 : writers_cond P n0 os2 cp).
  { intros c w Hc. destruct (Hws c w Hc) as (Hlow & Hhigh & Hpath).
    unfold writer_cond. simpl. split_and!; [done|lia|].
    rewrite lookup_insert_ne by (unfold file; lia). done. }
  destruct (ProcessInput GetBytes env os2 cp content) as [[os3 cp3] out] eqn:Hrun.
  destruct (ProcessInput_rel P n0 GetBytes env _ _ _ _ _ _ Hws2 Hrun) as (Hrel & Hws3 & Hf3).
  destruct (File_Close_spec os3 file) as (Hd4 & Hn4 & Ho4).
  set (os4 := (File_Close os3 file).1) in *.
  destruct Hrel as (Hn3 & Hp3 & Ho3 & Hd3).
  assert (Hopen : ∀ h, is_Some (open_files os4 !! h) →
            h ≠ file ∧ is_Some (open_files os !! h)).
  { intros h [f4 Hf4]. rewrite Ho4 in Hf4. apply lookup_delete_Some in Hf4 as [Hne Hf4].
    split; [done|]. specialize (Hp3 h). rewrite Hf4 in Hp3. simpl in Hp3.
    rewrite lookup_insert_ne in Hp3 by done.
    destruct (open_files os !! h); [by eexists|done]. }
  assert (Hinv4 : handles_inv n0 os4 cp3).
  { destruct Hinv as (Hwf & _ & Hlow & Hhigh). unfold handles_inv.
    rewrite Hf3, Hn4, Hn3. simpl. split_and!.
    - intros h Hh. destruct (open_files os4 !! h) as [f4|] eqn:Hf4; [|done].
      destruct (Hopen h) as [_ [f Hf]]; [by eexists|].
      rewrite Hn4, Hn3 in Hh. simpl in Hh. rewrite (Hwf h) in Hf by (unfold file in Hh; lia).
      done.
    - lia.
    - done.
    - intros h Hh Hsome. apply Hhigh; [done|]. by apply Hopen. }
  assert (Hws4 : writers_cond P n0 os4 cp3).
  { intros c w Hc. destruct (Hws3 c w Hc) as (Hlow & Hhigh & Hpath).
    unfold writer_cond. rewrite Hn4. split_and!; [done|done|].
    intros f Hf. rewrite Ho4 in Hf. apply lookup_delete_Some in Hf as [_ Hf].
    by apply Hpath. }
  destruct (CloseAllFiles env os4 cp3) as [os5 cp5] eqn:Hclose.
  destruct (CloseAllFiles_releases os4 cp3 os5 cp5 Hinv4 Hws4 Hclose) as (Ho5 & Hnone & Hd5).
  simpl. split_and!.
  - intros h Hh. rewrite Ho5, Ho4 by done. rewrite lookup_delete_ne by lia.
    rewrite Ho3 by done. simpl. by rewrite lookup_insert_ne by lia.
  - done.
  - intros q Hq. rewrite Hd5, Hd4, Hd3 by done. done.
Qed.

End Releases.

(** ProcessFile on distinct names, whatever fails and however it ends:
    the files that are open afterwards are those that were open before, and
    no file other than the output files has changed. *)
Lemma ProcessFile_releases (GetBytes : list byte → string → Result) (env : Env)
    (os : OS) (inp pre field : string) (names : list string) :
  let cp := NewChromosomeProcessor inp pre field names in
  let allChrs := names ++ [UnknownChr] in
  os_wf os → NoDup allChrs →
  open_files (ProcessFile GetBytes env os cp).1.1 = open_files os ∧
  (∀ q, (∀ c, c ∈ allChrs → q ≠ output_filename pre c) →
        disk (ProcessFile GetBytes env os cp).1.1 !! q = disk os !! q).
Proof.
  intros cp allChrs Hwf Hnd.
  set (P := λ q : string, ∃ c, c ∈ allChrs ∧ q = output_filename pre c).
  assert (HnP : ∀ q, (∀ c, c ∈ allChrs → q ≠ output_filename pre c) → ¬ P q).
  { intros q Hq (c & Hc & ->). by apply (Hq c). }
  assert (Hinv : handles_inv (next_handle os) os cp) by (by apply handles_inv_fresh).
  assert (Hopen : ∀ os',
            (∀ h, h < next_handle os → open_files os' !! h = open_files os !! h) →
            (∀ h, next_handle os ≤ h → open_files os' !! h = None) →
            open_files os' = open_files os).
  { intros os' Ho1 Ho2. apply map_eq. intros h.
    destruct (decide (h < next_handle os)) as [Hlt|Hge]; [by apply Ho1|].
    rewrite Ho2 by lia. symmetry. apply Hwf. lia. }
  unfold ProcessFile, InitializeOutputFiles. change (chrNames cp ++ [UnknownChr]) with allChrs.
  destruct (InitializeOutputFiles_loop env allChrs os cp) as [[os1 cp1] [e|]] eqn:Hinit.
  - apply (InitializeOutputFiles_loop_failure env (next_handle os)) in Hinit; try done.
    destruct Hinit as (created & chr & rest & Heq & _ & _ & _ & Ho1 & Ho2 & _ & Hd).
    simpl. split; [by apply Hopen|].
    intros q Hq. apply Hd. intros c Hc. apply Hq. rewrite Heq. apply elem_of_app. by left.
  - destruct (InitializeOutputFiles_loop_success env _ _ _ _ _ Hinit) as (_ & Hd1 & _).
    apply (InitializeOutputFiles_loop_handles P (next_handle os)) in Hinit; try done.
    + destruct Hinit as (Hinv1 & Hws1 & Ho1).
      destruct (ProcessFile_after_init_releases P (next_handle os) GetBytes env os1 cp1
                  Hinv1 Hws1) as (Ha & Hb & Hd).
      split.
      * apply Hopen; [|done]. intros h Hh. by rewrite Ha, Ho1.
      * intros q Hq. rewrite Hd by (by apply HnP). by apply Hd1.
    + intros c Hc. by exists c.
Qed.

(** ** C4: a line that does not fit the scan buffer, the whole run *)

(** A run whose input file is the output file of "chr1", whatever the file
    holds. *)
Lemma ProcessFile_sample_output_as_input (content : list byte) :
  (ProcessFile sample_GetBytes env_ok (fresh_process {[ "out_chr1.jsonl" := content ]})
     (NewChromosomeProcessor "out_chr1.jsonl" "out" "chr" ["chr1"; "chr2"])).2
  = Returned None.
Proof. by vm_compute. Qed.

(** C4, as stated, has ProcessFile return an error for every input with a
    line longer than the scan buffer.  It fails when the input file is itself
    one of the output files: InitializeOutputFiles truncates it before it is
    opened, the scanner meets the end of an empty file, and ProcessFile
    returns nil. *)
Lemma C4_input_is_output_counterexample :
  disk (fresh_process {[ "out_chr1.jsonl" := long_line ]}) !! "out_chr1.jsonl"
  = Some long_line ∧
  long_line ∈ lines long_line ∧ (max_line_size < len long_line)%Z ∧
  (ProcessFile sample_GetBytes env_ok (fresh_process {[ "out_chr1.jsonl" := long_line ]})
     (NewChromosomeProcessor "out_chr1.jsonl" "out" "chr" ["chr1"; "chr2"])).2
  = Returned None.
Proof.
  split; [exact (lookup_singleton_eq _ _)|].
  split; [rewrite long_line_lines; by left|].
  split; [exact long_line_len|].
  exact (ProcessFile_sample_output_as_input long_line).
Qed.

(** C4, amended: when the input, a file that is not one of the output
    files, has a line longer than the scan buffer of 10 MB, ProcessFile
    returns an error, whatever else fails.  When it returns, every writer of
    the map has been flushed and every file of the map is closed; when the
    declared names are distinct and do not name the sentinel, every file the
    run has opened is closed: the open files are those of before the call.
    When creations and writes succeed, the error is the scanner's, counted at
    the lines before the long one, and the output files hold the records of
    those lines only: the long line is not skipped, nothing after it is
    read. *)
Theorem ProcessFile_line_too_long (GetBytes : list byte → string → Result) (env : Env)
    (os : OS) (inp pre field : string) (names : list string) (content l : list byte) :
  let cp := NewChromosomeProcessor inp pre field names in
  let allChrs := names ++ [UnknownChr] in
  let before := lines_that_fit max_line_size (lines content) in
  disk os !! inp = Some content →
  (∀ c, c ∈ allChrs → inp ≠ output_filename pre c) →
  l ∈ lines content → (max_line_size < len l)%Z →
  ∃ os' cp' err,
    ProcessFile GetBytes env os cp = (os', cp', Returned (Some err)) ∧
    (∀ c w, outputWriters cp' !! c = Some w → flushed_or_failed w) ∧
    (∀ c h, outputFiles cp' !! c = Some h → open_files os' !! h = None) ∧
    (os_wf os → NoDup allChrs → open_files os' = open_files os) ∧
    (os_wf os →
     (∀ c, c ∈ allChrs → can_create env (output_filename pre c) = true) →
     (∀ c, c ∈ allChrs → can_write env (output_filename pre c) = true) →
     err = ErrorReadingInput (len before) ErrTooLong ∧
     (∀ c, c ∈ allChrs → flushed (outputWriters cp') c) ∧
     ∀ c, c ∈ allChrs →
       disk os' !! output_filename pre c
       = Some (records_of GetBytes cp (filter (λ t, t ≠ []) (map dropCR before)) c)).
Proof.
  intros cp allChrs before Hinp Hne Hl Hlen.
  assert (Herr : input_error content = Some ErrTooLong).
  { eapply line_too_long_error; [done|lia]. }
  assert (Hrun : ∃ os' cp' err,
            ProcessFile GetBytes env os cp = (os', cp', Returned (Some err))).
  { unfold ProcessFile, ProcessFile_after_init, InitializeOutputFiles.
    destruct (InitializeOutputFiles_loop env _ os cp) as [[os1 cp1] [e|]] eqn:Hinit;
      [by eexists _, _, _|].
    destruct (InitializeOutputFiles_loop_success env _ _ _ _ _ Hinit) as (Hcfg & Hd & Hdom).
    destruct Hcfg as (-> & _).
    unfold os_Open. simpl inputFile. rewrite (Hd inp), Hinp by done.
    destruct (ProcessInput_too_long GetBytes env
                {| disk := disk os1;
                   open_files := <[next_handle os1 :=
                     {| of_path := inp; of_offset := 0 |}]> (open_files os1);
                   next_handle := S (next_handle os1) |} cp1 content ErrTooLong)
      as (os3 & cp3 & err & ->); [|done|].
    { apply Hdom. left. apply elem_of_app. right. by left. }
    destruct (CloseAllFiles env _ cp3) as [os5 cp5]. by eexists _, _, _. }
  destruct Hrun as (os' & cp' & err & Hrun).
  destruct (ProcessFile_cleanup _ _ _ _ _ _ _ Hrun) as [Hfl Hcl].
  exists os', cp', err. split_and!; try done.
  { intros Hwf Hnd.
    destruct (ProcessFile_releases GetBytes env os inp pre field names Hwf Hnd) as [Ho _].
    fold cp in Ho. by rewrite Hrun in Ho. }
  intros Hwf Hcc Hcw.
  destruct (ProcessFile_ok GetBytes env os inp pre field names content Hwf Hcc Hcw Hinp Hne)
    as (os'' & cp'' & Hrun' & _ & Hd & _ & _ & Hflushed & _).
  fold cp in Hrun', Hd. rewrite Hrun in Hrun'. injection Hrun' as <- <- Hout.
  unfold scan_outcome in Hout. rewrite Herr in Hout.
  rewrite input_tokens_lines in Hout, Hd. fold before in Hout, Hd.
  split_and!.
  - injection Hout as ->. f_equal. unfold len. by rewrite length_map.
  - done.
  - intros c Hc. by rewrite (Hd c Hc), routed_output_records.
Qed.

Lemma ProcessFile_line_too_long_witness :
  ∃ os' cp' err,
    ProcessFile sample_GetBytes env_ok (sample_os long_line) sample_cp
    = (os', cp', Returned (Some err)) ∧
    (∀ c h, outputFiles cp' !! c = Some h → open_files os' !! h = None) ∧
    open_files os' = open_files (sample_os long_line).
Proof.
  destruct (ProcessFile_line_too_long sample_GetBytes env_ok (sample_os long_line)
              "in.jsonl" "out" "chr" ["chr1"; "chr2"] long_line long_line)
    as (os' & cp' & err & Hrun & _ & Hclosed & Hopen & _).
  - exact (lookup_singleton_eq _ _).
  - intros c Hc. set_unfold in Hc. destruct Hc as [->|[->|[->|[]]]]; done.
  - rewrite long_line_lines. by left.
  - exact long_line_len.
  - exists os', cp', err. split; [exact Hrun|]. split; [exact Hclosed|].
    apply Hopen; [apply fresh_process_wf|]. apply (bool_decide_unpack _). exact I.
Defined.

(** ** A run on distinct names leaks nothing *)

(** X11: when the declared names are distinct and do not name the sentinel,
    ProcessFile closes every file it opens, whatever fails and however it
    ends (an error of os.Create, of os.Open, of a write, of the scanner, or
    nil): the files that are open after the call are those that were open
    before it.  And no file other than the output files has changed. *)
Theorem ProcessFile_no_leak (GetBytes : list byte → string → Result) (env : Env)
    (os os' : OS) (cp' : ChromosomeProcessor) (out : outcome)
    (inp pre field : string) (names : list string) :
  os_wf os → NoDup (names ++ [UnknownChr]) →
  ProcessFile GetBytes env os (NewChromosomeProcessor inp pre field names)
  = (os', cp', out) →
  open_files os' = open_files os ∧
  (∀ q, (∀ c, c ∈ names ++ [UnknownChr] → q ≠ output_filename pre c) →
        disk os' !! q = disk os !! q).
Proof.
  intros Hwf Hnd Hrun.
  destruct (ProcessFile_releases GetBytes env os inp pre field names Hwf Hnd) as [Ho Hd].
  rewrite Hrun in Ho, Hd. done.
Qed.

Lemma ProcessFile_no_leak_witness :
  let r := ProcessFile sample_GetBytes env_missing_dir (sample_os sample_input)
             (NewChromosomeProcessor "in.jsonl" "out" "chr" ["chr1"; "x/y"]) in
  open_files r.1.1 = ∅ ∧ disk r.1.1 !! "in.jsonl" = Some sample_input.
Proof.
  destruct (ProcessFile_no_leak sample_GetBytes env_missing_dir (sample_os sample_input)
    (ProcessFile sample_GetBytes env_missing_dir (sample_os sample_input)
       (NewChromosomeProcessor "in.jsonl" "out" "chr" ["chr1"; "x/y"])).1.1
    (ProcessFile sample_GetBytes env_missing_dir (sample_os sample_input)
       (NewChromosomeProcessor "in.jsonl" "out" "chr" ["chr1"; "x/y"])).1.2
    (ProcessFile sample_GetBytes env_missing_dir (sample_os sample_input)
       (NewChromosomeProcessor "in.jsonl" "out" "chr" ["chr1"; "x/y"])).2
    "in.jsonl" "out" "chr" ["chr1"; "x/y"]) as [Ho Hd].
  - apply fresh_process_wf.
  - apply (bool_decide_unpack _). exact I.
  - apply triple_eta.
  - split; [exact Ho|]. rewrite Hd; [reflexivity|].
    intros c Hc. set_unfold in Hc. destruct Hc as [->|[->|[->|[]]]]; done.
Defined.
